(** * Kinematic diagnostics of MetPy ([metpy/calc/kinematics.py])

    A shallow embedding of the finite-difference kinematics module: the
    unit-propagating gradient, the dimension-order wrapper, the grid formulas
    built on them, and the storm-relative-helicity integration.

    Numbers are kept abstract behind the [Arith] interface, so every
    structural statement holds for whatever arithmetic the arrays carry; the
    interface is instantiated with exact rationals to run the module's own
    tests, and with the reals where square roots, logarithms and
    exponentials are needed. *)

From Stdlib Require Import String Ascii.
From Stdlib Require Import Reals Lra.
From Stdlib Require Import ZArith QArith Bool Arith Lia List.
From Stdlib Require Import Sorted.
Import ListNotations.

Close Scope R_scope.
Close Scope Q_scope.
Open Scope nat_scope.

Set Implicit Arguments.

(** ** Exceptions and the error monad *)

Inductive exn : Type :=
| DimensionalityError   (* pint: operands of different dimension combined additively *)
| UnitMismatchError     (* check_units: an argument has the wrong dimension *)
| UnpackError           (* ValueError: wrong number of values to unpack *)
| DictChangedSize       (* RuntimeError: dictionary changed size during iteration *)
| GradientTooSmall      (* ValueError of numpy.gradient: fewer than two samples on an axis *)
| GradientArguments     (* TypeError of numpy.gradient: invalid number of arguments *)
| BroadcastError        (* ValueError: operands could not be broadcast together *)
| EmptyReduction        (* ValueError: zero-size array to reduction operation *)
| EmptySequence         (* ValueError: need at least one array to concatenate *)
| InterpError           (* ValueError of numpy.interp: no sample points, or lengths differ *)
| IndexError            (* index out of range *)
| BadCall               (* TypeError raised when binding arguments to parameters *)
| AttributeError        (* the object has no ndim / units / magnitude *)
| NotIterable           (* TypeError: iteration over a 0-d array *)
| NotModelled.          (* array-valued sample distances, outside this model *)

Inductive result (A : Type) : Type :=
| Ok (a : A)
| Err (e : exn).
Arguments Ok {A} a.
Arguments Err {A} e.

Definition bind {A B} (r : result A) (k : A -> result B) : result B :=
  match r with
  | Ok a => k a
  | Err e => Err e
  end.

Definition fmap {A B} (f : A -> B) (r : result A) : result B :=
  match r with
  | Ok a => Ok (f a)
  | Err e => Err e
  end.

Declare Scope result_scope.
Delimit Scope result_scope with result.
Notation "x <- c ;; k" := (bind c (fun x => k))
  (at level 61, c at next level, right associativity) : result_scope.
Notation "' pat <- c ;; k" := (bind c (fun x => match x with pat => k end))
  (at level 61, pat pattern, c at next level, right associativity) : result_scope.
Open Scope result_scope.

Fixpoint mapM {A B} (f : A -> result B) (l : list A) : result (list B) :=
  match l with
  | [] => Ok []
  | a :: l' => b <- f a ;; bs <- mapM f l' ;; Ok (b :: bs)
  end.

Definition is_ok {A} (r : result A) : bool :=
  match r with Ok _ => true | Err _ => false end.

(** ** The arithmetic carried by arrays *)

Class Arith (F : Type) : Type := {
  fofZ : Z -> F;
  fadd : F -> F -> F;
  fsub : F -> F -> F;
  fmul : F -> F -> F;
  fdiv : F -> F -> F;
  fopp : F -> F;
  fltb : F -> F -> bool;
  fleb : F -> F -> bool;
  feqb : F -> F -> bool
}.

Class Transcendental (F : Type) : Type := {
  fsqrt : F -> F;
  fln : F -> F;
  fexp : F -> F;
  fceil : F -> Z
}.

(** ** Physical dimensions

    Modelled from the spec: the [units] module is not part of the sources.
    A unit is kept as its vector of dimension exponents (length, time, mass,
    angle, temperature); multiplication and division compose exponents,
    addition and subtraction need identical vectors. *)

Record dimension : Type := mk_dim {
  d_length : Q;
  d_time : Q;
  d_mass : Q;
  d_angle : Q;
  d_temperature : Q
}.

Definition dim_zip (op : Q -> Q -> Q) (a b : dimension) : dimension :=
  mk_dim (Qred (op (d_length a) (d_length b)))
         (Qred (op (d_time a) (d_time b)))
         (Qred (op (d_mass a) (d_mass b)))
         (Qred (op (d_angle a) (d_angle b)))
         (Qred (op (d_temperature a) (d_temperature b))).

Definition dim_mul : dimension -> dimension -> dimension := dim_zip Qplus.
Definition dim_div : dimension -> dimension -> dimension := dim_zip Qminus.
Definition dim_pow (a : dimension) (n : Q) : dimension :=
  dim_zip Qmult a (mk_dim n n n n n).

Definition dim_eqb (a b : dimension) : bool :=
  Qeq_bool (d_length a) (d_length b) && Qeq_bool (d_time a) (d_time b)
  && Qeq_bool (d_mass a) (d_mass b) && Qeq_bool (d_angle a) (d_angle b)
  && Qeq_bool (d_temperature a) (d_temperature b).

Definition dimensionless : dimension := mk_dim 0 0 0 0 0.
Definition dim_meter : dimension := mk_dim 1 0 0 0 0.
Definition dim_kelvin : dimension := mk_dim 0 0 0 0 1.
Definition dim_speed : dimension := mk_dim 1 (-1) 0 0 0.
Definition dim_pressure : dimension := mk_dim (-1) (-2) 1 0 0.
Definition dim_per_second : dimension := mk_dim 0 (-1) 0 0 0.
Definition dim_acceleration : dimension := mk_dim 1 (-2) 0 0 0.
Definition dim_geopotential : dimension := mk_dim 2 (-2) 0 0 0.

(** ** Shapes, indices and broadcasting (numpy) *)

Definition in_bounds (s idx : list nat) : Prop := Forall2 lt idx s.

Fixpoint in_boundsb (s idx : list nat) : bool :=
  match s, idx with
  | [], [] => true
  | n :: s', i :: idx' => (i <? n) && in_boundsb s' idx'
  | _, _ => false
  end.

(** Broadcasting of two shapes, written on the reversed shapes because numpy
    aligns the trailing axes. *)
Fixpoint broadcast_rev (s1 s2 : list nat) : option (list nat) :=
  match s1, s2 with
  | [], s => Some s
  | s, [] => Some s
  | a :: s1', b :: s2' =>
      match broadcast_rev s1' s2' with
      | None => None
      | Some s =>
          if a =? b then Some (a :: s)
          else if a =? 1 then Some (b :: s)
          else if b =? 1 then Some (a :: s)
          else None
      end
  end.

Definition broadcast_shapes (s1 s2 : list nat) : option (list nat) :=
  option_map (@rev nat) (broadcast_rev (rev s1) (rev s2)).

(** The index read in an operand of shape [s] for the result index [idx]:
    the trailing [length s] coordinates, with 0 on the axes of extent 1. *)
Fixpoint clamp_ones (s idx : list nat) : list nat :=
  match s, idx with
  | n :: s', i :: idx' => (if n =? 1 then 0 else i) :: clamp_ones s' idx'
  | _, _ => []
  end.

Definition bidx (s idx : list nat) : list nat :=
  clamp_ones s (skipn (length idx - length s) idx).

Definition set_nth (k i : nat) (idx : list nat) : list nat :=
  firstn k idx ++ i :: skipn (S k) idx.

Section Arrays.

Context {F : Type} `{Arith F}.

(** ** n-dimensional arrays

    An ndarray is its shape together with its indexing function, which is
    what numpy's views are: [a.T] and [a[::-1]] re-index the same buffer.
    Only the values at in-bounds indices are meaningful. *)

Record ndarray : Type := mk_nd {
  shape : list nat;
  get : list nat -> F
}.

Definition ndim (a : ndarray) : nat := length (shape a).

Definition arr_eq (a b : ndarray) : Prop :=
  shape a = shape b /\ forall idx, in_bounds (shape a) idx -> get a idx = get b idx.

Definition scalar (x : F) : ndarray := mk_nd [] (fun _ => x).
Definition item (a : ndarray) : F := get a [].

Definition of_list1 (l : list F) : ndarray :=
  mk_nd [length l] (fun idx => nth (nth 0 idx 0) l (fofZ 0)).

Definition of_list2 (rows : list (list F)) : ndarray :=
  mk_nd [length rows; length (hd [] rows)]
        (fun idx => nth (nth 1 idx 0) (nth (nth 0 idx 0) rows []) (fofZ 0)).

Definition of_list3 (planes : list (list (list F))) : ndarray :=
  mk_nd [length planes; length (hd [] planes); length (hd [] (hd [] planes))]
        (fun idx => nth (nth 2 idx 0)
                      (nth (nth 1 idx 0) (nth (nth 0 idx 0) planes []) []) (fofZ 0)).

Definition to_list1 (a : ndarray) : list F :=
  map (fun i => get a [i]) (seq 0 (nth 0 (shape a) 0)).

Definition to_list2 (a : ndarray) : list (list F) :=
  map (fun i => map (fun j => get a [i; j]) (seq 0 (nth 1 (shape a) 0)))
      (seq 0 (nth 0 (shape a) 0)).

(** [a.T]: all axes reversed. *)
Definition transpose (a : ndarray) : ndarray :=
  mk_nd (rev (shape a)) (fun idx => get a (rev idx)).

Definition nd_map (f : F -> F) (a : ndarray) : ndarray :=
  mk_nd (shape a) (fun idx => f (get a idx)).

(** Elementwise binary operation with broadcasting. *)
Definition nd_map2 (op : F -> F -> F) (a b : ndarray) : result ndarray :=
  match broadcast_shapes (shape a) (shape b) with
  | None => Err BroadcastError
  | Some s =>
      Ok (mk_nd s (fun idx => op (get a (bidx (shape a) idx))
                                 (get b (bidx (shape b) idx))))
  end.

(** [a[np.newaxis]] and [np.atleast_2d]. *)
Definition newaxis (a : ndarray) : ndarray :=
  mk_nd (1 :: shape a) (fun idx => get a (tl idx)).

Definition nd_atleast_2d (a : ndarray) : ndarray :=
  match shape a with
  | [] => mk_nd [1; 1] (fun _ => get a [])
  | [n] => mk_nd [1; n] (fun idx => get a (tl idx))
  | _ => a
  end.

(** [a[::-1]]: the leading axis reversed. *)
Definition reverse_axis0 (a : ndarray) : ndarray :=
  match shape a with
  | [] => a
  | n :: _ =>
      mk_nd (shape a)
            (fun idx => match idx with
                        | [] => get a idx
                        | k :: rest => get a ((n - 1 - k) :: rest)
                        end)
  end.

(** [a.sum(axis=0)]. *)
Definition sum_axis0 (a : ndarray) : result ndarray :=
  match shape a with
  | [] => Err IndexError
  | n :: s =>
      Ok (mk_nd s (fun idx =>
            fold_left (fun acc k => fadd acc (get a (k :: idx))) (seq 0 n) (fofZ 0)))
  end.

(** Sub-array [a[k]] along the leading axis. *)
Definition subarray (a : ndarray) (k : nat) : ndarray :=
  mk_nd (tl (shape a)) (fun idx => get a (k :: idx)).

(** ** numpy.gradient

    numpy is an external library; its gradient is written from its
    documentation: second-order central differences in the interior,
    first-order one-sided differences at the two ends of every axis, the
    sample distance of each axis being a scalar. *)

Definition stencil (line : nat -> F) (n i : nat) (h : F) : F :=
  if i =? 0 then fdiv (fsub (line 1) (line 0)) h
  else if i =? n - 1 then fdiv (fsub (line (n - 1)) (line (n - 2))) h
  else fdiv (fsub (line (i + 1)) (line (i - 1))) (fmul (fofZ 2) h).

Definition grad_axis (a : ndarray) (k : nat) (h : F) : ndarray :=
  mk_nd (shape a)
        (fun idx => stencil (fun i => get a (set_nth k i idx))
                            (nth k (shape a) 0) (nth k idx 0) h).

Definition spacing_value (h : ndarray) : result F :=
  if ndim h =? 0 then Ok (item h) else Err NotModelled.

Definition grad_one_axis (a : ndarray) (kh : nat * F) : result ndarray :=
  if nth (fst kh) (shape a) 0 <? 2 then Err GradientTooSmall
  else Ok (grad_axis a (fst kh) (snd kh)).

(** One derivative array per axis.  (For a 1-D input numpy hands back the
    single array itself rather than a list; [_gradient] below does that
    unwrapping.) *)
Definition np_gradient (f : ndarray) (varargs : list ndarray) : result (list ndarray) :=
  let N := ndim f in
  hs <- match varargs with
        | [] => Ok (repeat (fofZ 1) N)
        | [h] =>
            if ndim h =? 0 then Ok (repeat (item h) N)
            else if N =? 1 then Err NotModelled
            else Err GradientArguments
        | _ =>
            if length varargs =? N then mapM spacing_value varargs
            else Err GradientArguments
        end ;;
  mapM (grad_one_axis f) (combine (seq 0 N) hs).

(** ** Quantities *)

Record quantity : Type := mk_q {
  magnitude : ndarray;
  units : dimension
}.

Definition q_ndim (q : quantity) : nat := ndim (magnitude q).

Definition q_eq (a b : quantity) : Prop :=
  arr_eq (magnitude a) (magnitude b) /\ units a = units b.

Definition q_transpose (q : quantity) : quantity :=
  mk_q (transpose (magnitude q)) (units q).

Definition q_additive (op : F -> F -> F) (a b : quantity) : result quantity :=
  if dim_eqb (units a) (units b)
  then m <- nd_map2 op (magnitude a) (magnitude b) ;; Ok (mk_q m (units a))
  else Err DimensionalityError.

Definition q_add : quantity -> quantity -> result quantity := q_additive fadd.
Definition q_sub : quantity -> quantity -> result quantity := q_additive fsub.

Definition q_mul (a b : quantity) : result quantity :=
  m <- nd_map2 fmul (magnitude a) (magnitude b) ;;
  Ok (mk_q m (dim_mul (units a) (units b))).

Definition q_div (a b : quantity) : result quantity :=
  m <- nd_map2 fdiv (magnitude a) (magnitude b) ;;
  Ok (mk_q m (dim_div (units a) (units b))).

Definition q_neg (a : quantity) : quantity :=
  mk_q (nd_map fopp (magnitude a)) (units a).

(** [a ** 2] *)
Definition q_square (a : quantity) : quantity :=
  mk_q (nd_map (fun x => fmul x x) (magnitude a)) (dim_pow (units a) 2).

(** [1. / f] *)
Definition q_recip (a : quantity) : quantity :=
  mk_q (nd_map (fun x => fdiv (fofZ 1) x) (magnitude a)) (dim_div dimensionless (units a)).

Definition one_dimensionless : quantity := mk_q (scalar (fofZ 1)) dimensionless.
Definition one_meter : quantity := mk_q (scalar (fofZ 1)) dim_meter.

(** ** [_gradient]: numpy.gradient with units *)

Inductive grad_out : Type :=
| One (g : quantity)            (* 1-D field: a single derivative array *)
| Many (gs : list quantity).    (* one derivative array per axis *)

Definition pad_args (n : nat) (args : list quantity) : list quantity :=
  if length args <? n
  then args ++ repeat one_dimensionless (n - length args)
  else args.

Definition _gradient (f : quantity) (args : list quantity) : result grad_out :=
  let args := pad_args (q_ndim f) args in
  grad <- np_gradient (magnitude f) (map magnitude args) ;;
  if q_ndim f =? 1 then
    match args, grad with
    | a0 :: _, g :: _ => Ok (One (mk_q g (dim_div (units f) (units a0))))
    | _, _ => Err IndexError
    end
  else
    Ok (Many (map (fun dg => mk_q (snd dg) (dim_div (units f) (units (fst dg))))
                  (combine args grad))).

(** Tuple unpacking [a, b = ...] of what [_gradient] returned. *)
Definition unpack2 (g : grad_out) : result (quantity * quantity) :=
  match g with
  | Many [a; b] => Ok (a, b)
  | Many _ => Err UnpackError
  | One q =>
      match shape (magnitude q) with
      | [2] => Ok (mk_q (subarray (magnitude q) 0) (units q),
                   mk_q (subarray (magnitude q) 1) (units q))
      | _ => Err UnpackError
      end
  end.

Definition _get_gradients (u v dx dy : quantity)
  : result (quantity * quantity * quantity * quantity) :=
  gu <- _gradient u [dy; dx] ;;
  '(dudy, dudx) <- unpack2 gu ;;
  gv <- _gradient v [dy; dx] ;;
  '(dvdy, dvdx) <- unpack2 gv ;;
  Ok (dudx, dudy, dvdx, dvdy).

End Arrays.

Arguments ndarray F : clear implicits.
Arguments quantity F : clear implicits.
Arguments grad_out F : clear implicits.

(** ** Python values crossing the call boundary *)

Section Values.

Context {F : Type} `{Arith F}.

#[warnings="-register-all"]
Inductive pyval : Type :=
| VQ (q : quantity F)       (* a Quantity: array or scalar with units *)
| VNum (x : F)              (* a plain number, no units *)
| VStr (s : string)
| VBool (b : bool)
| VNone
| VSeq (l : list pyval).    (* list or tuple *)

Definition dict : Type := list (string * pyval).

Definition pyfun : Type := list pyval -> dict -> result pyval.

Fixpoint dict_find (key : string) (d : dict) : option pyval :=
  match d with
  | [] => None
  | (k, v) :: d' => if String.eqb k key then Some v else dict_find key d'
  end.

Fixpoint dict_remove (key : string) (d : dict) : dict :=
  match d with
  | [] => []
  | (k, v) :: d' => if String.eqb k key then dict_remove key d' else (k, v) :: dict_remove key d'
  end.

(** [d[key] = v]: an existing key keeps its place, a new key goes last. *)
Fixpoint dict_set (key : string) (v : pyval) (d : dict) : dict :=
  match d with
  | [] => [(key, v)]
  | (k, w) :: d' => if String.eqb k key then (k, v) :: d' else (k, w) :: dict_set key v d'
  end.

Definition dict_keys (d : dict) : list string := map fst d.

(** [d.pop(key, default)] *)
Definition dict_pop (key : string) (default : pyval) (d : dict) : pyval * dict :=
  match dict_find key d with
  | Some v => (v, dict_remove key d)
  | None => (default, d)
  end.

Definition as_quantity (v : pyval) : result (quantity F) :=
  match v with
  | VQ q => Ok q
  | _ => Err AttributeError
  end.

(** Iterating a sequence of Quantities, or a Quantity array along its leading
    axis. *)
Definition iterate (v : pyval) : result (list (quantity F)) :=
  match v with
  | VSeq l => mapM as_quantity l
  | VQ q =>
      match shape (magnitude q) with
      | [] => Err NotIterable
      | n :: _ => Ok (map (fun k => mk_q (subarray (magnitude q) k) (units q)) (seq 0 n))
      end
  | _ => Err NotIterable
  end.

Definition pyval_of_grad (g : grad_out F) : pyval :=
  match g with
  | One q => VQ q
  | Many gs => VSeq (map VQ gs)
  end.

(** Binding of positional and keyword arguments to the parameters [names]
    of a function without defaults. *)
Fixpoint bind_params (names : list string) (args : list pyval) (kwargs : dict)
  : result (list pyval) :=
  match names, args with
  | [], [] => match kwargs with [] => Ok [] | _ :: _ => Err BadCall end
  | [], _ :: _ => Err BadCall
  | n :: names', a :: args' =>
      match dict_find n kwargs with
      | Some _ => Err BadCall
      | None => rest <- bind_params names' args' kwargs ;; Ok (a :: rest)
      end
  | n :: names', [] =>
      match dict_find n kwargs with
      | None => Err BadCall
      | Some v => rest <- bind_params names' [] (dict_remove n kwargs) ;; Ok (v :: rest)
      end
  end.

(** ** The dimension-order wrapper *)

Inductive warning : Type := FutureWarning.

Record outcome : Type := mk_outcome {
  warnings : list warning;
  returned : result pyval
}.

Definition _is_x_first_dim (dim_order : pyval) : list warning * bool :=
  match dim_order with
  | VNone => ([FutureWarning], true)
  | VStr s => ([], String.eqb s "xy")
  | _ => ([], false)
  end.

Fixpoint _check_and_flip (arr : pyval) : pyval :=
  match arr with
  | VQ q => if 2 <=? q_ndim q then VQ (q_transpose q) else arr
  | VSeq l => VSeq (map _check_and_flip l)
  | _ => arr
  end.

(** [k, v = key] for a string [key]: exactly two characters. *)
Definition unpack_key (key : string) : option (string * string) :=
  match key with
  | String c1 (String c2 EmptyString) =>
      Some (String c1 EmptyString, String c2 EmptyString)
  | _ => None
  end.

(** The loop [for k, v in kwargs: kwargs[k] = _check_and_flip(v)].
    Iterating a dictionary yields its keys; each step first checks that the
    dictionary still has the size it had when the iteration began, and the
    check is made once more when the keys are exhausted. *)
Fixpoint flip_kwargs_from (keys : list string) (size0 : nat) (kwargs : dict)
  : result dict :=
  if negb (length kwargs =? size0) then Err DictChangedSize
  else
    match keys with
    | [] => Ok kwargs
    | key :: keys' =>
        match unpack_key key with
        | None => Err UnpackError
        | Some (k, v) =>
            flip_kwargs_from keys' size0 (dict_set k (_check_and_flip (VStr v)) kwargs)
        end
    end.

Definition flip_kwargs (kwargs : dict) : result dict :=
  flip_kwargs_from (dict_keys kwargs) (length kwargs) kwargs.

Definition ensure_yx_order (func : pyfun) (args : list pyval) (kwargs : dict) : outcome :=
  let (dim_order, kwargs) := dict_pop "dim_order" VNone kwargs in
  let (w, x_first) := _is_x_first_dim dim_order in
  if x_first then
    let args := map _check_and_flip args in
    mk_outcome w (kwargs <- flip_kwargs kwargs ;;
                  fmap _check_and_flip (func args kwargs))
  else
    mk_outcome w (func args kwargs).

(** ** The grid formulas *)

Definition v_vorticity_raw (u v dx dy : quantity F) : result pyval :=
  '(_, dudy, dvdx, _) <- _get_gradients u v dx dy ;;
  r <- q_sub dvdx dudy ;;
  Ok (VQ r).

Definition h_convergence_raw (u v dx dy : quantity F) : result pyval :=
  '(dudx, _, _, dvdy) <- _get_gradients u v dx dy ;;
  r <- q_add dudx dvdy ;;
  Ok (VQ r).

Definition convergence_vorticity_raw (u v dx dy : quantity F) : result pyval :=
  '(dudx, dudy, dvdx, dvdy) <- _get_gradients u v dx dy ;;
  c <- q_add dudx dvdy ;;
  w <- q_sub dvdx dudy ;;
  Ok (VSeq [VQ c; VQ w]).

Definition shearing_deformation_raw (u v dx dy : quantity F) : result pyval :=
  '(_, dudy, dvdx, _) <- _get_gradients u v dx dy ;;
  r <- q_add dvdx dudy ;;
  Ok (VQ r).

Definition stretching_deformation_raw (u v dx dy : quantity F) : result pyval :=
  '(dudx, _, _, dvdy) <- _get_gradients u v dx dy ;;
  r <- q_sub dudx dvdy ;;
  Ok (VQ r).

Definition shearing_stretching_deformation_raw (u v dx dy : quantity F) : result pyval :=
  '(dudx, dudy, dvdx, dvdy) <- _get_gradients u v dx dy ;;
  sh <- q_add dvdx dudy ;;
  st <- q_sub dudx dvdy ;;
  Ok (VSeq [VQ sh; VQ st]).

(** [np.sqrt] of a Quantity: square root of the magnitudes, exponents halved. *)
Definition q_sqrt `{Transcendental F} (a : quantity F) : quantity F :=
  mk_q (nd_map fsqrt (magnitude a)) (dim_pow (units a) (1 # 2)).

Definition total_deformation_raw `{Transcendental F} (u v dx dy : quantity F)
  : result pyval :=
  '(dudx, dudy, dvdx, dvdy) <- _get_gradients u v dx dy ;;
  sh <- q_add dvdx dudy ;;
  st <- q_sub dudx dvdy ;;
  s <- q_add (q_square sh) (q_square st) ;;
  Ok (VQ (q_sqrt s)).

(** *** advection *)

Definition shape_eqb (s1 s2 : list nat) : bool :=
  (length s1 =? length s2) && forallb (fun p => fst p =? snd p) (combine s1 s2).

(** Modelled from the spec: [units.concatenate] is not part of the sources.
    The arrays are joined under a new leading axis, in the unit of the first;
    an array of another dimension cannot be converted to it. *)
Definition stack_quantities (qs : list (quantity F)) : result (quantity F) :=
  match qs with
  | [] => Err EmptySequence
  | q0 :: rest =>
      if negb (forallb (fun q => dim_eqb (units q) (units q0)) rest)
      then Err DimensionalityError
      else if negb (forallb (fun q => shape_eqb (shape (magnitude q)) (shape (magnitude q0))) rest)
      then Err BroadcastError
      else Ok (mk_q (mk_nd (length qs :: shape (magnitude q0))
                           (fun idx => get (magnitude (nth (hd 0 idx) qs q0)) (tl idx)))
                    (units q0))
  end.

Definition _stack (arrs : pyval) : result (quantity F) :=
  qs <- iterate arrs ;;
  stack_quantities qs.

(** Modelled from the spec: [units.atleast_2d] is not part of the sources;
    it is numpy's [atleast_2d] on the magnitude, the unit kept. *)
Definition q_atleast_2d (q : quantity F) : quantity F :=
  mk_q (nd_atleast_2d (magnitude q)) (units q).

Definition advection_raw (scalar : quantity F) (wind deltas : pyval) : result pyval :=
  wind <- _stack wind ;;
  let wind := if q_ndim scalar <? q_ndim wind
              then mk_q (reverse_axis0 (magnitude wind)) (units wind)
              else wind in
  ds <- iterate deltas ;;
  g <- _gradient scalar (rev ds) ;;
  grad <- _stack (pyval_of_grad g) ;;
  let grad := q_atleast_2d grad in
  let wind := q_atleast_2d wind in
  prod <- q_mul (q_neg grad) wind ;;
  s <- sum_axis0 (magnitude prod) ;;
  Ok (VQ (mk_q s (units prod))).

(** *** geostrophic wind *)

(** [grad[-2:]] unpacked into two names. *)
Definition last_two (g : grad_out F) : result (quantity F * quantity F) :=
  match g with
  | Many gs =>
      match skipn (length gs - 2) gs with
      | [a; b] => Ok (a, b)
      | _ => Err UnpackError
      end
  | One q =>
      match shape (magnitude q) with
      | [n] =>
          if 2 <=? n
          then Ok (mk_q (subarray (magnitude q) (n - 2)) (units q),
                   mk_q (subarray (magnitude q) (n - 1)) (units q))
          else Err UnpackError
      | _ => Err UnpackError
      end
  end.

Section Geostrophic.

(** The constant [g] (standard gravity) of the [constants] module, which is
    not part of the sources. *)
Variable g : quantity F.

Definition geostrophic_wind_raw (heights f dx dy : quantity F) : result pyval :=
  norm_factor <- (if Qeq_bool (d_length (units heights)) 2
                  then Ok (q_recip f)
                  else q_div g f) ;;
  let deltas := [dy; dx] in
  let deltas := if 2 <? q_ndim heights
                then repeat one_meter (q_ndim heights - 2) ++ deltas
                else deltas in
  grad <- _gradient heights deltas ;;
  '(ddy, ddx) <- last_two grad ;;
  ug <- q_mul (q_neg norm_factor) ddy ;;
  vg <- q_mul norm_factor ddx ;;
  Ok (VSeq [VQ ug; VQ vg]).

End Geostrophic.

(** *** the exported, wrapped functions *)

Definition call4 (names : list string)
    (body : quantity F -> quantity F -> quantity F -> quantity F -> result pyval) : pyfun :=
  fun args kwargs =>
    bound <- bind_params names args kwargs ;;
    match bound with
    | [a; b; c; d] =>
        qa <- as_quantity a ;; qb <- as_quantity b ;;
        qc <- as_quantity c ;; qd <- as_quantity d ;;
        body qa qb qc qd
    | _ => Err BadCall
    end.

Definition call_advection : pyfun :=
  fun args kwargs =>
    bound <- bind_params ["scalar"; "wind"; "deltas"]%string args kwargs ;;
    match bound with
    | [s; w; d] => qs <- as_quantity s ;; advection_raw qs w d
    | _ => Err BadCall
    end.

Definition uvxy : list string := ["u"; "v"; "dx"; "dy"]%string.

Definition v_vorticity := ensure_yx_order (call4 uvxy v_vorticity_raw).
Definition h_convergence := ensure_yx_order (call4 uvxy h_convergence_raw).
Definition convergence_vorticity := ensure_yx_order (call4 uvxy convergence_vorticity_raw).
Definition shearing_deformation := ensure_yx_order (call4 uvxy shearing_deformation_raw).
Definition stretching_deformation := ensure_yx_order (call4 uvxy stretching_deformation_raw).
Definition shearing_stretching_deformation :=
  ensure_yx_order (call4 uvxy shearing_stretching_deformation_raw).
Definition total_deformation `{Transcendental F} :=
  ensure_yx_order (call4 uvxy total_deformation_raw).
Definition advection := ensure_yx_order call_advection.
Definition geostrophic_wind (g : quantity F) :=
  ensure_yx_order (call4 ["heights"; "f"; "dx"; "dy"]%string (geostrophic_wind_raw g)).

End Values.

Arguments pyval F : clear implicits.
Arguments dict F : clear implicits.
Arguments pyfun F : clear implicits.
Arguments outcome F : clear implicits.

(** ** Storm-relative helicity *)

Section Helicity.

Context {F : Type} `{Arith F} `{Transcendental F}.

(** *** 1-D numpy helpers, on lists *)

Definition fsum (l : list F) : F := fold_left fadd l (fofZ 0).

(** [np.where(cond)[0]]: the indices at which the mask holds. *)
Definition np_where (mask : list bool) : list nat :=
  map fst (filter snd (combine (seq 0 (length mask)) mask)).

Definition np_min (l : list nat) : result nat :=
  match l with
  | [] => Err EmptyReduction
  | a :: l' => Ok (fold_left Nat.min l' a)
  end.

Definition np_max (l : list nat) : result nat :=
  match l with
  | [] => Err EmptyReduction
  | a :: l' => Ok (fold_left Nat.max l' a)
  end.

(** [a[i:j]] *)
Definition slice {A} (i j : nat) (l : list A) : list A := firstn (j - i) (skipn i l).

(** Elementwise operation on two 1-D arrays, with numpy's broadcasting. *)
Definition zip_with (op : F -> F -> F) (a b : list F) : result (list F) :=
  if length a =? length b then Ok (map (fun p => op (fst p) (snd p)) (combine a b))
  else match a, b with
       | [x], _ => Ok (map (op x) b)
       | _, [y] => Ok (map (fun x => op x y) a)
       | _, _ => Err BroadcastError
       end.

(** [np.interp(x, xp, fp)], from numpy's documentation: piecewise linear
    through the samples, [fp[0]] to the left of the first sample and
    [fp[-1]] to the right of the last one.  [xp] is taken to be increasing,
    which numpy does not check; as numpy does, the right end is tested
    before the left one, so that on samples that are not increasing a
    point beyond the last sample receives [fp[-1]] even when it also lies
    to the left of the first. *)
Fixpoint interp_scan (x : F) (xp fp : list F) : F :=
  match xp, fp with
  | x0 :: ((x1 :: _) as xp'), f0 :: ((f1 :: _) as fp') =>
      if fltb x x1
      then if feqb x x0 then f0
           else fadd (fmul (fdiv (fsub f1 f0) (fsub x1 x0)) (fsub x x0)) f0
      else interp_scan x xp' fp'
  | _, f0 :: _ => f0
  | _, [] => fofZ 0
  end.

Definition np_interp (x : F) (xp fp : list F) : result F :=
  match xp, fp with
  | [], _ => Err InterpError
  | x0 :: _, f0 :: _ =>
      if negb (length xp =? length fp) then Err InterpError
      else if fltb (last xp x0) x then Ok (last fp f0)
      else if fltb x x0 then Ok f0
      else Ok (interp_scan x xp fp)
  | _ :: _, [] => Err InterpError
  end.

(** [np.arange(start, stop, step)] *)
Definition np_arange (start stop step : F) : list F :=
  map (fun i => fadd start (fmul (fofZ (Z.of_nat i)) step))
      (seq 0 (Z.to_nat (fceil (fdiv (fsub stop start) step)))).

(** Modelled from the spec: [log_interp] is not part of the sources.  It is
    linear interpolation of [fp] against the logarithm of [xp], evaluated at
    the logarithm of [x], between the first two neighbouring samples that
    enclose it.  What a point outside the sampled range receives is left to
    the parameter [fill_value]. *)
Section LogInterp.

Variable fill_value : F.

Fixpoint interp_enclosed (lx : F) (lxp fp : list F) : F :=
  match lxp, fp with
  | x0 :: ((x1 :: _) as lxp'), f0 :: ((f1 :: _) as fp') =>
      if (fleb x0 lx && fleb lx x1) || (fleb x1 lx && fleb lx x0)
      then fadd f0 (fmul (fdiv (fsub lx x0) (fsub x1 x0)) (fsub f1 f0))
      else interp_enclosed lx lxp' fp'
  | _, _ => fill_value
  end.

Definition log_interp (x : F) (xp fp : list F) : F :=
  interp_enclosed (fln x) (map fln xp) fp.

(** *** the integration of the signed hodograph area
    (the last ten lines of the function) *)

(** [sru[1:] * srv[:-1] - sru[:-1] * srv[1:]] *)
Definition int_layers (sru srv : list F) : result (list F) :=
  a <- zip_with fmul (tl sru) (removelast srv) ;;
  b <- zip_with fmul (removelast sru) (tl srv) ;;
  zip_with fsub a b.

Definition dim_helicity : dimension := mk_dim 2 (-2) 0 0 0.

Definition helicity_of_layers (layers : list F) : pyval F :=
  let p_srh := fsum (filter (fun x => fltb (fofZ 0) x) layers) in
  let n_srh := fsum (filter (fun x => fltb x (fofZ 0)) layers) in
  let t_srh := fadd p_srh n_srh in
  VSeq [VQ (mk_q (scalar p_srh) dim_helicity);
        VQ (mk_q (scalar n_srh) dim_helicity);
        VQ (mk_q (scalar t_srh) dim_helicity)].

Definition integrate_helicity (u_int v_int : list F) (storm_u storm_v : F)
  : result (pyval F) :=
  let sru := map (fun x => fsub x storm_u) u_int in
  let srv := map (fun x => fsub x storm_v) v_int in
  layers <- int_layers sru srv ;;
  Ok (helicity_of_layers layers).

(** *** the sub-profile of the requested layer *)

(** Lines 503-509: the pressures at the top and at the bottom of the layer. *)
Definition layer_pressures (p hgt : list F) (srh_top : F) (srh_bottom : option F)
  : result (F * F) :=
  h0 <- match hgt with [] => Err IndexError | h0 :: _ => Ok h0 end ;;
  let agl := map (fun h => fsub h h0) hgt in
  lp_top <- np_interp srh_top agl (map fln p) ;;
  let p_srh_top := fexp lp_top in
  p_srh_bottom <-
    match srh_bottom with
    | Some b => lp <- np_interp b agl (map fln p) ;; Ok (fexp lp)
    | None => match p with [] => Err IndexError | p0 :: _ => Ok p0 end
    end ;;
  Ok (p_srh_bottom, p_srh_top).

(** Lines 511-524: the winds of the layer, in exact or in uniform mode. *)
Definition layer_winds (u v p : list F) (p_srh_bottom p_srh_top dp : F) (exact : bool)
  : result (list F * list F) :=
  if exact then
    ind1 <- np_min (np_where (map (fun pk => fleb pk p_srh_bottom) p)) ;;
    ind2 <- np_max (np_where (map (fun pk => fleb p_srh_top pk) p)) ;;
    let u1 := log_interp p_srh_bottom p u in
    let v1 := log_interp p_srh_bottom p v in
    let u2 := log_interp p_srh_top p u in
    let v2 := log_interp p_srh_top p v in
    Ok ([u1] ++ slice ind1 (ind2 + 1) u ++ [u2],
        [v1] ++ slice ind1 (ind2 + 1) v ++ [v2])
  else
    let interp_levels := np_arange p_srh_bottom (fadd p_srh_top dp) dp in
    Ok (map (fun x => log_interp x p u) interp_levels,
        map (fun x => log_interp x p v) interp_levels).

Definition layer_profile (u v p hgt : list F) (srh_top : F) (srh_bottom : option F)
    (dp : F) (exact : bool) : result (list F * list F) :=
  '(p_srh_bottom, p_srh_top) <- layer_pressures p hgt srh_top srh_bottom ;;
  layer_winds u v p p_srh_bottom p_srh_top dp exact.

(** *** the decorated function *)

(** Modelled from the spec: the decorator [check_units] is not part of the
    sources.  Every argument that was passed must be a Quantity of the
    dimension required at its position; the check is made before the
    function body runs. *)
Fixpoint check_units (dims : list dimension) (args : list (option (pyval F)))
  : result unit :=
  match dims, args with
  | d :: dims', Some (VQ q) :: args' =>
      if dim_eqb (units q) d then check_units dims' args' else Err UnitMismatchError
  | _ :: _, Some _ :: _ => Err UnitMismatchError
  | _ :: dims', None :: args' => check_units dims' args'
  | _, _ => Ok tt
  end.

Definition srh_dims : list dimension :=
  [dim_speed; dim_speed; dim_pressure; dim_meter; dim_meter; dim_meter;
   dim_speed; dim_speed].

Definition as_profile (v : pyval F) : result (list F) :=
  q <- as_quantity v ;; Ok (to_list1 (magnitude q)).

Definition as_number (v : pyval F) : result F :=
  match v with
  | VQ q => Ok (item (magnitude q))
  | VNum x => Ok x
  | _ => Err AttributeError
  end.

Definition with_default {A} (o : option (pyval F)) (default : A)
    (f : pyval F -> result A) : result A :=
  match o with
  | None => Ok default
  | Some v => f v
  end.

Definition as_bool (v : pyval F) : result bool :=
  match v with
  | VBool b => Ok b
  | _ => Err AttributeError
  end.

(** The five leading parameters are required; an optional parameter that
    was not passed is [None] here and takes the default of the signature:
    [srh_bottom=0], [storm_u = storm_v = 0 m/s], [dp=-1], [exact=True]. *)
Definition storm_relative_helicity (u v p srh_top hgt : pyval F)
    (srh_bottom storm_u storm_v dp exact : option (pyval F)) : result (pyval F) :=
  _ <- check_units srh_dims
         [Some u; Some v; Some p; Some srh_top; Some hgt; srh_bottom; storm_u; storm_v] ;;
  u <- as_profile u ;;
  v <- as_profile v ;;
  storm_u <- with_default storm_u (fofZ 0) as_number ;;
  storm_v <- with_default storm_v (fofZ 0) as_number ;;
  p <- as_profile p ;;
  srh_top <- as_number srh_top ;;
  hgt <- as_profile hgt ;;
  srh_bottom <- with_default srh_bottom (fofZ 0) as_number ;;
  dp <- with_default dp (fofZ (-1)) as_number ;;
  exact <- with_default exact true as_bool ;;
  let bottom := if feqb srh_bottom (fofZ 0) then None else Some srh_bottom in
  '(u_int, v_int) <- layer_profile u v p hgt srh_top bottom dp exact ;;
  integrate_helicity u_int v_int storm_u storm_v.

End LogInterp.

End Helicity.

(** ** Two arithmetics: exact rationals and the reals *)

#[export] Instance Arith_Q : Arith Q := {
  fofZ := inject_Z;
  fadd := fun a b => Qred (Qplus a b);
  fsub := fun a b => Qred (Qminus a b);
  fmul := fun a b => Qred (Qmult a b);
  fdiv := fun a b => Qred (Qdiv a b);
  fopp := fun a => Qred (Qopp a);
  fltb := fun a b => negb (Qle_bool b a);
  fleb := Qle_bool;
  feqb := Qeq_bool
}.

Definition Rltb (a b : R) : bool := if Rlt_dec a b then true else false.
Definition Rleb (a b : R) : bool := if Rle_dec a b then true else false.
Definition Reqb (a b : R) : bool := if Req_dec_T a b then true else false.

#[export] Instance Arith_R : Arith R := {
  fofZ := IZR;
  fadd := Rplus;
  fsub := Rminus;
  fmul := Rmult;
  fdiv := Rdiv;
  fopp := Ropp;
  fltb := Rltb;
  fleb := Rleb;
  feqb := Reqb
}.

#[export] Instance Transcendental_R : Transcendental R := {
  fsqrt := sqrt;
  fln := ln;
  fexp := exp;
  fceil := fun x => (1 - up (- x))%Z
}.

Unset Implicit Arguments.

(** ** Vocabulary of the statements *)

Section Vocabulary.

Context {F : Type} `{Arith F}.

(** The two explicit orientations and the default at the call boundary. *)
Definition order_xy : dict F := [("dim_order", VStr "xy")]%string.
Definition order_yx : dict F := [("dim_order", VStr "yx")]%string.

(** A pair built from two separate calls, the first evaluated first. *)
Definition pair_results (c w : result (pyval F)) : result (pyval F) :=
  a <- c ;; b <- w ;; Ok (VSeq [a; b]).

(** What the wrapper sees besides [dim_order], and whether the call is
    x-first: [dim_order="xy"], or [dim_order] absent or [None]. *)
Definition other_keywords (kwargs : dict F) : dict F := dict_remove "dim_order" kwargs.

Definition uses_xy (kwargs : dict F) : bool :=
  match dict_find "dim_order" kwargs with
  | None => true
  | Some v => snd (_is_x_first_dim v)
  end.

(** A scalar sample distance, and a field with the two samples along every
    axis that a gradient needs. *)
Definition is_scalar (q : quantity F) : Prop := q_ndim q = 0.

Definition samples_everywhere (a : ndarray F) : Prop := Forall (fun n => 2 <= n) (shape a).

(** The derivative of [f] along axis [i] for the sample distance [d]. *)
Definition partial (f : quantity F) (i : nat) (d : quantity F) : quantity F :=
  mk_q (grad_axis (magnitude f) i (item (magnitude d)))
       (dim_div (units f) (units d)).

Definition partials (f : quantity F) (args : list (quantity F)) : list (quantity F) :=
  map (fun i => partial f i (nth i args one_dimensionless)) (seq 0 (q_ndim f)).

(** Padding as the specification words it: the distances that were not
    supplied stand for the leading axes, the supplied ones for the trailing
    axes. *)
Definition pad_leading (n : nat) (args : list (quantity F)) : list (quantity F) :=
  repeat one_dimensionless (n - length args) ++ args.

(** The distance used for axis [i] when [args] were supplied. *)
Definition distance_of_axis (args : list (quantity F)) (i : nat) : quantity F :=
  if i <? length args then nth i args one_dimensionless else one_dimensionless.

(** *** Orientation

    The inputs of the orientation statement: 2-D arrays, scalars, and
    sequences of these (the wind components, the grid deltas). *)
Definition grid_leaf (v : pyval F) : bool :=
  match v with
  | VQ q => (q_ndim q =? 2) || (q_ndim q =? 0)
  | _ => false
  end.

Definition grid_input (v : pyval F) : bool :=
  match v with
  | VSeq l => forallb grid_leaf l
  | _ => grid_leaf v
  end.

(** [transpose(A)] on the inputs: every 2-D array is transposed, the
    spacings stay as they are. *)
Definition transpose_leaf (v : pyval F) : pyval F :=
  match v with
  | VQ q => if q_ndim q =? 2 then VQ (q_transpose q) else v
  | _ => v
  end.

Definition transpose_input (v : pyval F) : pyval F :=
  match v with
  | VSeq l => VSeq (map transpose_leaf l)
  | _ => transpose_leaf v
  end.

(** [transpose(...)] on what a formula returned: every array is transposed,
    also inside a returned tuple. *)
Fixpoint transpose_result (v : pyval F) : pyval F :=
  match v with
  | VQ q => VQ (q_transpose q)
  | VSeq l => VSeq (map transpose_result l)
  | _ => v
  end.

(** A result made of arrays with at least two axes. *)
Definition rank2_field (v : pyval F) : Prop :=
  match v with
  | VQ q => 2 <= q_ndim q
  | _ => False
  end.

Definition rank2_result (r : pyval F) : Prop :=
  match r with
  | VQ q => 2 <= q_ndim q
  | VSeq l => Forall rank2_field l
  | _ => False
  end.

(** An argument as the wrapped function receives it: its arrays have two
    axes or none. *)
Definition rank_0_or_2 (v : pyval F) : Prop :=
  match v with
  | VQ q => q_ndim q = 2 \/ q_ndim q = 0
  | _ => True
  end.

(** *** Elementwise equality of what two calls return *)
Definition val_eq (a b : pyval F) : Prop :=
  match a, b with
  | VQ p, VQ q => q_eq p q
  | _, _ => a = b
  end.

Definition res_eq (r1 r2 : result (pyval F)) : Prop :=
  match r1, r2 with
  | Ok a, Ok b => val_eq a b
  | Err e1, Err e2 => e1 = e2
  | _, _ => False
  end.

(** [sqrt(shearing ** 2 + stretching ** 2)] of two returned fields. *)
Definition root_of_squares `{Transcendental F} (sh st : quantity F) : result (pyval F) :=
  s <- q_add (q_square sh) (q_square st) ;;
  Ok (VQ (q_sqrt s)).

Definition sqrt_sum_squares `{Transcendental F} (shearing stretching : result (pyval F))
  : result (pyval F) :=
  a <- shearing ;;
  b <- stretching ;;
  sh <- as_quantity a ;;
  st <- as_quantity b ;;
  root_of_squares sh st.

(** *** Geostrophic wind, in the words of the specification *)


(** [1/f] for a geopotential, [g/f] for a height. *)
Definition normalization (g heights f : quantity F) : result (quantity F) :=
  if dim_eqb (units heights) dim_geopotential then Ok (q_recip f) else q_div g f.

(** [(-normalization * dPhi/dy, normalization * dPhi/dx)], the partials
    taken along the last two axes. *)
Definition geostrophic_components (g heights f dx dy : quantity F) : result (pyval F) :=
  let n := q_ndim heights in
  norm <- normalization g heights f ;;
  ug <- q_mul (q_neg norm) (partial heights (n - 2) dy) ;;
  vg <- q_mul norm (partial heights (n - 1) dx) ;;
  Ok (VSeq [VQ ug; VQ vg]).

(** *** Helicity *)

(** The signed area element between levels [k] and [k + 1]. *)
Definition cross_term (su sv : list F) (k : nat) : F :=
  fsub (fmul (nth (S k) su (fofZ 0)) (nth k sv (fofZ 0)))
       (fmul (nth k su (fofZ 0)) (nth (S k) sv (fofZ 0))).

Definition cross_terms (su sv : list F) : list F :=
  map (cross_term su sv) (seq 0 (length su - 1)).

(** The returned triple, in m^2/s^2. *)
Definition helicity_triple (p_srh n_srh t_srh : F) : pyval F :=
  VSeq [VQ (mk_q (scalar p_srh) dim_helicity);
        VQ (mk_q (scalar n_srh) dim_helicity);
        VQ (mk_q (scalar t_srh) dim_helicity)].

(** A 1-D profile and a scalar, as Quantities. *)
Definition profile (l : list F) (d : dimension) : pyval F := VQ (mk_q (of_list1 l) d).
Definition number (x : F) (d : dimension) : pyval F := VQ (mk_q (scalar x) d).

(** *** Validation of dimensions *)




(** The nine formulas behind the orientation wrapper. *)
Definition kinematic_formulas `{Transcendental F} (g : quantity F)
  : list (list (pyval F) -> dict F -> outcome F) :=
  [v_vorticity; h_convergence; convergence_vorticity;
   shearing_deformation; stretching_deformation; shearing_stretching_deformation;
   total_deformation; advection; geostrophic_wind g].

End Vocabulary.

(** A returned field over the reals all of whose elements are non-negative. *)
Definition nonnegative_field (r : result (pyval R)) : Prop :=
  forall q, r = Ok (VQ q) -> forall idx, (0 <= get (magnitude q) idx)%R.

(** *** Helicity over the reals *)

(** A term counts towards the positive helicity when it is strictly
    positive, towards the negative helicity when it is strictly negative,
    and towards neither when it is zero. *)
Definition positive_part (x : R) : R := if Rlt_dec 0 x then x else 0%R.
Definition negative_part (x : R) : R := if Rlt_dec x 0 then x else 0%R.

Definition Rsum (l : list R) : R := fold_right Rplus 0%R l.

(** A call on a sounding given as lists, the storm motion and the pressure
    increment left to their defaults. *)
Definition srh_call (fill : R) (u v p hgt : list R) (srh_top : R)
    (srh_bottom : option R) (exact : bool) : result (pyval R) :=
  storm_relative_helicity fill
    (profile u dim_speed) (profile v dim_speed) (profile p dim_pressure)
    (number srh_top dim_meter) (profile hgt dim_meter)
    (option_map (fun b => number b dim_meter) srh_bottom)
    None None None (Some (VBool exact)).

(** The bottom that reaches the interpolation: a bottom of 0, passed or by
    default, selects the surface pressure directly. *)
Definition effective_bottom (srh_bottom : option R) : option R :=
  match srh_bottom with
  | Some b => if Reqb b 0 then None else Some b
  | None => None
  end.

(** A bound outside the heights above ground covered by the profile:
    below the first level, or above every level. *)
Definition below_profile (x : R) : Prop := (x < 0)%R.

Definition above_profile (hgt : list R) (x : R) : Prop :=
  Forall (fun h => (h - hd 0%R hgt < x)%R) hgt.


(** The pressure a bound outside the profile is clamped to: the
    interpolation hands back the logarithm of the pressure of the last level
    for a bound above the profile and that of the first level for a bound
    below it, and the pressure is the exponential of that logarithm,
    [np.exp(np.log(p))]. *)
Definition clamped_to (p hgt : list R) (x pressure : R) : Prop :=
  (above_profile hgt x -> pressure = fexp (fln (last p 0%R)))
  /\ (below_profile x -> pressure = fexp (fln (hd 0%R p))).

(** A sounding: as many heights as pressures, at least one level, heights
    that do not decrease with the level. *)
Definition sounding (p hgt : list R) : Prop :=
  length hgt = length p /\ p <> [] /\ StronglySorted Rle hgt.

(** The levels of the uniform mode for the default increment of -1:
    [np.arange(p_bottom, p_top - 1, -1)]. *)
Definition uniform_levels (p_bottom p_top : R) : list R :=
  np_arange p_bottom (p_top + -1)%R (-1)%R.

(** A wind component interpolated to the levels. *)
Definition winds_at (fill : R) (w p levels : list R) : list R :=
  map (fun x => log_interp fill x p w) levels.

(** The helicity of a storm-relative profile: the sums of the strictly
    positive and of the strictly negative cross terms, and their sum. *)
Definition helicity_of_profile (su sv : list R) : pyval R :=
  let cross := cross_terms su sv in
  helicity_triple (Rsum (map positive_part cross))
                  (Rsum (map negative_part cross))
                  (Rsum (map positive_part cross) + Rsum (map negative_part cross))%R.

(** The helicity of the layer between two pressures, in uniform mode, for
    the default storm motion of zero. *)
Definition layer_helicity (fill : R) (u v p : list R) (p_bottom p_top : R) : pyval R :=
  let levels := uniform_levels p_bottom p_top in
  helicity_of_profile (map (fun x => (x - 0)%R) (winds_at fill u p levels))
                      (map (fun x => (x - 0)%R) (winds_at fill v p levels)).

(** A call on a sounding given as lists, with every optional argument
    passed. *)
Definition srh_full_call (fill : R) (u v p hgt : list R) (srh_top : R)
    (srh_bottom : option R) (storm_u storm_v dp : R) (exact : bool)
  : result (pyval R) :=
  storm_relative_helicity fill
    (profile u dim_speed) (profile v dim_speed) (profile p dim_pressure)
    (number srh_top dim_meter) (profile hgt dim_meter)
    (option_map (fun b => number b dim_meter) srh_bottom)
    (Some (number storm_u dim_speed)) (Some (number storm_v dim_speed))
    (Some (VNum dp)) (Some (VBool exact)).

(** ** Sample data (exact rationals) *)

Definition qscalar (x : Q) (d : dimension) : pyval Q := VQ (mk_q (scalar x) d).

Definition qdist (x : Q) (d : dimension) : quantity Q := mk_q (scalar x) d.

Definition qfield (rows : list (list Z)) (d : dimension) : quantity Q :=
  mk_q (of_list2 (map (map inject_Z) rows)) d.

Definition qgrid (rows : list (list Z)) (d : dimension) : pyval Q := VQ (qfield rows d).

Definition dim_kelvin_per_meter : dimension := mk_dim (-1) 0 0 0 1.

(** A 2 x 2 temperature field and a single distance of 2 m. *)
Definition small_field : quantity Q := qfield [[0; 1]; [4; 5]]%Z dim_kelvin.
Definition two_meters : quantity Q := qdist 2 dim_meter.

Definition ramp : list (list Z) := [[0; 0; 0]; [1; 1; 1]; [2; 2; 2]]%Z.
Definition ones : list (list Q) := [[1; 1; 1]; [1; 1; 1]; [1; 1; 1]]%Q.

(** The ramp as both wind components, on a 1 m grid. *)
Definition ramp_args : list (pyval Q) :=
  [qgrid ramp dim_speed; qgrid ramp dim_speed;
   qscalar 1 dim_meter; qscalar 1 dim_meter].

(** A returned field, read back as rows with its shape and unit. *)
Definition field_is (r : result (pyval Q)) (s : list nat) (rows : list (list Q))
    (d : dimension) : Prop :=
  exists q, r = Ok (VQ q)
            /\ shape (magnitude q) = s
            /\ to_list2 (magnitude q) = rows
            /\ units q = d.

(** The same data over the reals. *)
Definition rgrid (rows : list (list Z)) (d : dimension) : pyval R :=
  VQ (mk_q (of_list2 (map (map IZR) rows)) d).

Definition rscalar (x : R) (d : dimension) : pyval R := VQ (mk_q (scalar x) d).

Definition ramp_args_R : list (pyval R) :=
  [rgrid ramp dim_speed; rgrid ramp dim_speed;
   rscalar 1%R dim_meter; rscalar 1%R dim_meter].

Definition gravity : quantity Q := qdist (980665 # 100000) dim_acceleration.
Definition coriolis : quantity Q := qdist (980665 # 100000) dim_per_second.
Definition hundred_meters : quantity Q := qdist 100 dim_meter.

(** A two-level sounding: winds in m/s, pressures in hPa, heights in m. *)
Definition sample_u : list R := [1; 2]%R.
Definition sample_v : list R := [3; 1]%R.
Definition sample_p : list R := [1000; 900]%R.
Definition sample_hgt : list R := [0; 1000]%R.


(** A call that names its arguments, [dx] first. *)
Definition keyword_call : dict Q :=
  [("dx", qscalar 1 dim_meter); ("u", qgrid ramp dim_speed);
   ("v", qgrid ramp dim_speed); ("dy", qscalar 1 dim_meter);
   ("dim_order", VStr "xy")]%string.

(** A call that names only [u]. *)
Definition keyword_u_call : dict Q :=
  [("u", qgrid ramp dim_speed); ("dim_order", VStr "xy")]%string.

(** ** Further vocabulary: the formulas on a grid *)

Section GridVocabulary.

Context {F : Type} `{Arith F}.

(** A wind on a 2-D grid: two components with two axes and at least two
    samples along each, and scalar spacings. *)
Definition grid_wind (u v dx dy : quantity F) : Prop :=
  q_ndim u = 2 /\ q_ndim v = 2
  /\ samples_everywhere (magnitude u) /\ samples_everywhere (magnitude v)
  /\ is_scalar dx /\ is_scalar dy.

Definition uv_args (u v dx dy : quantity F) : list (pyval F) :=
  [VQ u; VQ v; VQ dx; VQ dy].

(** A Quantity, or an exception, as the value a call returns. *)
Definition field_of (r : result (quantity F)) : result (pyval F) := fmap VQ r.

(** The call returns a field of shape [s] and unit [d] whose element at
    every index within the shape is [value]. *)
Definition returns_field (r : result (pyval F)) (s : list nat) (d : dimension)
    (value : list nat -> F) : Prop :=
  exists q, r = Ok (VQ q)
            /\ shape (magnitude q) = s
            /\ units q = d
            /\ forall idx, in_bounds s idx -> get (magnitude q) idx = value idx.

(** The element of the derivative of [f] along axis [k]. *)
Definition d_axis (f : quantity F) (k : nat) (d : quantity F) (idx : list nat) : F :=
  get (magnitude (partial f k d)) idx.

(** A field with one value at every index within its shape. *)
Definition uniform_field (f : quantity F) (c : F) : Prop :=
  forall idx, in_bounds (shape (magnitude f)) idx -> get (magnitude f) idx = c.

(** The six formulas of the wind components that need no square root. *)
Definition wind_formulas : list (list (pyval F) -> dict F -> outcome F) :=
  [v_vorticity; h_convergence; convergence_vorticity;
   shearing_deformation; stretching_deformation; shearing_stretching_deformation].

Definition wind_formulas_raw
  : list (quantity F -> quantity F -> quantity F -> quantity F -> result (pyval F)) :=
  [v_vorticity_raw; h_convergence_raw; convergence_vorticity_raw;
   shearing_deformation_raw; stretching_deformation_raw;
   shearing_stretching_deformation_raw].

(** Elementwise equality of values, also inside sequences. *)
#[warnings="-register-all"]
Inductive val_equiv : pyval F -> pyval F -> Prop :=
| equiv_quantity (p q : quantity F) : q_eq p q -> val_equiv (VQ p) (VQ q)
| equiv_sequence (l l' : list (pyval F)) :
    Forall2 val_equiv l l' -> val_equiv (VSeq l) (VSeq l')
| equiv_same (v : pyval F) : val_equiv v v.

End GridVocabulary.

(** ** Further sample data *)

(** [np.ones((m, n)) * c] over the reals. *)
Definition uniform_R (m n : nat) (c : R) (d : dimension) : quantity R :=
  mk_q (mk_nd [m; n] (fun _ => c)) d.

Definition rdist (x : R) (d : dimension) : quantity R := mk_q (scalar x) d.

Definition rfield (rows : list (list Z)) (d : dimension) : quantity R :=
  mk_q (of_list2 (map (map IZR) rows)) d.

(** The arguments of [advection] on a 2-D grid. *)
Definition advection_args {F : Type} `{Arith F} (s u v dx dy : quantity F)
  : list (pyval F) :=
  [VQ s; VSeq [VQ u; VQ v]; VSeq [VQ dx; VQ dy]].

(** A scalar field and a wind on one 2-D grid. *)
Definition scalar_on_grid {F : Type} `{Arith F} (s u v dx dy : quantity F) (m n : nat)
  : Prop :=
  shape (magnitude s) = [m; n] /\ shape (magnitude u) = [m; n]
  /\ shape (magnitude v) = [m; n] /\ 2 <= m /\ 2 <= n
  /\ is_scalar dx /\ is_scalar dy
  /\ units u = units v /\ units dx = units dy.

(** ** Further vocabulary: helicity *)

(** The heights referred to another datum. *)
Definition raise_heights (c : R) (hgt : list R) : list R := map (fun h => (h + c)%R) hgt.

(** ** Further vocabulary: geostrophic wind *)

(** The geopotential [g0 * z] of a height field, in m^2/s^2. *)
Definition geopotential_of (g0 : R) (z : quantity R) : quantity R :=
  mk_q (nd_map (fun x => (g0 * x)%R) (magnitude z)) dim_geopotential.

(** Two calls return elementwise equal values, or raise the same exception. *)
Definition res_equiv {F : Type} `{Arith F} (r1 r2 : result (pyval F)) : Prop :=
  match r1, r2 with
  | Ok a, Ok b => val_equiv a b
  | Err e1, Err e2 => e1 = e2
  | _, _ => False
  end.

(** A height field in m over the reals, a Coriolis parameter and a spacing. *)
Definition height_field_R : quantity R :=
  rfield [[4800; 4900; 4800]; [4900; 5000; 4900]; [4800; 4900; 4800]]%Z dim_meter.
Definition coriolis_R : quantity R := rdist 1 dim_per_second.
Definition hundred_meters_R : quantity R := rdist 100 dim_meter.

(** [q[k]]: one level of a field whose leading axis counts the levels. *)
Definition level {F : Type} `{Arith F} (q : quantity F) (k : nat) : quantity F :=
  mk_q (subarray (magnitude q) k) (units q).

(** A height field in m on two levels of a 2 x 2 grid, and one on a single
    level. *)
Definition two_levels : quantity Q :=
  mk_q (of_list3 [[[4800; 4900]; [4900; 5000]]; [[5400; 5500]; [5500; 5700]]]%Q) dim_meter.
Definition one_level : quantity Q :=
  mk_q (of_list3 [[[4800; 4900]; [4900; 5000]]]%Q) dim_meter.

(** ** The gradient, axis by axis *)

Lemma mapM_ok {A B} (f : A -> result B) (g : A -> B) (l : list A) :
  (forall a, In a l -> f a = Ok (g a)) -> mapM f l = Ok (map g l).
Proof.
  induction l as [|a l IH]; intros E; simpl; trivial.
  rewrite E by (left; trivial). simpl.
  rewrite IH by (intros; apply E; right; trivial). reflexivity.
Qed.

Lemma combine_seq_nth {A} (d : A) (l : list A) (s : nat) :
  combine (seq s (length l)) l = map (fun i => (i, nth (i - s) l d)) (seq s (length l)).
Proof.
  revert s. induction l as [|a l IH]; intros s; simpl; trivial.
  rewrite Nat.sub_diag. f_equal. rewrite IH.
  apply map_ext_in. intros i I. apply in_seq in I.
  replace (i - s) with (S (i - S s)) by lia. reflexivity.
Qed.

Lemma combine_nth_seq {A B} (d : A) (l : list A) (g : nat -> B) (n : nat) :
  length l = n ->
  combine l (map g (seq 0 n)) = map (fun i => (nth i l d, g i)) (seq 0 n).
Proof.
  intros <-.
  assert (forall s, combine l (map g (seq s (length l)))
                    = map (fun i => (nth (i - s) l d, g i)) (seq s (length l))) as G.
  { induction l as [|a l IH]; intros s; simpl; trivial.
    rewrite Nat.sub_diag. f_equal. rewrite IH.
    apply map_ext_in. intros i I. apply in_seq in I.
    replace (i - s) with (S (i - S s)) by lia. reflexivity. }
  rewrite G. apply map_ext. intros i. now rewrite Nat.sub_0_r.
Qed.

Lemma nth_app_repeat {A} (d : A) (l : list A) (n i : nat) :
  nth i (l ++ repeat d n) d = nth i l d.
Proof.
  destruct (Nat.lt_ge_cases i (length l)) as [L|L].
  - now rewrite app_nth1.
  - rewrite app_nth2 by trivial. rewrite (nth_overflow l) by trivial.
    apply nth_repeat.
Qed.

Section GradientFacts.

Context {F : Type} `{Arith F}.

Lemma np_gradient_axes (f : ndarray F) (hs : list (ndarray F)) :
  length hs = ndim f ->
  Forall (fun h => ndim h = 0) hs ->
  samples_everywhere f ->
  np_gradient f hs
  = Ok (map (fun i => grad_axis f i (item (nth i hs (scalar (fofZ 1)))))
            (seq 0 (ndim f))).
Proof.
  intros L S E. unfold np_gradient.
  assert (match hs with
          | [] => Ok (repeat (fofZ 1) (ndim f))
          | [h] => if ndim h =? 0 then Ok (repeat (item h) (ndim f))
                   else if ndim f =? 1 then Err NotModelled else Err GradientArguments
          | _ :: _ :: _ => if length hs =? ndim f then mapM spacing_value hs
                           else Err GradientArguments
          end = Ok (map (@item F) hs)) as ->.
  { destruct hs as [|h [|h' hs]].
    - now rewrite <- L.
    - inversion S as [|? ? S0 _]; subst. rewrite S0, <- L. reflexivity.
    - rewrite L, Nat.eqb_refl. apply mapM_ok.
      intros a I. unfold spacing_value.
      rewrite Forall_forall in S. now rewrite (S a I). }
  simpl. rewrite <- L.
  replace (length hs) with (length (map (@item F) hs)) by apply length_map.
  rewrite (combine_seq_nth (fofZ 1)). rewrite length_map.
  rewrite (mapM_ok _ (fun kh => grad_axis f (fst kh) (snd kh))).
  - rewrite map_map. f_equal. apply map_ext_in. intros i I. simpl.
    rewrite Nat.sub_0_r. f_equal.
    change (fofZ 1) with (item (scalar (fofZ 1))). apply map_nth.
  - intros [k h] I. apply in_map_iff in I. destruct I as [i [E' I]].
    injection E' as <- <-. apply in_seq in I.
    unfold grad_one_axis. simpl.
    assert (2 <= nth i (shape f) 0) as G.
    { unfold samples_everywhere in E. rewrite Forall_forall in E.
      apply E, nth_In. fold (ndim f). lia. }
    apply Nat.ltb_ge in G. now rewrite G.
Qed.

Lemma pad_args_length (n : nat) (args : list (quantity F)) :
  length args <= n -> length (pad_args n args) = n.
Proof.
  intros L. unfold pad_args. destruct (length args <? n) eqn:E.
  - rewrite length_app, repeat_length. lia.
  - apply Nat.ltb_ge in E. lia.
Qed.

Lemma pad_args_nth (n i : nat) (args : list (quantity F)) :
  nth i (pad_args n args) one_dimensionless = nth i args one_dimensionless.
Proof.
  unfold pad_args. destruct (length args <? n); trivial. apply nth_app_repeat.
Qed.

Lemma pad_args_scalars (n : nat) (args : list (quantity F)) :
  Forall is_scalar args -> Forall is_scalar (pad_args n args).
Proof.
  intros S. unfold pad_args. destruct (length args <? n); trivial.
  apply Forall_app. split; trivial.
  apply Forall_forall. intros q I. apply repeat_spec in I. now subst q.
Qed.

(** What [_gradient] returns for scalar sample distances on a field with at
    least two samples along every axis: axis [i] is differentiated with the
    [i]-th distance supplied, and with the dimensionless distance 1 when
    fewer than [i + 1] were supplied. *)
Lemma _gradient_partials (f : quantity F) (args : list (quantity F)) :
  length args <= q_ndim f ->
  Forall is_scalar args ->
  samples_everywhere (magnitude f) ->
  _gradient f args
  = Ok (if q_ndim f =? 1
        then One (partial f 0 (nth 0 args one_dimensionless))
        else Many (partials f args)).
Proof.
  intros L S E. unfold _gradient.
  pose proof (pad_args_length _ args L) as PL.
  pose proof (pad_args_scalars (q_ndim f) args S) as PS.
  rewrite np_gradient_axes; trivial.
  2: now rewrite length_map.
  2: { apply Forall_map. revert PS. apply Forall_impl. now intros q. }
  simpl. fold (q_ndim f).
  assert (forall i, item (nth i (map (@magnitude F) (pad_args (q_ndim f) args))
                          (scalar (fofZ 1)))
                    = item (magnitude (nth i args one_dimensionless))) as N.
  { intros i. change (scalar (fofZ 1)) with (magnitude (@one_dimensionless F _)).
    now rewrite map_nth, pad_args_nth. }
  destruct (q_ndim f =? 1) eqn:D.
  - apply Nat.eqb_eq in D. rewrite D in *. simpl.
    pose proof (pad_args_nth 1 0 args) as Q.
    destruct (pad_args 1 args) as [|a0 rest]; [discriminate|].
    simpl in Q. rewrite <- Q. reflexivity.
  - f_equal. f_equal. unfold partials.
    rewrite (combine_nth_seq one_dimensionless _ _ _ PL).
    rewrite map_map. apply map_ext. intros i. simpl.
    unfold partial. now rewrite N, pad_args_nth.
Qed.

End GradientFacts.

(** ** Profiles as lists, and the layers between their levels *)

Lemma bind_ok {A B} (c : result A) (k : A -> result B) (b : B) :
  bind c k = Ok b -> exists a, c = Ok a /\ k a = Ok b.
Proof.
  destruct c as [a|e]; simpl; [|discriminate]. intros E. now exists a.
Qed.

Lemma map_nth_seq {A} (d : A) (l : list A) :
  map (fun i => nth i l d) (seq 0 (length l)) = l.
Proof.
  induction l as [|a l IH]; simpl; trivial.
  f_equal. rewrite <- seq_shift, map_map. exact IH.
Qed.

Lemma nth_tl {A} (d : A) (l : list A) (k : nat) : nth k (tl l) d = nth (S k) l d.
Proof. destruct l; trivial. now destruct k. Qed.

Lemma nth_removelast {A} (d : A) (l : list A) (k : nat) :
  k < length l - 1 -> nth k (removelast l) d = nth k l d.
Proof.
  intros L. rewrite removelast_firstn_len, nth_firstn.
  assert ((k <? Nat.pred (length l)) = true) as ->; trivial.
  apply Nat.ltb_lt. lia.
Qed.

Lemma length_removelast_pred {A} (l : list A) : length (removelast l) = length l - 1.
Proof.
  rewrite removelast_firstn_len, length_firstn. lia.
Qed.

Lemma last_map {A B} (f : A -> B) (l : list A) (d : A) :
  last (map f l) (f d) = f (last l d).
Proof.
  induction l as [|a [|b l] IH]; trivial.
Qed.

Lemma last_in {A} (l : list A) (d : A) : l <> [] -> In (last l d) l.
Proof.
  induction l as [|a [|b l] IH]; intros N; [congruence | now left |].
  right. apply IH. discriminate.
Qed.

Section Layers.

Context {F : Type} `{Arith F}.

Lemma to_list1_of_list1 (l : list F) : to_list1 (of_list1 l) = l.
Proof. unfold to_list1, of_list1. simpl. apply map_nth_seq. Qed.

Lemma zip_with_nth (op : F -> F -> F) (a b : list F) (d : F) :
  length a = length b ->
  zip_with op a b = Ok (map (fun k => op (nth k a d) (nth k b d)) (seq 0 (length a))).
Proof.
  intros L. unfold zip_with. rewrite L, Nat.eqb_refl. f_equal.
  rewrite <- L. clear H. revert b L.
  induction a as [|x a IH]; intros [|y b] L; simpl in *; try discriminate; trivial.
  f_equal. rewrite <- seq_shift, map_map. apply IH. now injection L.
Qed.

(** For profiles of one length the layers are the cross terms of the
    neighbouring levels. *)
Lemma int_layers_cross (su sv : list F) :
  length su = length sv -> int_layers su sv = Ok (cross_terms su sv).
Proof.
  intros L. unfold int_layers.
  rewrite (zip_with_nth fmul (tl su) (removelast sv) (fofZ 0))
    by now rewrite length_tl, length_removelast_pred, L.
  cbn [bind].
  rewrite (zip_with_nth fmul (removelast su) (tl sv) (fofZ 0))
    by now rewrite length_tl, length_removelast_pred, L.
  cbn [bind].
  rewrite (zip_with_nth fsub _ _ (fofZ 0))
    by now rewrite !length_map, !length_seq, length_tl, length_removelast_pred.
  f_equal. rewrite length_map, length_seq, length_tl.
  apply map_ext_in. intros k I. apply in_seq in I.
  rewrite length_removelast_pred.
  set (f := fun k => fmul (nth k (tl su) (fofZ 0)) (nth k (removelast sv) (fofZ 0))).
  set (g := fun k => fmul (nth k (removelast su) (fofZ 0)) (nth k (tl sv) (fofZ 0))).
  rewrite (nth_indep _ (fofZ 0) (f 0)) by (rewrite length_map, length_seq; lia).
  rewrite (nth_indep (map g _) (fofZ 0) (g 0)) by (rewrite length_map, length_seq; lia).
  rewrite (map_nth f), (map_nth g), !seq_nth by lia. simpl.
  unfold f, g, cross_term.
  now rewrite !nth_tl, !nth_removelast by lia.
Qed.

Lemma integrate_helicity_cross (u_int v_int : list F) (storm_u storm_v : F) :
  length u_int = length v_int ->
  integrate_helicity u_int v_int storm_u storm_v
  = Ok (helicity_of_layers
          (cross_terms (map (fun x => fsub x storm_u) u_int)
                       (map (fun x => fsub x storm_v) v_int))).
Proof.
  intros L. unfold integrate_helicity.
  rewrite int_layers_cross by now rewrite !length_map. reflexivity.
Qed.

Lemma length_slice {A} (i j : nat) (l : list A) :
  length (slice i j l) = Nat.min (j - i) (length l - i).
Proof. unfold slice. now rewrite length_firstn, length_skipn. Qed.

Lemma layer_winds_lengths `{Transcendental F} (fill : F) (u v p : list F)
    (pb pt dp : F) (exact : bool) (u_int v_int : list F) :
  length u = length v ->
  layer_winds fill u v p pb pt dp exact = Ok (u_int, v_int) ->
  length u_int = length v_int.
Proof.
  intros L. unfold layer_winds. destruct exact.
  - destruct (np_min _) as [i1|e]; simpl; [|discriminate].
    destruct (np_max _) as [i2|e]; simpl; [|discriminate].
    intros E. injection E as <- <-.
    simpl. rewrite !length_app, !length_slice, L. reflexivity.
  - intros E. injection E as <- <-. now rewrite !length_map.
Qed.

End Layers.

(** ** Soundings over the reals *)

Lemma Reqb_refl (a : R) : Reqb a a = true.
Proof. unfold Reqb. now destruct (Req_dec_T a a). Qed.

Lemma last_indep {A} (l : list A) (d d' : A) : l <> [] -> last l d = last l d'.
Proof.
  induction l as [|a [|b l] IH]; intros N; [congruence | trivial |].
  apply IH. discriminate.
Qed.

(** On as many samples as values, at least one, [np.interp] returns: the
    last value to the right of the last sample, and otherwise the first
    value to the left of the first sample. *)
Lemma np_interp_clamps (x : R) (xp fp : list R) :
  length xp = length fp -> xp <> [] ->
  exists y, np_interp x xp fp = Ok y
            /\ ((last xp 0 < x)%R -> y = last fp 0%R)
            /\ ((x < hd 0 xp)%R -> (x <= last xp 0)%R -> y = hd 0%R fp).
Proof.
  destruct xp as [|x0 xp]; [congruence|]. destruct fp as [|f0 fp]; [discriminate|].
  intros L _. unfold np_interp. rewrite L, Nat.eqb_refl. cbn [negb fltb Arith_R hd].
  rewrite (last_indep (x0 :: xp) x0 0%R) by discriminate.
  rewrite (last_indep (f0 :: fp) f0 0%R) by discriminate.
  unfold Rltb.
  destruct (Rlt_dec (last (x0 :: xp) 0%R) x) as [A|A];
    [|destruct (Rlt_dec x x0) as [B|B]];
    eexists; (split; [reflexivity|]); split; intros; trivial; lra.
Qed.

Lemma sorted_last (h0 : R) (l : list R) :
  StronglySorted Rle (h0 :: l) -> (h0 <= last (h0 :: l) 0)%R.
Proof.
  intros S. apply StronglySorted_inv in S. destruct S as [_ S].
  destruct (last_in (h0 :: l) 0%R) as [<- | I]; [discriminate | lra |].
  rewrite Forall_forall in S. now apply S.
Qed.

Lemma as_profile_profile {F} `{Arith F} (l : list F) (d : dimension) :
  as_profile (profile l d) = Ok l.
Proof. unfold as_profile, profile. simpl. now rewrite to_list1_of_list1. Qed.

Lemma srh_call_layers (fill : R) (u v p hgt : list R) (top : R) (bottom : option R)
    (exact : bool) :
  srh_call fill u v p hgt top bottom exact
  = ('(u_int, v_int) <-
       layer_profile fill u v p hgt top (effective_bottom bottom) (-1)%R exact ;;
     integrate_helicity u_int v_int 0%R 0%R).
Proof.
  unfold srh_call, storm_relative_helicity.
  assert (check_units srh_dims
            [Some (profile u dim_speed); Some (profile v dim_speed);
             Some (profile p dim_pressure); Some (number top dim_meter);
             Some (profile hgt dim_meter);
             option_map (fun b => number b dim_meter) bottom; None; None]
          = Ok tt) as -> by (destruct bottom; reflexivity).
  cbn [bind]. rewrite !as_profile_profile. cbn [bind with_default as_number number].
  destruct bottom as [b|]; cbn [option_map with_default as_number number bind as_bool
                                  effective_bottom item scalar magnitude get fofZ feqb
                                  Arith_R].
  - reflexivity.
  - now rewrite Reqb_refl.
Qed.

(** The pressure of a bound: the interpolation returns, and a bound
    outside the profile is clamped to an end of it. *)
Lemma bound_pressure (p hgt : list R) (x : R) :
  sounding p hgt ->
  exists y,
    np_interp x (map (fun h => (h - hd 0 hgt)%R) hgt) (map ln p) = Ok y
    /\ clamped_to p hgt x (exp y).
Proof.
  intros [L [N S]].
  destruct p as [|p0 p]; [congruence|]. destruct hgt as [|h0 hgt]; [discriminate|].
  set (agl := map (fun h => (h - hd 0 (h0 :: hgt))%R) (h0 :: hgt)).
  assert (length agl = length (map ln (p0 :: p))) as L'
    by (unfold agl; now rewrite !length_map).
  assert (agl <> []) as N' by discriminate.
  assert (last agl 0%R = (last (h0 :: hgt) h0 - h0)%R) as La.
  { unfold agl. rewrite (last_indep _ 0%R (h0 - hd 0 (h0 :: hgt))%R) by discriminate.
    now rewrite (last_map (fun h => (h - hd 0 (h0 :: hgt))%R)). }
  destruct (np_interp_clamps x agl (map ln (p0 :: p)) L' N') as [y [E [A B]]].
  exists y. split; [exact E|]. split.
  - intros Ab. cbn [fexp fln Transcendental_R]. f_equal. rewrite A.
    + rewrite (last_indep _ 0%R (ln 0)) by discriminate. apply last_map.
    + rewrite La. unfold above_profile in Ab. rewrite Forall_forall in Ab.
      apply (Ab (last (h0 :: hgt) h0)). apply last_in. discriminate.
  - intros Bl. cbn [fexp fln Transcendental_R]. f_equal. unfold below_profile in Bl.
    rewrite B; [reflexivity | simpl; lra |].
    rewrite La. pose proof (sorted_last h0 hgt S) as SL.
    rewrite (last_indep _ 0%R h0) in SL by discriminate. lra.
Qed.

Lemma layer_pressures_clamped (p hgt : list R) (top : R) (bottom : option R) :
  sounding p hgt ->
  exists pb pt,
    layer_pressures p hgt top bottom = Ok (pb, pt)
    /\ clamped_to p hgt top pt
    /\ (forall b, bottom = Some b -> clamped_to p hgt b pb)
    /\ (bottom = None -> pb = hd 0%R p).
Proof.
  intros S. destruct (bound_pressure p hgt top S) as [yt [Et Ct]].
  pose proof S as [L [N _]].
  destruct hgt as [|h0 hgt]; [destruct p; [congruence | discriminate]|].
  unfold layer_pressures. cbn [bind].
  cbn [hd fsub Arith_R] in Et. cbn [fsub fln fexp Arith_R Transcendental_R].
  rewrite Et. cbn [bind].
  destruct bottom as [b|].
  - destruct (bound_pressure p (h0 :: hgt) b S) as [yb [Eb Cb]].
    cbn [hd] in Eb. rewrite Eb. cbn [bind].
    exists (exp yb), (exp yt). split; [reflexivity|]. split; [exact Ct|].
    split; [|discriminate]. intros b0 E0. now injection E0 as <-.
  - destruct p as [|p0 p]; [congruence|]. cbn [bind].
    exists p0, (exp yt). split; [reflexivity|]. split; [exact Ct|].
    split; [discriminate | reflexivity].
Qed.

(** ** The integration over the reals *)

Lemma fold_left_Rplus (l : list R) (a : R) :
  fold_left Rplus l a = (a + Rsum l)%R.
Proof.
  revert a. induction l as [|x l IH]; intros a; simpl; [lra|].
  rewrite IH. lra.
Qed.

Lemma fsum_positive (l : list R) :
  fsum (filter (fun x => fltb (fofZ 0) x) l) = Rsum (map positive_part l).
Proof.
  unfold fsum. rewrite fold_left_Rplus.
  change (@fofZ R _ 0) with 0%R. rewrite Rplus_0_l.
  induction l as [|x l IH]; [reflexivity|].
  cbn [filter map Rsum fold_right fltb Arith_R].
  unfold Rltb at 1, positive_part at 1.
  destruct (Rlt_dec 0 x); cbn [Rsum fold_right]; fold (Rsum (map positive_part l));
    rewrite <- IH; unfold Rsum; simpl; lra.
Qed.

Lemma fsum_negative (l : list R) :
  fsum (filter (fun x => fltb x (fofZ 0)) l) = Rsum (map negative_part l).
Proof.
  unfold fsum. rewrite fold_left_Rplus.
  change (@fofZ R _ 0) with 0%R. rewrite Rplus_0_l.
  induction l as [|x l IH]; [reflexivity|].
  cbn [filter map Rsum fold_right fltb Arith_R].
  unfold Rltb at 1, negative_part at 1.
  destruct (Rlt_dec x 0); cbn [Rsum fold_right]; fold (Rsum (map negative_part l));
    rewrite <- IH; unfold Rsum; simpl; lra.
Qed.

Lemma helicity_of_cross_terms (layers : list R) :
  helicity_of_layers layers
  = helicity_triple (Rsum (map positive_part layers))
                    (Rsum (map negative_part layers))
                    (Rsum (map positive_part layers) + Rsum (map negative_part layers))%R.
Proof.
  unfold helicity_of_layers, helicity_triple.
  now rewrite fsum_positive, fsum_negative.
Qed.

(** What is integrated is the sub-profile of the layer minus the storm
    motion. *)
Lemma integrate_helicity_profile (u_int v_int : list R) (storm_u storm_v : R) :
  length u_int = length v_int ->
  integrate_helicity u_int v_int storm_u storm_v
  = Ok (helicity_of_profile (map (fun x => (x - storm_u)%R) u_int)
                            (map (fun x => (x - storm_v)%R) v_int)).
Proof.
  intros L. rewrite (integrate_helicity_cross u_int v_int storm_u storm_v L).
  unfold helicity_of_profile. now rewrite helicity_of_cross_terms.
Qed.

(** A call in uniform mode on a sounding returns the helicity of the layer
    between the pressures of its bounds. *)
Lemma srh_call_uniform (fill : R) (u v p hgt : list R) (top : R) (bottom : option R) :
  sounding p hgt ->
  exists pb pt,
    layer_pressures p hgt top (effective_bottom bottom) = Ok (pb, pt)
    /\ clamped_to p hgt top pt
    /\ (forall b, effective_bottom bottom = Some b -> clamped_to p hgt b pb)
    /\ (effective_bottom bottom = None -> pb = hd 0%R p)
    /\ srh_call fill u v p hgt top bottom false = Ok (layer_helicity fill u v p pb pt).
Proof.
  intros S.
  destruct (layer_pressures_clamped p hgt top (effective_bottom bottom) S)
    as [pb [pt [LP [Ct [Cb Cn]]]]].
  exists pb, pt. repeat (split; [assumption|]).
  rewrite srh_call_layers. unfold layer_profile. rewrite LP. cbn [bind layer_winds].
  rewrite integrate_helicity_profile by now rewrite !length_map.
  reflexivity.
Qed.

Lemma srh_full_call_layers (fill : R) (u v p hgt : list R) (top : R) (bottom : option R)
    (storm_u storm_v dp : R) (exact : bool) :
  srh_full_call fill u v p hgt top bottom storm_u storm_v dp exact
  = ('(u_int, v_int) <-
       layer_profile fill u v p hgt top (effective_bottom bottom) dp exact ;;
     integrate_helicity u_int v_int storm_u storm_v).
Proof.
  unfold srh_full_call, storm_relative_helicity.
  assert (check_units srh_dims
            [Some (profile u dim_speed); Some (profile v dim_speed);
             Some (profile p dim_pressure); Some (number top dim_meter);
             Some (profile hgt dim_meter);
             option_map (fun b => number b dim_meter) bottom;
             Some (number storm_u dim_speed); Some (number storm_v dim_speed)]
          = Ok tt) as -> by (destruct bottom; reflexivity).
  cbn [bind]. rewrite !as_profile_profile. cbn [bind with_default as_number number].
  destruct bottom as [b|]; cbn [option_map with_default as_number number bind as_bool
                                  effective_bottom item scalar magnitude get fofZ feqb
                                  Arith_R].
  - reflexivity.
  - now rewrite Reqb_refl.
Qed.

(** On winds of one length, what a call returns is the helicity of the
    sub-profile of the layer minus the storm motion. *)
Lemma srh_full_call_profile (fill : R) (u v p hgt : list R) (top : R)
    (bottom : option R) (storm_u storm_v dp : R) (exact : bool) (u_int v_int : list R) :
  length u = length v ->
  layer_profile fill u v p hgt top (effective_bottom bottom) dp exact = Ok (u_int, v_int) ->
  length u_int = length v_int
  /\ srh_full_call fill u v p hgt top bottom storm_u storm_v dp exact
     = Ok (helicity_of_profile (map (fun x => (x - storm_u)%R) u_int)
                               (map (fun x => (x - storm_v)%R) v_int)).
Proof.
  intros L W. rewrite srh_full_call_layers, W. cbn [bind].
  unfold layer_profile in W. apply bind_ok in W. destruct W as [[pb pt] [_ W]].
  apply layer_winds_lengths in W; trivial.
  split; [exact W|]. now apply integrate_helicity_profile.
Qed.

(** The sample sounding, asked up to 3000 m in uniform mode. *)
Lemma sample_sounding : sounding sample_p sample_hgt.
Proof.
  unfold sounding, sample_p, sample_hgt.
  split; [reflexivity|]. split; [discriminate|].
  repeat constructor; lra.
Qed.


Lemma sample_call_returns :
  exists r,
    srh_call 0%R sample_u sample_v sample_p sample_hgt 3000%R None false = Ok r.
Proof.
  destruct (srh_call_uniform 0%R sample_u sample_v sample_p sample_hgt 3000%R None
              sample_sounding) as [pb [pt [_ [_ [_ [_ E]]]]]].
  eexists. exact E.
Qed.

Lemma sample_layer_profile :
  exists u_int v_int,
    layer_profile 0%R sample_u sample_v sample_p sample_hgt 3000%R
                  (effective_bottom None) (-1)%R false
    = Ok (u_int, v_int).
Proof.
  destruct (layer_pressures_clamped sample_p sample_hgt 3000%R (effective_bottom None)
              sample_sounding) as [pb [pt [LP _]]].
  unfold layer_profile. rewrite LP. cbn [bind layer_winds]. eauto.
Qed.

(** ** Orientation invariance *)

Lemma mapM_inv {A B} (f : A -> result B) (l : list A) (l' : list B) :
  mapM f l = Ok l' ->
  length l' = length l /\ forall b, In b l' -> exists a, In a l /\ f a = Ok b.
Proof.
  revert l'. induction l as [|a l IH]; intros l'; simpl.
  - intros E. injection E as <-. split; trivial. intros b [].
  - destruct (f a) as [b0|e] eqn:Fa; simpl; [|discriminate].
    destruct (mapM f l) as [bs|e]; simpl; [|discriminate].
    intros E. injection E as <-.
    destruct (IH bs eq_refl) as [L I]. split; [simpl; now rewrite L|].
    intros b [<-|Ib]; [exists a; auto|].
    destruct (I b Ib) as [a' [Ia Fa']]. exists a'. auto.
Qed.

Lemma mapM_as_quantity {F} `{Arith F} (gs : list (quantity F)) :
  mapM as_quantity (map VQ gs) = Ok gs.
Proof.
  induction gs as [|g gs IH]; simpl; trivial. now rewrite IH.
Qed.

Lemma broadcast_rev_length (s1 s2 s : list nat) :
  broadcast_rev s1 s2 = Some s -> length s = Nat.max (length s1) (length s2).
Proof.
  revert s2 s. induction s1 as [|a s1 IH]; intros s2 s; simpl.
  - intros E. injection E as <-. reflexivity.
  - destruct s2 as [|b s2].
    + intros E. injection E as <-. reflexivity.
    + destruct (broadcast_rev s1 s2) as [s'|] eqn:E'; [|discriminate].
      apply IH in E'. simpl.
      destruct (a =? b); [|destruct (a =? 1); [|destruct (b =? 1); [|discriminate]]];
        intros E; injection E as <-; simpl; now rewrite E'.
Qed.

Lemma broadcast_shapes_length (s1 s2 s : list nat) :
  broadcast_shapes s1 s2 = Some s -> length s = Nat.max (length s1) (length s2).
Proof.
  unfold broadcast_shapes.
  destruct (broadcast_rev (rev s1) (rev s2)) as [s'|] eqn:E; simpl; [|discriminate].
  intros E'. injection E' as <-. apply broadcast_rev_length in E.
  now rewrite length_rev, E, !length_rev.
Qed.

Section Orientation.

Context {F : Type} `{Arith F}.

Lemma nd_map2_ndim op (a b c : ndarray F) :
  nd_map2 op a b = Ok c -> ndim c = Nat.max (ndim a) (ndim b).
Proof.
  unfold nd_map2. destruct (broadcast_shapes (shape a) (shape b)) as [s|] eqn:E;
    [|discriminate].
  intros E'. injection E' as <-. unfold ndim. simpl.
  now apply broadcast_shapes_length.
Qed.

Lemma q_additive_ndim op (a b c : quantity F) :
  q_additive op a b = Ok c -> q_ndim c = Nat.max (q_ndim a) (q_ndim b).
Proof.
  unfold q_additive. destruct (dim_eqb (units a) (units b)); [|discriminate].
  destruct (nd_map2 op (magnitude a) (magnitude b)) as [m|] eqn:E; [|discriminate].
  simpl. intros E'. injection E' as <-. now apply nd_map2_ndim in E.
Qed.

Lemma q_mul_ndim (a b c : quantity F) :
  q_mul a b = Ok c -> q_ndim c = Nat.max (q_ndim a) (q_ndim b).
Proof.
  unfold q_mul.
  destruct (nd_map2 fmul (magnitude a) (magnitude b)) as [m|] eqn:E; [|discriminate].
  simpl. intros E'. injection E' as <-. now apply nd_map2_ndim in E.
Qed.

Lemma np_gradient_shapes (f : ndarray F) (hs gs : list (ndarray F)) :
  np_gradient f hs = Ok gs ->
  length gs <= ndim f /\ Forall (fun g => shape g = shape f) gs.
Proof.
  unfold np_gradient.
  match goal with |- bind ?c _ = _ -> _ => destruct c as [ds|e] end;
    simpl; [|discriminate].
  intros M. apply mapM_inv in M. destruct M as [L I]. split.
  - rewrite L, length_combine, length_seq. apply Nat.le_min_l.
  - apply Forall_forall. intros g Ig. destruct (I g Ig) as [kh [_ G]].
    unfold grad_one_axis in G.
    destruct (nth (fst kh) (shape f) 0 <? 2); [discriminate|].
    now injection G as <-.
Qed.

(** What [_gradient] returns has the shape of the field; a single array is
    returned for 1-D fields only. *)
Lemma _gradient_shapes (f : quantity F) (args : list (quantity F)) (g : grad_out F) :
  _gradient f args = Ok g ->
  match g with
  | One q => q_ndim f = 1
  | Many gs =>
      q_ndim f <> 1 /\ length gs <= q_ndim f
      /\ Forall (fun q => shape (magnitude q) = shape (magnitude f)) gs
  end.
Proof.
  unfold _gradient.
  destruct (np_gradient (magnitude f) (map (@magnitude F) (pad_args (q_ndim f) args)))
    as [grad|e] eqn:G; simpl; [|discriminate].
  apply np_gradient_shapes in G. destruct G as [L S].
  destruct (q_ndim f =? 1) eqn:D.
  - destruct (pad_args (q_ndim f) args); [discriminate|].
    destruct grad; [discriminate|]. intros E. injection E as <-.
    now apply Nat.eqb_eq.
  - intros E. injection E as <-. apply Nat.eqb_neq in D. split; trivial. split.
    + rewrite length_map, length_combine. unfold q_ndim. lia.
    + apply Forall_map. apply Forall_forall. intros [d x] I. simpl.
      apply in_combine_r in I. rewrite Forall_forall in S. now apply S.
Qed.

(** With two or more distances the field cannot be 1-D. *)
Lemma _gradient_many (f : quantity F) (args : list (quantity F)) (g : grad_out F) :
  2 <= length args ->
  _gradient f args = Ok g ->
  exists gs, g = Many gs /\ length gs <= q_ndim f
             /\ Forall (fun q => shape (magnitude q) = shape (magnitude f)) gs.
Proof.
  intros L E. pose proof (_gradient_shapes _ _ _ E) as S.
  destruct g as [q|gs].
  - exfalso. unfold _gradient in E. rewrite S in E.
    unfold pad_args in E.
    assert ((length args <? 1) = false) as X by (apply Nat.ltb_ge; lia).
    rewrite X in E. unfold np_gradient in E.
    destruct args as [|a [|b args]]; simpl in L; try lia.
    simpl in E. fold (q_ndim f) in E. rewrite S in E. discriminate.
  - exists gs. tauto.
Qed.

Lemma _get_gradients_rank (u v dx dy a b c d : quantity F) :
  _get_gradients u v dx dy = Ok (a, b, c, d) ->
  2 <= q_ndim a /\ 2 <= q_ndim b /\ 2 <= q_ndim c /\ 2 <= q_ndim d.
Proof.
  unfold _get_gradients.
  destruct (_gradient u [dy; dx]) as [gu|e] eqn:Gu; simpl; [|discriminate].
  apply _gradient_many in Gu; [|simpl; lia].
  destruct Gu as [gsu [-> [Lu Su]]].
  destruct gsu as [|u0 [|u1 [|u2 gsu]]]; simpl; try discriminate.
  destruct (_gradient v [dy; dx]) as [gv|e] eqn:Gv; simpl; [|discriminate].
  apply _gradient_many in Gv; [|simpl; lia].
  destruct Gv as [gsv [-> [Lv Sv]]].
  destruct gsv as [|v0 [|v1 [|v2 gsv]]]; simpl; try discriminate.
  intros E. injection E as <- <- <- <-.
  inversion Su as [|? ? Su0 Su']; subst. inversion Su' as [|? ? Su1 _]; subst.
  inversion Sv as [|? ? Sv0 Sv']; subst. inversion Sv' as [|? ? Sv1 _]; subst.
  unfold q_ndim, ndim in *. simpl in Lu, Lv.
  rewrite Su0, Su1, Sv0, Sv1. lia.
Qed.

Ltac gradients_then E :=
  match type of E with
  | context [_get_gradients ?u ?v ?dx ?dy] =>
      let G := fresh "G" in
      destruct (_get_gradients u v dx dy) as [[[[? ?] ?] ?]|?] eqn:G;
      simpl in E; [apply _get_gradients_rank in G | discriminate]
  end.

Ltac additive_then E :=
  match type of E with
  | context [q_additive ?op ?a ?b] =>
      let A := fresh "A" in
      destruct (q_additive op a b) as [?|?] eqn:A;
      simpl in E; [apply q_additive_ndim in A | discriminate]
  end.

Lemma single_formulas_rank (u v dx dy : quantity F) (r : pyval F) :
  v_vorticity_raw u v dx dy = Ok r
  \/ h_convergence_raw u v dx dy = Ok r
  \/ shearing_deformation_raw u v dx dy = Ok r
  \/ stretching_deformation_raw u v dx dy = Ok r ->
  rank2_result r.
Proof.
  unfold v_vorticity_raw, h_convergence_raw, shearing_deformation_raw,
    stretching_deformation_raw, q_add, q_sub.
  intros [E|[E|[E|E]]]; gradients_then E; additive_then E;
    injection E as <-; simpl; lia.
Qed.

Lemma pair_formulas_rank (u v dx dy : quantity F) (r : pyval F) :
  convergence_vorticity_raw u v dx dy = Ok r
  \/ shearing_stretching_deformation_raw u v dx dy = Ok r ->
  rank2_result r.
Proof.
  unfold convergence_vorticity_raw, shearing_stretching_deformation_raw, q_add, q_sub.
  intros [E|E]; gradients_then E; additive_then E; additive_then E;
    injection E as <-; simpl;
    (constructor; [|constructor; [|constructor]]); simpl; lia.
Qed.

Lemma total_deformation_rank `{Transcendental F} (u v dx dy : quantity F) (r : pyval F) :
  total_deformation_raw u v dx dy = Ok r -> rank2_result r.
Proof.
  unfold total_deformation_raw, q_add, q_sub.
  intros E. gradients_then E. additive_then E. additive_then E. additive_then E.
  injection E as <-. simpl. unfold q_ndim, ndim in *. simpl in *. lia.
Qed.

Lemma nd_atleast_2d_id (a : ndarray F) : 2 <= ndim a -> nd_atleast_2d a = a.
Proof.
  unfold ndim, nd_atleast_2d. destruct (shape a) as [|n [|m s]]; simpl; trivial; lia.
Qed.

Lemma sum_axis0_ndim (a s : ndarray F) : sum_axis0 a = Ok s -> ndim a = S (ndim s).
Proof.
  unfold sum_axis0, ndim. destruct (shape a) as [|n sh]; [discriminate|].
  intros E. now injection E as <-.
Qed.

Lemma stack_quantities_ndim (qs : list (quantity F)) (q : quantity F) :
  stack_quantities qs = Ok q ->
  exists q0, In q0 qs /\ q_ndim q = S (q_ndim q0).
Proof.
  unfold stack_quantities. destruct qs as [|q0 rest]; [discriminate|].
  destruct (negb _); [discriminate|]. destruct (negb _); [discriminate|].
  intros E. injection E as <-. exists q0. split; [now left | reflexivity].
Qed.

Lemma advection_rank (scalar : quantity F) (wind deltas r : pyval F) :
  q_ndim scalar = 2 \/ q_ndim scalar = 0 ->
  advection_raw scalar wind deltas = Ok r -> rank2_result r.
Proof.
  intros N. unfold advection_raw.
  destruct (_stack wind) as [w|e]; simpl; [|discriminate].
  destruct (iterate deltas) as [ds|e]; simpl; [|discriminate].
  destruct (_gradient scalar (rev ds)) as [g|e] eqn:G; simpl; [|discriminate].
  apply _gradient_shapes in G. destruct g as [q|gs]; [lia|].
  destruct G as [_ [L S]].
  unfold _stack at 1. simpl. rewrite mapM_as_quantity. simpl.
  destruct (stack_quantities gs) as [grad|e] eqn:K; simpl; [|discriminate].
  apply stack_quantities_ndim in K. destruct K as [q0 [I0 K]].
  assert (q_ndim scalar = 2) as N2.
  { destruct N as [N|N]; trivial. rewrite N in L.
    destruct gs; [destruct I0 | simpl in L; lia]. }
  rewrite Forall_forall in S. pose proof (S q0 I0) as S0.
  assert (q_ndim grad = 3) as G3.
  { rewrite K. unfold q_ndim, ndim in *. rewrite S0. lia. }
  unfold q_atleast_2d at 1. rewrite nd_atleast_2d_id by (fold (q_ndim grad); lia).
  match goal with |- context [q_mul ?a ?b] =>
    destruct (q_mul a b) as [prod|e] eqn:P end; simpl; [|discriminate].
  apply q_mul_ndim in P.
  destruct (sum_axis0 (magnitude prod)) as [s|e] eqn:Z; simpl; [|discriminate].
  apply sum_axis0_ndim in Z.
  intros E. injection E as <-. simpl.
  unfold q_ndim, ndim in *. simpl in *. lia.
Qed.

Lemma in_skipn {A} (x : A) (n : nat) (l : list A) : In x (skipn n l) -> In x l.
Proof.
  intros I. rewrite <- (firstn_skipn n l). apply in_or_app. now right.
Qed.

Lemma last_two_rank (f : quantity F) (gs : list (quantity F)) (a b : quantity F) :
  length gs <= q_ndim f ->
  Forall (fun q => shape (magnitude q) = shape (magnitude f)) gs ->
  last_two (Many gs) = Ok (a, b) ->
  2 <= q_ndim f
  /\ shape (magnitude a) = shape (magnitude f)
  /\ shape (magnitude b) = shape (magnitude f).
Proof.
  intros L S. simpl.
  destruct (skipn (length gs - 2) gs) as [|x [|y [|z rest]]] eqn:K; try discriminate.
  intros E. injection E as <- <-.
  assert (length (skipn (length gs - 2) gs) = 2) as L2 by now rewrite K.
  rewrite length_skipn in L2.
  rewrite Forall_forall in S.
  split; [lia|]. split; apply S, (in_skipn _ (length gs - 2)); rewrite K; simpl; auto.
Qed.

Lemma geostrophic_wind_rank (g heights f dx dy : quantity F) (r : pyval F) :
  geostrophic_wind_raw g heights f dx dy = Ok r -> rank2_result r.
Proof.
  unfold geostrophic_wind_raw.
  match goal with |- bind ?c _ = _ -> _ => destruct c as [norm|e] end;
    simpl; [|discriminate].
  match goal with |- context [_gradient heights ?ds] =>
    destruct (_gradient heights ds) as [gr|e] eqn:G;
    [apply _gradient_many in G|] end; simpl; try discriminate.
  2: { destruct (2 <? q_ndim heights); [rewrite length_app|]; simpl; lia. }
  destruct G as [gs [-> [L S]]].
  destruct (last_two (Many gs)) as [[ddy ddx]|e] eqn:T; simpl; [|discriminate].
  apply (last_two_rank heights) in T; trivial. destruct T as [N [Sy Sx]].
  destruct (q_mul (q_neg norm) ddy) as [ug|e] eqn:U; simpl; [|discriminate].
  destruct (q_mul norm ddx) as [vg|e] eqn:V; simpl; [|discriminate].
  apply q_mul_ndim in U, V.
  intros E. injection E as <-. simpl.
  unfold q_ndim, ndim in *. rewrite Sy in U. rewrite Sx in V.
  constructor; [|constructor; [|constructor]]; simpl; unfold q_ndim, ndim; lia.
Qed.

(** *** from the raw formulas to the calls *)

Lemma bind_params_positional names (args bound : list (pyval F)) :
  bind_params names args [] = Ok bound -> bound = args.
Proof.
  revert args bound. induction names as [|n names IH]; intros [|a args] bound; simpl;
    try discriminate.
  - intros E. now injection E as <-.
  - destruct (bind_params names args []) as [rest|e] eqn:B; simpl; [|discriminate].
    intros E. injection E as <-. f_equal. now apply IH.
Qed.

Lemma call4_rank names
    (body : quantity F -> quantity F -> quantity F -> quantity F -> result (pyval F)) :
  (forall a b c d r, body a b c d = Ok r -> rank2_result r) ->
  forall args kwargs r, call4 names body args kwargs = Ok r -> rank2_result r.
Proof.
  intros B args kwargs r. unfold call4.
  destruct (bind_params names args kwargs) as [bound|e]; simpl; [|discriminate].
  destruct bound as [|a [|b [|c [|d [|x bound]]]]]; try discriminate.
  destruct (as_quantity a); simpl; [|discriminate].
  destruct (as_quantity b); simpl; [|discriminate].
  destruct (as_quantity c); simpl; [|discriminate].
  destruct (as_quantity d); simpl; [|discriminate].
  apply B.
Qed.

Lemma call_advection_rank (args : list (pyval F)) (r : pyval F) :
  Forall rank_0_or_2 args ->
  call_advection args [] = Ok r -> rank2_result r.
Proof.
  intros A. unfold call_advection.
  destruct (bind_params _ args []) as [bound|e] eqn:B; simpl; [|discriminate].
  apply bind_params_positional in B. subst bound.
  destruct args as [|s [|w [|d [|x args]]]]; try discriminate.
  destruct s as [qs| | | | |]; simpl; try discriminate.
  inversion A as [|? ? As _]; subst. now apply advection_rank.
Qed.

Lemma flip_rank2_field (v : pyval F) :
  rank2_field v -> _check_and_flip v = transpose_result v.
Proof.
  destruct v as [q| | | | |l]; cbn [rank2_field]; try tauto.
  intros N. cbn [_check_and_flip transpose_result].
  apply Nat.leb_le in N. now rewrite N.
Qed.

Lemma flip_rank2 (r : pyval F) : rank2_result r -> _check_and_flip r = transpose_result r.
Proof.
  destruct r as [q| | | | |l]; cbn [rank2_result]; try tauto.
  - apply (flip_rank2_field (VQ q)).
  - intros A. cbn [_check_and_flip transpose_result]. f_equal.
    apply map_ext_in. intros v I.
    rewrite Forall_forall in A. now apply flip_rank2_field, A.
Qed.

Lemma flip_grid_leaf (v : pyval F) :
  grid_leaf v = true -> _check_and_flip v = transpose_leaf v /\ rank_0_or_2 (transpose_leaf v).
Proof.
  destruct v as [q| | | | |l]; cbn [grid_leaf]; try discriminate.
  intros G. apply orb_true_iff in G. cbn [_check_and_flip transpose_leaf].
  destruct G as [G|G]; apply Nat.eqb_eq in G; rewrite G.
  - split; trivial. left. unfold q_ndim, ndim in *. simpl. now rewrite length_rev.
  - split; trivial. right. trivial.
Qed.

Lemma flip_grid_input (v : pyval F) :
  grid_input v = true ->
  _check_and_flip v = transpose_input v /\ rank_0_or_2 (transpose_input v).
Proof.
  destruct v as [q| | | | |l]; try (simpl; discriminate).
  - apply (flip_grid_leaf (VQ q)).
  - simpl. intros G. split; trivial. f_equal. apply map_ext_in. intros v I.
    rewrite forallb_forall in G. now apply flip_grid_leaf, G.
Qed.

Lemma wrapper_xy_yx (func : pyfun F) (args : list (pyval F)) :
  forallb grid_input args = true ->
  (forall r, func (map transpose_input args) [] = Ok r -> rank2_result r) ->
  returned (ensure_yx_order func args order_xy)
  = fmap transpose_result
      (returned (ensure_yx_order func (map transpose_input args) order_yx)).
Proof.
  intros G R. cbn.
  assert (map _check_and_flip args = map transpose_input args) as ->.
  { apply map_ext_in. intros v I. rewrite forallb_forall in G.
    now apply flip_grid_input, G. }
  destruct (func (map transpose_input args) []) as [r|e] eqn:E; simpl; trivial.
  f_equal. now apply flip_rank2, R.
Qed.

Lemma transposed_inputs_rank (args : list (pyval F)) :
  forallb grid_input args = true -> Forall rank_0_or_2 (map transpose_input args).
Proof.
  intros G. apply Forall_map, Forall_forall. intros v I.
  rewrite forallb_forall in G. now apply flip_grid_input, G.
Qed.

(** C1: for each of the nine wrapped formulas and every list of grid
    arguments (2-D arrays, scalar spacings, sequences of these), the call
    with [dim_order="xy"] returns the transpose of what the call with
    [dim_order="yx"] returns on the transposed arrays, every array of a
    returned tuple being transposed; when one call raises, the other raises
    the same exception. *)
Theorem orientation_invariance `{Transcendental F} (g : quantity F)
    (formula : list (pyval F) -> dict F -> outcome F) (args : list (pyval F)) :
  In formula (kinematic_formulas g) ->
  forallb grid_input args = true ->
  returned (formula args order_xy)
  = fmap transpose_result (returned (formula (map transpose_input args) order_yx)).
Proof.
  intros I G. pose proof (transposed_inputs_rank args G) as A.
  simpl in I.
  destruct I as [<-|[<-|[<-|[<-|[<-|[<-|[<-|[<-|[<-|[]]]]]]]]]];
    apply wrapper_xy_yx; trivial; intros r.
  - apply call4_rank. intros a b c d r'. pose proof (single_formulas_rank a b c d r'). tauto.
  - apply call4_rank. intros a b c d r'. pose proof (single_formulas_rank a b c d r'). tauto.
  - apply call4_rank. intros a b c d r'. pose proof (pair_formulas_rank a b c d r'). tauto.
  - apply call4_rank. intros a b c d r'. pose proof (single_formulas_rank a b c d r'). tauto.
  - apply call4_rank. intros a b c d r'. pose proof (single_formulas_rank a b c d r'). tauto.
  - apply call4_rank. intros a b c d r'. pose proof (pair_formulas_rank a b c d r'). tauto.
  - apply call4_rank. intros a b c d r'. apply total_deformation_rank.
  - now apply call_advection_rank.
  - apply call4_rank. intros a b c d r'. apply geostrophic_wind_rank.
Qed.

End Orientation.

Lemma orientation_invariance_witness :
  In v_vorticity (kinematic_formulas (mk_q (scalar 1%R) dim_acceleration))
  /\ forallb grid_input ramp_args_R = true
  /\ returned (v_vorticity ramp_args_R order_xy)
     = fmap transpose_result
         (returned (v_vorticity (map transpose_input ramp_args_R) order_yx)).
Proof.
  assert (In v_vorticity (kinematic_formulas (mk_q (scalar 1%R) dim_acceleration))) as I
    by (left; reflexivity).
  assert (forallb grid_input ramp_args_R = true) as G by reflexivity.
  split; [exact I|]. split; [exact G|].
  exact (orientation_invariance _ v_vorticity ramp_args_R I G).
Defined.

(** ** Shared-partials formulas agree with the single formulas *)

Section Combined.

Context {F : Type} `{Arith F}.

Lemma convergence_vorticity_raw_pair (u v dx dy : quantity F) :
  convergence_vorticity_raw u v dx dy
  = pair_results (h_convergence_raw u v dx dy) (v_vorticity_raw u v dx dy).
Proof.
  unfold convergence_vorticity_raw, h_convergence_raw, v_vorticity_raw, pair_results.
  destruct (_get_gradients u v dx dy) as [[[[dudx dudy] dvdx] dvdy]|e]; simpl; trivial.
  destruct (q_add dudx dvdy); simpl; trivial.
  destruct (q_sub dvdx dudy); reflexivity.
Qed.

Lemma call4_pair names (f g h : quantity F -> quantity F -> quantity F -> quantity F
                                 -> result (pyval F)) :
  (forall a b c d, f a b c d = pair_results (g a b c d) (h a b c d)) ->
  forall args kwargs,
    call4 names f args kwargs
    = pair_results (call4 names g args kwargs) (call4 names h args kwargs).
Proof.
  intros E args kwargs. unfold call4.
  destruct (bind_params names args kwargs) as [bound|e]; simpl; trivial.
  destruct bound as [|a [|b [|c [|d [|x bound]]]]]; trivial.
  destruct (as_quantity a); simpl; trivial.
  destruct (as_quantity b); simpl; trivial.
  destruct (as_quantity c); simpl; trivial.
  destruct (as_quantity d); simpl; trivial.
Qed.

Lemma ensure_yx_order_pair (f g h : pyfun F) :
  (forall args kwargs, f args kwargs = pair_results (g args kwargs) (h args kwargs)) ->
  forall args kwargs,
    returned (ensure_yx_order f args kwargs)
    = pair_results (returned (ensure_yx_order g args kwargs))
                   (returned (ensure_yx_order h args kwargs)).
Proof.
  intros E args kwargs. unfold ensure_yx_order.
  destruct (dict_pop "dim_order" VNone kwargs) as [dim_order kw].
  destruct (_is_x_first_dim dim_order) as [w [|]]; simpl; trivial.
  destruct (flip_kwargs kw) as [kw'|e]; simpl; trivial.
  rewrite E. unfold pair_results.
  destruct (g _ kw'); simpl; trivial.
  destruct (h _ kw'); reflexivity.
Qed.

(** C2: [convergence_vorticity] returns exactly the pair made of what
    [h_convergence] and [v_vorticity] return on the same arguments, in
    either orientation and with the default one; when one of the single
    formulas raises, the combined formula raises the same exception. *)
Theorem convergence_vorticity_is_pair (args : list (pyval F)) (kwargs : dict F) :
  returned (convergence_vorticity args kwargs)
  = pair_results (returned (h_convergence args kwargs))
                 (returned (v_vorticity args kwargs)).
Proof.
  apply ensure_yx_order_pair.
  apply call4_pair.
  exact convergence_vorticity_raw_pair.
Qed.

End Combined.

(** ** Total deformation *)

Lemma broadcast_rev_comm (s1 s2 : list nat) :
  broadcast_rev s1 s2 = broadcast_rev s2 s1.
Proof.
  revert s2. induction s1 as [|a s1 IH]; intros [|b s2]; simpl; trivial.
  rewrite IH. destruct (broadcast_rev s2 s1); trivial.
  destruct (Nat.eqb_spec a b) as [->|N].
  - now rewrite Nat.eqb_refl.
  - destruct (Nat.eqb_spec b a) as [E|_]; [congruence|].
    destruct (Nat.eqb_spec a 1) as [A|A]; destruct (Nat.eqb_spec b 1) as [B|B];
      trivial. congruence.
Qed.

Lemma broadcast_shapes_comm (s1 s2 : list nat) :
  broadcast_shapes s1 s2 = broadcast_shapes s2 s1.
Proof.
  unfold broadcast_shapes. now rewrite broadcast_rev_comm.
Qed.

Lemma broadcast_rev_same (s : list nat) : broadcast_rev s s = Some s.
Proof.
  induction s as [|a s IH]; simpl; trivial. now rewrite IH, Nat.eqb_refl.
Qed.

Lemma broadcast_shapes_same (s : list nat) : broadcast_shapes s s = Some s.
Proof.
  unfold broadcast_shapes. rewrite broadcast_rev_same. simpl. now rewrite rev_involutive.
Qed.

Lemma in_bounds_rev (s idx : list nat) : in_bounds s idx -> in_bounds (rev s) (rev idx).
Proof.
  unfold in_bounds. induction 1 as [|i n idx s L _ IH]; simpl; [constructor|].
  apply Forall2_app; trivial. now constructor.
Qed.

Lemma clamp_ones_in_bounds (s idx : list nat) : in_bounds s idx -> clamp_ones s idx = idx.
Proof.
  unfold in_bounds. induction 1 as [|i n idx s L _ IH]; simpl; trivial.
  rewrite IH. destruct (Nat.eqb_spec n 1); trivial. f_equal. lia.
Qed.

Lemma bidx_in_bounds (s idx : list nat) : in_bounds s idx -> bidx s idx = idx.
Proof.
  intros B. unfold bidx. rewrite (Forall2_length B), Nat.sub_diag. simpl.
  now apply clamp_ones_in_bounds.
Qed.

Section TotalDeformation.

Context {F : Type} `{Arith F} `{Transcendental F}.

Lemma arr_eq_refl (a : ndarray F) : arr_eq a a.
Proof. split; trivial. Qed.

Lemma res_eq_refl (r : result (pyval F)) : res_eq r r.
Proof.
  destruct r as [[q| | | | |l]|e]; simpl; trivial.
  split; trivial. apply arr_eq_refl.
Qed.

Lemma res_eq_of_eq (r1 r2 : result (pyval F)) : r1 = r2 -> res_eq r1 r2.
Proof. intros ->. apply res_eq_refl. Qed.

Lemma nd_map2_shape op (a b c : ndarray F) :
  nd_map2 op a b = Ok c -> broadcast_shapes (shape a) (shape b) = Some (shape c).
Proof.
  unfold nd_map2. destruct (broadcast_shapes (shape a) (shape b)); [|discriminate].
  intros E. now injection E as <-.
Qed.

Lemma q_additive_shape op (a b c : quantity F) :
  q_additive op a b = Ok c ->
  broadcast_shapes (shape (magnitude a)) (shape (magnitude b)) = Some (shape (magnitude c)).
Proof.
  unfold q_additive. destruct (dim_eqb (units a) (units b)); [|discriminate].
  destruct (nd_map2 op (magnitude a) (magnitude b)) as [m|] eqn:E; [|discriminate].
  simpl. intros E'. injection E' as <-. now apply nd_map2_shape in E.
Qed.

Lemma _get_gradients_shapes (u v dx dy a b c d : quantity F) :
  _get_gradients u v dx dy = Ok (a, b, c, d) ->
  shape (magnitude a) = shape (magnitude u)
  /\ shape (magnitude b) = shape (magnitude u)
  /\ shape (magnitude c) = shape (magnitude v)
  /\ shape (magnitude d) = shape (magnitude v).
Proof.
  unfold _get_gradients.
  destruct (_gradient u [dy; dx]) as [gu|e] eqn:Gu; simpl; [|discriminate].
  apply _gradient_many in Gu; [|simpl; lia].
  destruct Gu as [gsu [-> [Lu Su]]].
  destruct gsu as [|u0 [|u1 [|u2 gsu]]]; simpl; try discriminate.
  destruct (_gradient v [dy; dx]) as [gv|e] eqn:Gv; simpl; [|discriminate].
  apply _gradient_many in Gv; [|simpl; lia].
  destruct Gv as [gsv [-> [Lv Sv]]].
  destruct gsv as [|v0 [|v1 [|v2 gsv]]]; simpl; try discriminate.
  intros E. injection E as <- <- <- <-.
  inversion Su as [|? ? Su0 Su']; subst. inversion Su' as [|? ? Su1 _]; subst.
  inversion Sv as [|? ? Sv0 Sv']; subst. inversion Sv' as [|? ? Sv1 _]; subst.
  auto.
Qed.

(** In the canonical orientation the formula is, literally, the square root
    of the sum of the squares of the two deformations. *)
Lemma total_deformation_raw_root (u v dx dy : quantity F) :
  total_deformation_raw u v dx dy
  = sqrt_sum_squares (shearing_deformation_raw u v dx dy)
                     (stretching_deformation_raw u v dx dy).
Proof.
  unfold total_deformation_raw, shearing_deformation_raw, stretching_deformation_raw,
    sqrt_sum_squares, root_of_squares.
  destruct (_get_gradients u v dx dy) as [[[[dudx dudy] dvdx] dvdy]|e]; simpl; trivial.
  destruct (q_add dvdx dudy); simpl; trivial.
  destruct (q_sub dudx dvdy); reflexivity.
Qed.

(** Transposing the root of the squares, or taking it of the transposed
    fields, gives the same elements when the two fields have one shape. *)
Lemma root_of_squares_flip (sh st : quantity F) :
  shape (magnitude sh) = shape (magnitude st) ->
  2 <= q_ndim sh ->
  res_eq (fmap _check_and_flip (root_of_squares sh st))
         (root_of_squares (q_transpose sh) (q_transpose st)).
Proof.
  intros S N. unfold root_of_squares, q_add, q_additive, nd_map2.
  cbn -[Nat.leb broadcast_shapes bidx dim_eqb dim_pow].
  destruct (dim_eqb _ _); cbn -[Nat.leb broadcast_shapes bidx dim_pow]; trivial.
  rewrite <- S, broadcast_shapes_same, broadcast_shapes_same.
  cbn -[Nat.leb bidx dim_pow]. unfold q_ndim, ndim in *.
  cbn -[Nat.leb bidx dim_pow].
  apply Nat.leb_le in N. rewrite N.
  split; [|reflexivity].
  split; [reflexivity|]. cbn -[bidx]. intros idx B.
  assert (in_bounds (shape (magnitude sh)) (rev idx)) as B'.
  { rewrite <- (rev_involutive (shape (magnitude sh))). now apply in_bounds_rev. }
  now rewrite (bidx_in_bounds _ _ B), (bidx_in_bounds _ _ B').
Qed.

Lemma total_deformation_raw_flip (u v dx dy : quantity F) :
  res_eq (fmap _check_and_flip (total_deformation_raw u v dx dy))
         (sqrt_sum_squares (fmap _check_and_flip (shearing_deformation_raw u v dx dy))
                           (fmap _check_and_flip (stretching_deformation_raw u v dx dy))).
Proof.
  unfold total_deformation_raw, shearing_deformation_raw, stretching_deformation_raw,
    sqrt_sum_squares.
  destruct (_get_gradients u v dx dy) as [[[[dudx dudy] dvdx] dvdy]|e] eqn:G;
    cbn -[Nat.leb]; trivial.
  pose proof (_get_gradients_rank _ _ _ _ _ _ _ _ G) as [Ra [Rb [Rc Rd]]].
  pose proof (_get_gradients_shapes _ _ _ _ _ _ _ _ G) as [Sa [Sb [Sc Sd]]].
  destruct (q_add dvdx dudy) as [sh|e] eqn:A; cbn -[Nat.leb]; trivial.
  destruct (q_sub dudx dvdy) as [st|e] eqn:B; cbn -[Nat.leb]; trivial.
  pose proof (q_additive_ndim _ _ _ _ A) as NA.
  pose proof (q_additive_ndim _ _ _ _ B) as NB.
  apply q_additive_shape in A, B.
  assert (shape (magnitude sh) = shape (magnitude st)) as S.
  { rewrite Sc, Sb in A. rewrite Sa, Sd, broadcast_shapes_comm in B. congruence. }
  assert ((2 <=? q_ndim sh) = true) as -> by (apply Nat.leb_le; lia).
  assert ((2 <=? q_ndim st) = true) as -> by (apply Nat.leb_le; lia).
  cbn -[Nat.leb]. apply root_of_squares_flip; trivial. lia.
Qed.

Lemma call4_root names (args : list (pyval F)) (kwargs : dict F) :
  call4 names total_deformation_raw args kwargs
  = sqrt_sum_squares (call4 names shearing_deformation_raw args kwargs)
                     (call4 names stretching_deformation_raw args kwargs).
Proof.
  unfold call4.
  destruct (bind_params names args kwargs) as [bound|e]; simpl; trivial.
  destruct bound as [|a [|b [|c [|d [|x bound]]]]]; trivial.
  destruct (as_quantity a); simpl; trivial.
  destruct (as_quantity b); simpl; trivial.
  destruct (as_quantity c); simpl; trivial.
  destruct (as_quantity d); simpl; trivial.
  apply total_deformation_raw_root.
Qed.

Lemma call4_root_flip names (args : list (pyval F)) (kwargs : dict F) :
  res_eq (fmap _check_and_flip (call4 names total_deformation_raw args kwargs))
         (sqrt_sum_squares
            (fmap _check_and_flip (call4 names shearing_deformation_raw args kwargs))
            (fmap _check_and_flip (call4 names stretching_deformation_raw args kwargs))).
Proof.
  unfold call4.
  destruct (bind_params names args kwargs) as [bound|e]; simpl; trivial.
  destruct bound as [|a [|b [|c [|d [|x bound]]]]]; simpl; trivial.
  destruct (as_quantity a); simpl; trivial.
  destruct (as_quantity b); simpl; trivial.
  destruct (as_quantity c); simpl; trivial.
  destruct (as_quantity d); simpl; trivial.
  apply total_deformation_raw_flip.
Qed.

(** In every orientation the returned field is, element by element, the
    root of the squares of what the two single formulas return. *)
Lemma total_deformation_root (args : list (pyval F)) (kwargs : dict F) :
  res_eq (returned (total_deformation args kwargs))
         (sqrt_sum_squares (returned (shearing_deformation args kwargs))
                           (returned (stretching_deformation args kwargs))).
Proof.
  unfold total_deformation, shearing_deformation, stretching_deformation,
    ensure_yx_order.
  destruct (dict_pop "dim_order" VNone kwargs) as [dim_order kw].
  destruct (_is_x_first_dim dim_order) as [w [|]]; simpl.
  - destruct (flip_kwargs kw) as [kw'|e]; simpl; trivial.
    apply call4_root_flip.
  - apply res_eq_of_eq, call4_root.
Qed.

Lemma total_deformation_raw_is_root (u v dx dy : quantity F) (r : pyval F) :
  total_deformation_raw u v dx dy = Ok r -> exists s, r = VQ (q_sqrt s).
Proof.
  unfold total_deformation_raw.
  destruct (_get_gradients u v dx dy) as [[[[dudx dudy] dvdx] dvdy]|e]; simpl;
    [|discriminate].
  destruct (q_add dvdx dudy); simpl; [|discriminate].
  destruct (q_sub dudx dvdy); simpl; [|discriminate].
  destruct (q_add _ _) as [s|e]; simpl; [|discriminate].
  intros E. injection E as <-. now exists s.
Qed.

Lemma call4_is_root names (args : list (pyval F)) (kwargs : dict F) (r : pyval F) :
  call4 names total_deformation_raw args kwargs = Ok r -> exists s, r = VQ (q_sqrt s).
Proof.
  unfold call4.
  destruct (bind_params names args kwargs) as [bound|e]; simpl; [|discriminate].
  destruct bound as [|a [|b [|c [|d [|x bound]]]]]; try discriminate.
  destruct (as_quantity a); simpl; [|discriminate].
  destruct (as_quantity b); simpl; [|discriminate].
  destruct (as_quantity c); simpl; [|discriminate].
  destruct (as_quantity d); simpl; [|discriminate].
  apply total_deformation_raw_is_root.
Qed.

(** Every element of the returned field is a value of the square root. *)
Lemma total_deformation_elements (args : list (pyval F)) (kwargs : dict F)
    (q : quantity F) :
  returned (total_deformation args kwargs) = Ok (VQ q) ->
  forall idx, exists x, get (magnitude q) idx = fsqrt x.
Proof.
  unfold total_deformation, ensure_yx_order.
  destruct (dict_pop "dim_order" VNone kwargs) as [dim_order kw].
  destruct (_is_x_first_dim dim_order) as [w [|]]; simpl.
  - destruct (flip_kwargs kw) as [kw'|e]; simpl; [|discriminate].
    destruct (call4 _ _ _ kw') as [r|e] eqn:C; simpl; [|discriminate].
    apply call4_is_root in C. destruct C as [s ->].
    cbn [_check_and_flip]. destruct (2 <=? q_ndim (q_sqrt s));
      intros E; injection E as <-; intros idx; simpl; eauto.
  - intros C. apply call4_is_root in C. destruct C as [s E].
    injection E as ->. intros idx. simpl. eauto.
Qed.

End TotalDeformation.

(** C3: [total_deformation] returns, element by element and with the same
    unit, the square root of the sum of the squares of what
    [shearing_deformation] and [stretching_deformation] return on the same
    arguments, in every orientation (an exception of one side is the
    exception of the other); and over the reals every element of the
    returned field is non-negative. *)
Theorem total_deformation_root_nonnegative (args : list (pyval R)) (kwargs : dict R) :
  res_eq (returned (total_deformation args kwargs))
         (sqrt_sum_squares (returned (shearing_deformation args kwargs))
                           (returned (stretching_deformation args kwargs)))
  /\ nonnegative_field (returned (total_deformation args kwargs)).
Proof.
  split; [apply total_deformation_root|].
  intros q E idx.
  destruct (total_deformation_elements args kwargs q E idx) as [x ->].
  apply sqrt_pos.
Qed.

(** ** Where dimensions are validated *)





Section Validation.

Context {F : Type} `{Arith F}.



























End Validation.


(** ** Layer bounds outside the profile *)




(** ** Geostrophic wind *)

Section GeostrophicWind.

Context {F : Type} `{Arith F}.

Lemma one_meter_scalar : is_scalar (@one_meter F _).
Proof. reflexivity. Qed.

Lemma last_two_partials (f : quantity F) (args : list (quantity F)) :
  2 <= q_ndim f ->
  last_two (Many (partials f args))
  = Ok (partial f (q_ndim f - 2) (nth (q_ndim f - 2) args one_dimensionless),
        partial f (q_ndim f - 1) (nth (q_ndim f - 1) args one_dimensionless)).
Proof.
  intros N. unfold last_two, partials.
  rewrite length_map, length_seq, skipn_map, skipn_seq.
  replace (q_ndim f - (q_ndim f - 2)) with 2 by lia. simpl.
  replace (S (q_ndim f - 2)) with (q_ndim f - 1) by lia. reflexivity.
Qed.

Lemma geostrophic_deltas (n : nat) (dx dy : quantity F) :
  2 <= n ->
  is_scalar dx -> is_scalar dy ->
  let deltas := if 2 <? n then repeat one_meter (n - 2) ++ [dy; dx] else [dy; dx] in
  length deltas = n
  /\ Forall is_scalar deltas
  /\ nth (n - 2) deltas one_dimensionless = dy
  /\ nth (n - 1) deltas one_dimensionless = dx.
Proof.
  intros N Sx Sy. destruct (2 <? n) eqn:E; simpl.
  - rewrite length_app, repeat_length. simpl. split; [lia|]. split.
    + apply Forall_app. split.
      * apply Forall_forall. intros q I. apply repeat_spec in I. subst q.
        apply one_meter_scalar.
      * now repeat constructor.
    + rewrite !app_nth2 by (rewrite repeat_length; lia).
      rewrite repeat_length.
      replace (n - 2 - (n - 2)) with 0 by lia.
      replace (n - 1 - (n - 2)) with 1 by lia. auto.
  - apply Nat.ltb_ge in E. assert (n = 2) as -> by lia. simpl.
    split; trivial. split; [now repeat constructor | auto].
Qed.

Lemma geostrophic_wind_raw_components (g heights f dx dy : quantity F) :
  2 <= q_ndim heights ->
  samples_everywhere (magnitude heights) ->
  is_scalar dx -> is_scalar dy ->
  units heights = dim_geopotential \/ units heights = dim_meter ->
  geostrophic_wind_raw g heights f dx dy = geostrophic_components g heights f dx dy.
Proof.
  intros N E Sx Sy U. unfold geostrophic_wind_raw, geostrophic_components.
  assert ((if Qeq_bool (d_length (units heights)) 2
           then Ok (q_recip f) else q_div g f)
          = normalization g heights f) as ->.
  { unfold normalization. destruct U as [-> | ->]; reflexivity. }
  destruct (normalization g heights f) as [norm|e]; simpl; trivial.
  destruct (geostrophic_deltas (q_ndim heights) dx dy N Sx Sy) as [L [S [Dy Dx]]].
  rewrite _gradient_partials; trivial; [|lia].
  assert ((q_ndim heights =? 1) = false) as -> by (apply Nat.eqb_neq; lia).
  cbn [bind]. rewrite last_two_partials by trivial. cbn [bind].
  now rewrite Dy, Dx.
Qed.


End GeostrophicWind.


(** ** Fewer distances than axes *)

Section Padding.

Context {F : Type} `{Arith F}.

Lemma partials_nth (f : quantity F) (args : list (quantity F)) (i : nat) (d : quantity F) :
  i < q_ndim f ->
  nth i (partials f args) d = partial f i (distance_of_axis args i).
Proof.
  intros L. unfold partials, distance_of_axis.
  rewrite (nth_indep _ d (partial f 0 (nth 0 args one_dimensionless)))
    by now rewrite length_map, length_seq.
  rewrite (map_nth (fun j => partial f j (nth j args one_dimensionless)) (seq 0 (q_ndim f)) 0 i).
  rewrite seq_nth by trivial. simpl.
  destruct (i <? length args) eqn:E; trivial.
  apply Nat.ltb_ge in E. now rewrite nth_overflow.
Qed.

(** C7 (as amended): when fewer distances are supplied than the field has
    axes, [_gradient] appends the dimensionless distance 1 after them, so the
    supplied distances apply to the leading axes in order and the remaining
    trailing axes are differentiated with the distance 1, dimensionless. *)
Theorem gradient_pads_trailing_axes (f : quantity F) (args : list (quantity F)) :
  length args < q_ndim f ->
  Forall is_scalar args ->
  samples_everywhere (magnitude f) ->
  _gradient f args
  = _gradient f (args ++ repeat one_dimensionless (q_ndim f - length args))
  /\ _gradient f args
     = Ok (if q_ndim f =? 1
           then One (partial f 0 one_dimensionless)
           else Many (partials f args))
  /\ forall i d, i < q_ndim f ->
       nth i (partials f args) d = partial f i (distance_of_axis args i).
Proof.
  intros L S E. split; [|split].
  - unfold _gradient at 1 2.
    assert (pad_args (q_ndim f) args
            = args ++ repeat one_dimensionless (q_ndim f - length args)) as P.
    { unfold pad_args. apply Nat.ltb_lt in L. now rewrite L. }
    assert (pad_args (q_ndim f) (args ++ repeat one_dimensionless (q_ndim f - length args))
            = args ++ repeat one_dimensionless (q_ndim f - length args)) as P'.
    { unfold pad_args.
      assert ((length (args ++ repeat one_dimensionless (q_ndim f - length args))
               <? q_ndim f) = false) as ->; trivial.
      apply Nat.ltb_ge. rewrite length_app, repeat_length. lia. }
    rewrite P, P'. reflexivity.
  - rewrite _gradient_partials; trivial; [|lia].
    destruct (q_ndim f =? 1) eqn:D; trivial.
    apply Nat.eqb_eq in D. rewrite D in L.
    destruct args; [reflexivity | simpl in L; lia].
  - intros i d Li. now apply partials_nth.
Qed.

End Padding.

Lemma gradient_pads_trailing_axes_witness :
  length [two_meters] < q_ndim small_field
  /\ Forall is_scalar [two_meters]
  /\ samples_everywhere (magnitude small_field)
  /\ _gradient small_field [two_meters]
     = Ok (Many (partials small_field [two_meters]))
  /\ nth 1 (partials small_field [two_meters]) two_meters
     = partial small_field 1 one_dimensionless.
Proof.
  assert (length [two_meters] < q_ndim small_field) as L by (cbv; lia).
  assert (Forall is_scalar [two_meters]) as S by (repeat constructor).
  assert (samples_everywhere (magnitude small_field)) as E
    by (repeat constructor).
  destruct (gradient_pads_trailing_axes small_field [two_meters] L S E) as [_ [G N]].
  split; [exact L|]. split; [exact S|]. split; [exact E|]. split; [exact G|].
  exact (N 1 two_meters (le_n 2)).
Defined.

(** The claim as stated fails on a 2 x 2 field with one distance supplied:
    the 2 m divide the differences along the leading axis, and the trailing
    axis is the one differentiated with the dimensionless 1. *)
Lemma gradient_padding_counterexample :
  length [two_meters] < q_ndim small_field
  /\ (exists g0 g1,
        _gradient small_field [two_meters] = Ok (Many [g0; g1])
        /\ to_list2 (magnitude g0) = [[2; 2]; [2; 2]]%Q
        /\ units g0 = dim_kelvin_per_meter
        /\ to_list2 (magnitude g1) = [[1; 1]; [1; 1]]%Q
        /\ units g1 = dim_kelvin)
  /\ (exists h0 h1,
        _gradient small_field (pad_leading (q_ndim small_field) [two_meters])
        = Ok (Many [h0; h1])
        /\ to_list2 (magnitude h0) = [[4; 4]; [4; 4]]%Q
        /\ units h0 = dim_kelvin
        /\ to_list2 (magnitude h1) = [[1 # 2; 1 # 2]; [1 # 2; 1 # 2]]%Q
        /\ units h1 = dim_kelvin_per_meter)
  /\ _gradient small_field [two_meters]
     <> _gradient small_field (pad_leading (q_ndim small_field) [two_meters]).
Proof.
  split; [cbv; lia|]. split; [|split].
  - do 2 eexists. split; [reflexivity|]. repeat split; reflexivity.
  - do 2 eexists. split; [reflexivity|]. repeat split; reflexivity.
  - intros E.
    apply (f_equal (fun r => match r with
                             | Ok (Many gs) => map (@units Q) gs
                             | _ => []
                             end)) in E.
    vm_compute in E. discriminate.
Qed.
(** ** The integration of the hodograph area *)

(** C8: let [(u_int, v_int)] be the sub-profile that
    [storm_relative_helicity] builds for the layer from winds of one
    length, and [(su, sv)] that sub-profile minus the storm motion.  With
    [cross_k = su[k+1] * sv[k] - su[k] * sv[k+1]] for every pair of
    neighbouring levels, the function returns as positive helicity the sum
    of the strictly positive [cross_k], as negative helicity the sum of the
    strictly negative ones (a zero [cross_k] adds to neither), and as total
    helicity the positive plus the negative helicity. *)
Theorem helicity_sums_cross_terms (fill : R) (u v p hgt : list R) (top : R)
    (bottom : option R) (storm_u storm_v dp : R) (exact : bool)
    (u_int v_int : list R) :
  length u = length v ->
  layer_profile fill u v p hgt top (effective_bottom bottom) dp exact = Ok (u_int, v_int) ->
  let su := map (fun x => (x - storm_u)%R) u_int in
  let sv := map (fun x => (x - storm_v)%R) v_int in
  let cross := cross_terms su sv in
  length su = length sv
  /\ length cross = length su - 1
  /\ (forall k, k < length su - 1 ->
        nth k cross 0%R
        = (nth (S k) su 0 * nth k sv 0 - nth k su 0 * nth (S k) sv 0)%R)
  /\ srh_full_call fill u v p hgt top bottom storm_u storm_v dp exact
     = Ok (helicity_triple (Rsum (map positive_part cross))
                           (Rsum (map negative_part cross))
                           (Rsum (map positive_part cross)
                            + Rsum (map negative_part cross))%R)
  /\ (forall x, (0 < x)%R -> positive_part x = x /\ negative_part x = 0%R)
  /\ (forall x, (x < 0)%R -> positive_part x = 0%R /\ negative_part x = x)
  /\ (positive_part 0 = 0%R /\ negative_part 0 = 0%R).
Proof.
  intros L W.
  destruct (srh_full_call_profile fill u v p hgt top bottom storm_u storm_v dp exact
              u_int v_int L W) as [Li E].
  cbv zeta.
  split; [now rewrite !length_map|].
  split; [unfold cross_terms; now rewrite length_map, length_seq|].
  split.
  { intros k Lk. unfold cross_terms.
    rewrite (nth_indep _ 0%R (cross_term (map (fun x => (x - storm_u)%R) u_int)
                                         (map (fun x => (x - storm_v)%R) v_int) 0))
      by now rewrite length_map, length_seq.
    rewrite (map_nth (cross_term _ _)), seq_nth by trivial. reflexivity. }
  split; [exact E|].
  unfold positive_part, negative_part.
  split; [|split].
  - intros x P. destruct (Rlt_dec 0 x), (Rlt_dec x 0); split; trivial; lra.
  - intros x P. destruct (Rlt_dec 0 x), (Rlt_dec x 0); split; trivial; lra.
  - destruct (Rlt_dec 0 0); split; trivial; lra.
Qed.

Lemma helicity_sums_cross_terms_witness :
  exists u_int v_int,
    length sample_u = length sample_v
    /\ layer_profile 0%R sample_u sample_v sample_p sample_hgt 3000%R
                     (effective_bottom None) (-1)%R false
       = Ok (u_int, v_int)
    /\ let su := map (fun x => (x - 1)%R) u_int in
       let sv := map (fun x => (x - 2)%R) v_int in
       let cross := cross_terms su sv in
       srh_full_call 0%R sample_u sample_v sample_p sample_hgt 3000%R None
                     1%R 2%R (-1)%R false
       = Ok (helicity_triple (Rsum (map positive_part cross))
                             (Rsum (map negative_part cross))
                             (Rsum (map positive_part cross)
                              + Rsum (map negative_part cross))%R).
Proof.
  destruct sample_layer_profile as [u_int [v_int W]].
  exists u_int, v_int. split; [reflexivity|]. split; [exact W|].
  exact (proj1 (proj2 (proj2 (proj2
           (helicity_sums_cross_terms 0%R sample_u sample_v sample_p sample_hgt 3000%R
              None 1%R 2%R (-1)%R false u_int v_int eq_refl W))))).
Defined.

(** ** The ramp field *)

(** C9: for [u = v = [[0,0,0],[1,1,1],[2,2,2]]] m/s, [dx = dy = 1 m] and
    [dim_order="xy"], both [h_convergence] and [v_vorticity] return the
    3 x 3 field of ones, in 1/s. *)
Theorem ramp_convergence_and_vorticity :
  field_is (returned (h_convergence ramp_args order_xy)) [3; 3] ones dim_per_second
  /\ field_is (returned (v_vorticity ramp_args order_xy)) [3; 3] ones dim_per_second.
Proof.
  split; eexists; (split; [reflexivity|]); repeat split; reflexivity.
Qed.

(** ** The keyword loop of the wrapper *)

Section KeywordLoop.

Context {F : Type} `{Arith F}.

Lemma dict_remove_absent key (d : dict F) :
  dict_find key d = None -> dict_remove key d = d.
Proof.
  induction d as [|[k v] d IH]; simpl; trivial.
  destruct (String.eqb k key); [discriminate|].
  intros E. now rewrite IH.
Qed.

Lemma dict_pop_spec key default (d : dict F) :
  dict_pop key default d
  = (match dict_find key d with Some v => v | None => default end, dict_remove key d).
Proof.
  unfold dict_pop. destruct (dict_find key d) eqn:E; trivial.
  now rewrite dict_remove_absent.
Qed.

Lemma dict_set_present key v (d : dict F) :
  In key (dict_keys d) ->
  dict_keys (dict_set key v d) = dict_keys d /\ length (dict_set key v d) = length d.
Proof.
  induction d as [|[k w] d IH]; simpl; [tauto|].
  intros [E|I].
  - subst k. rewrite String.eqb_refl. simpl. auto.
  - destruct (String.eqb k key) eqn:E; simpl; auto.
    destruct (IH I) as [-> ->]. auto.
Qed.

Lemma dict_set_absent key v (d : dict F) :
  ~ In key (dict_keys d) -> length (dict_set key v d) = S (length d).
Proof.
  induction d as [|[k w] d IH]; simpl; trivial.
  intros N. destruct (String.eqb k key) eqn:E.
  - apply String.eqb_eq in E. tauto.
  - simpl. rewrite IH; tauto.
Qed.

Lemma unpack_key_length key k v :
  unpack_key key = Some (k, v) -> String.length key = 2 /\ String.length k = 1.
Proof.
  destruct key as [|c1 [|c2 [|c3 key]]]; simpl; try discriminate.
  intros E. injection E as <- <-. auto.
Qed.

Lemma unpack_key_none key :
  String.length key <> 2 -> unpack_key key = None.
Proof.
  destruct key as [|c1 [|c2 [|c3 key]]]; simpl; trivial. congruence.
Qed.

Lemma flip_kwargs_from_resized keys size0 (d : dict F) :
  length d <> size0 -> flip_kwargs_from keys size0 d = Err DictChangedSize.
Proof.
  intros N. apply Nat.eqb_neq in N.
  destruct keys; simpl; now rewrite N.
Qed.

(** Once a key is left to visit, the loop cannot end well: a key whose name
    is not two characters long stops it, and a two-character key either
    enlarges the dictionary or overwrites a one-character key that is still
    to be visited. *)
Lemma flip_kwargs_from_raises keys size0 (d : dict F) :
  keys <> [] ->
  (forall k, In k (dict_keys d) -> String.length k = 2 \/ In k keys) ->
  flip_kwargs_from keys size0 d = Err UnpackError
  \/ flip_kwargs_from keys size0 d = Err DictChangedSize.
Proof.
  revert d. induction keys as [|key keys IH]; intros d NE INV; [congruence|].
  simpl. destruct (length d =? size0) eqn:L; simpl; [|auto].
  apply Nat.eqb_eq in L.
  destruct (unpack_key key) as [[k v]|] eqn:U; [|auto].
  destruct (unpack_key_length _ _ _ U) as [L2 L1].
  destruct (in_dec string_dec k (dict_keys d)) as [I|N].
  - destruct (dict_set_present k (VStr v) d I) as [K _].
    assert (In k keys) as Ik.
    { destruct (INV k I) as [E|[E|E]]; trivial; [|subst k]; congruence. }
    apply IH.
    + intros ->. destruct Ik.
    + intros k' Ik'. rewrite K in Ik'.
      destruct (INV k' Ik') as [E|[E|E]]; auto. subst k'. auto.
  - right. apply flip_kwargs_from_resized.
    rewrite dict_set_absent; trivial. lia.
Qed.

Lemma flip_kwargs_raises (kwargs : dict F) :
  kwargs <> [] ->
  flip_kwargs kwargs = Err UnpackError \/ flip_kwargs kwargs = Err DictChangedSize.
Proof.
  intros NE. apply flip_kwargs_from_raises; auto.
  destruct kwargs; simpl; congruence.
Qed.

Lemma flip_kwargs_first key v (rest : dict F) :
  String.length key <> 2 -> flip_kwargs ((key, v) :: rest) = Err UnpackError.
Proof.
  intros N. unfold flip_kwargs. simpl.
  rewrite Nat.eqb_refl. simpl. now rewrite unpack_key_none.
Qed.

Lemma ensure_yx_order_xy (func : pyfun F) args kwargs :
  uses_xy kwargs = true ->
  returned (ensure_yx_order func args kwargs)
  = (kw <- flip_kwargs (other_keywords kwargs) ;;
     fmap _check_and_flip (func (map _check_and_flip args) kw)).
Proof.
  unfold uses_xy, ensure_yx_order, other_keywords. rewrite dict_pop_spec.
  destruct (dict_find "dim_order" kwargs) as [v|]; intros X.
  - destruct (_is_x_first_dim v) as [w b]. simpl in X. now subst b.
  - reflexivity.
Qed.

(** C10 (as amended): in an x-first call that passes any keyword besides
    [dim_order], the loop visits the keys of the dictionary, not its items,
    and the call raises before the wrapped function runs, whatever that
    function is: an unpacking error when the first keyword visited has a name
    that is not exactly two characters long, and otherwise an unpacking error
    or the error of a dictionary that changed size during the iteration. *)
Theorem keyword_loop_raises (func : pyfun F) (args : list (pyval F)) (kwargs : dict F) :
  uses_xy kwargs = true ->
  other_keywords kwargs <> [] ->
  (returned (ensure_yx_order func args kwargs) = Err UnpackError
   \/ returned (ensure_yx_order func args kwargs) = Err DictChangedSize)
  /\ (forall key v rest,
         other_keywords kwargs = (key, v) :: rest ->
         String.length key <> 2 ->
         returned (ensure_yx_order func args kwargs) = Err UnpackError).
Proof.
  intros X NE. rewrite ensure_yx_order_xy by trivial. split.
  - destruct (flip_kwargs_raises _ NE) as [-> | ->]; auto.
  - intros key v rest E N. rewrite E, flip_kwargs_first; trivial.
Qed.

End KeywordLoop.

Lemma keyword_loop_raises_witness :
  uses_xy keyword_u_call = true
  /\ other_keywords keyword_u_call <> []
  /\ returned (v_vorticity [] keyword_u_call) = Err UnpackError.
Proof.
  assert (uses_xy keyword_u_call = true) as X by reflexivity.
  assert (other_keywords keyword_u_call <> []) as NE by discriminate.
  split; [exact X|]. split; [exact NE|].
  apply (proj2 (keyword_loop_raises
                  (call4 uvxy v_vorticity_raw) [] keyword_u_call X NE)
           "u"%string (qgrid ramp dim_speed) []); [reflexivity | discriminate].
Defined.

(** The claim as stated fails when a two-character keyword is visited before
    the keyword [u]: the loop stores ["x"] under ["d"] and the next step of
    the iteration finds the dictionary enlarged. *)
Lemma keyword_loop_counterexample :
  uses_xy keyword_call = true
  /\ In "u"%string (dict_keys (other_keywords keyword_call))
  /\ String.length "u" <> 2
  /\ returned (v_vorticity [] keyword_call) = Err DictChangedSize
  /\ returned (v_vorticity [] keyword_call) <> Err UnpackError.
Proof.
  assert (returned (v_vorticity [] keyword_call) = Err DictChangedSize) as E
    by reflexivity.
  split; [reflexivity|]. split; [simpl; tauto|]. split; [discriminate|].
  split; [exact E|]. rewrite E. discriminate.
Qed.

(** ** The formulas in terms of the partial derivatives *)

Lemma dim_eqb_refl (d : dimension) : dim_eqb d d = true.
Proof. unfold dim_eqb. now rewrite !Qeq_bool_refl. Qed.

Section Formulas.

Context {F : Type} `{Arith F}.

Lemma _get_gradients_partials (u v dx dy : quantity F) :
  grid_wind u v dx dy ->
  _get_gradients u v dx dy
  = Ok (partial u 1 dx, partial u 0 dy, partial v 1 dx, partial v 0 dy).
Proof.
  intros [Nu [Nv [Eu [Ev [Sx Sy]]]]]. unfold _get_gradients.
  rewrite !_gradient_partials; trivial;
    try (now repeat constructor); try (simpl; lia).
  unfold partials. rewrite Nu, Nv. reflexivity.
Qed.

Lemma call_yx (names : list string)
    (body : quantity F -> quantity F -> quantity F -> quantity F -> result (pyval F))
    (a b c d : quantity F) :
  length names = 4 ->
  returned (ensure_yx_order (call4 names body) [VQ a; VQ b; VQ c; VQ d] order_yx)
  = body a b c d.
Proof.
  intros L. destruct names as [|n1 [|n2 [|n3 [|n4 [|n5 names]]]]]; try discriminate.
  reflexivity.
Qed.

Lemma call_xy (names : list string)
    (body : quantity F -> quantity F -> quantity F -> quantity F -> result (pyval F))
    (a b c d : quantity F) :
  length names = 4 ->
  q_ndim a = 2 -> q_ndim b = 2 -> is_scalar c -> is_scalar d ->
  returned (ensure_yx_order (call4 names body) [VQ a; VQ b; VQ c; VQ d] order_xy)
  = fmap _check_and_flip (body (q_transpose a) (q_transpose b) c d).
Proof.
  intros L Na Nb Sc Sd.
  destruct names as [|n1 [|n2 [|n3 [|n4 [|n5 names]]]]]; try discriminate.
  unfold is_scalar in *. cbn -[Nat.leb]. rewrite Na, Nb, Sc, Sd. reflexivity.
Qed.

Lemma uv_formulas_yx (u v dx dy : quantity F) :
  grid_wind u v dx dy ->
  returned (v_vorticity (uv_args u v dx dy) order_yx)
  = field_of (q_sub (partial v 1 dx) (partial u 0 dy))
  /\ returned (h_convergence (uv_args u v dx dy) order_yx)
     = field_of (q_add (partial u 1 dx) (partial v 0 dy))
  /\ returned (shearing_deformation (uv_args u v dx dy) order_yx)
     = field_of (q_add (partial v 1 dx) (partial u 0 dy))
  /\ returned (stretching_deformation (uv_args u v dx dy) order_yx)
     = field_of (q_sub (partial u 1 dx) (partial v 0 dy)).
Proof.
  intros G. pose proof (_get_gradients_partials u v dx dy G) as E.
  unfold v_vorticity, h_convergence, shearing_deformation, stretching_deformation,
    uv_args.
  rewrite !call_yx by reflexivity.
  unfold v_vorticity_raw, h_convergence_raw, shearing_deformation_raw,
    stretching_deformation_raw, field_of.
  rewrite E. cbn [bind].
  repeat split;
    match goal with |- bind ?c _ = _ => destruct c; reflexivity end.
Qed.

(** X1: [shearing_stretching_deformation] returns exactly the pair of what
    [shearing_deformation] and [stretching_deformation] return on the same
    arguments, in every orientation, exceptions included. *)
Theorem shearing_stretching_is_pair (args : list (pyval F)) (kwargs : dict F) :
  returned (shearing_stretching_deformation args kwargs)
  = pair_results (returned (shearing_deformation args kwargs))
                 (returned (stretching_deformation args kwargs)).
Proof.
  apply ensure_yx_order_pair. apply call4_pair. intros u v dx dy.
  unfold shearing_stretching_deformation_raw, shearing_deformation_raw,
    stretching_deformation_raw, pair_results.
  destruct (_get_gradients u v dx dy) as [[[[dudx dudy] dvdx] dvdy]|e]; simpl; trivial.
  destruct (q_add dvdx dudy); simpl; trivial.
  destruct (q_sub dudx dvdy); reflexivity.
Qed.

Lemma samples_everywhere_transpose (a : ndarray F) :
  samples_everywhere a -> samples_everywhere (transpose a).
Proof. unfold samples_everywhere. simpl. apply Forall_rev. Qed.

Lemma grid_wind_transpose (u v dx dy : quantity F) :
  grid_wind u v dx dy -> grid_wind (q_transpose u) (q_transpose v) dx dy.
Proof.
  intros [Nu [Nv [Eu [Ev [Sx Sy]]]]]. unfold grid_wind, q_ndim, ndim in *. simpl.
  rewrite !length_rev.
  repeat split; trivial; now apply samples_everywhere_transpose.
Qed.

Lemma in_bounds_2 (m n : nat) (idx : list nat) :
  in_bounds [m; n] idx -> exists i j, idx = [i; j] /\ i < m /\ j < n.
Proof.
  intros B. inversion B as [|i m' idx1 s1 Li B1]; subst.
  inversion B1 as [|j n' idx2 s2 Lj B2]; subst. inversion B2; subst.
  exists i, j. auto.
Qed.

(** On a 2-D field the derivative of the transposed field along one axis is
    the derivative of the field along the other axis, read at the mirrored
    index. *)
Lemma partial_transpose_get (f d : quantity F) (m n i j : nat) :
  shape (magnitude f) = [m; n] ->
  get (magnitude (partial (q_transpose f) 1 d)) [j; i] = d_axis f 0 d [i; j]
  /\ get (magnitude (partial (q_transpose f) 0 d)) [j; i] = d_axis f 1 d [i; j].
Proof.
  intros S. unfold d_axis, partial, grad_axis. simpl. rewrite S. split; reflexivity.
Qed.

(** The flipped sum or difference of two fields on the transposed grid. *)
Lemma flip_additive (op : F -> F -> F) (a b : quantity F) (m n : nat) :
  shape (magnitude a) = [n; m] ->
  shape (magnitude b) = [n; m] ->
  dim_eqb (units a) (units b) = true ->
  returns_field (fmap _check_and_flip (field_of (q_additive op a b)))
                [m; n] (units a)
                (fun idx => op (get (magnitude a) (rev idx)) (get (magnitude b) (rev idx))).
Proof.
  intros Sa Sb D. unfold field_of, q_additive, nd_map2.
  rewrite D, Sa, Sb, broadcast_shapes_same. cbn -[bidx].
  eexists. split; [reflexivity|]. cbn -[bidx]. repeat split.
  intros idx B.
  apply in_bounds_rev in B. simpl in B.
  now rewrite (bidx_in_bounds _ _ B).
Qed.

Lemma partial_shape (f d : quantity F) (k : nat) :
  shape (magnitude (partial f k d)) = shape (magnitude f).
Proof. reflexivity. Qed.

Ltac xy_formula Su Sv Uv Ud :=
  match goal with
  | |- returns_field (fmap _ (bind (q_additive ?op ?a ?b) _)) _ _ _ =>
      let R := fresh "R" in
      assert (returns_field (fmap _check_and_flip (field_of (q_additive op a b)))
                [_; _] (units a)
                (fun idx => op (get (magnitude a) (rev idx))
                               (get (magnitude b) (rev idx)))) as R
        by (apply flip_additive;
            [ simpl; rewrite ?Su, ?Sv; reflexivity
            | simpl; rewrite ?Su, ?Sv; reflexivity
            | simpl; rewrite ?Uv, ?Ud; apply dim_eqb_refl ]);
      destruct R as [q [E [Sq [Uq V]]]];
      unfold field_of in E;
      destruct (q_additive op a b) as [r|e]; [|discriminate];
      cbn [fmap bind] in *; exists q;
      split; [exact E|]; split; [exact Sq|];
      split; [rewrite Uq; simpl; rewrite ?Uv, ?Ud; reflexivity|];
      intros idx B; rewrite (V idx B);
      destruct (in_bounds_2 _ _ _ B) as [i [j [-> _]]]; simpl rev
  end.

Lemma uv_formulas_xy (u v dx dy : quantity F) (m n : nat) :
  grid_wind u v dx dy ->
  shape (magnitude u) = [m; n] ->
  shape (magnitude v) = [m; n] ->
  units u = units v ->
  units dx = units dy ->
  returns_field (returned (v_vorticity (uv_args u v dx dy) order_xy))
    [m; n] (dim_div (units u) (units dx))
    (fun idx => fsub (d_axis v 0 dx idx) (d_axis u 1 dy idx))
  /\ returns_field (returned (h_convergence (uv_args u v dx dy) order_xy))
       [m; n] (dim_div (units u) (units dx))
       (fun idx => fadd (d_axis u 0 dx idx) (d_axis v 1 dy idx))
  /\ returns_field (returned (shearing_deformation (uv_args u v dx dy) order_xy))
       [m; n] (dim_div (units u) (units dx))
       (fun idx => fadd (d_axis v 0 dx idx) (d_axis u 1 dy idx))
  /\ returns_field (returned (stretching_deformation (uv_args u v dx dy) order_xy))
       [m; n] (dim_div (units u) (units dx))
       (fun idx => fsub (d_axis u 0 dx idx) (d_axis v 1 dy idx)).
Proof.
  intros G Su Sv Uv Ud.
  pose proof (_get_gradients_partials _ _ _ _ (grid_wind_transpose u v dx dy G)) as E.
  destruct G as [Nu [Nv [_ [_ [Sx Sy]]]]].
  unfold v_vorticity, h_convergence, shearing_deformation, stretching_deformation,
    uv_args.
  rewrite !call_xy by (trivial; reflexivity).
  unfold v_vorticity_raw, h_convergence_raw, shearing_deformation_raw,
    stretching_deformation_raw, q_add, q_sub.
  rewrite E. cbn [bind]. clear E.
  split; [|split; [|split]]; xy_formula Su Sv Uv Ud;
    rewrite ?(proj1 (partial_transpose_get u _ m n i j Su)),
            ?(proj2 (partial_transpose_get u _ m n i j Su)),
            ?(proj1 (partial_transpose_get v _ m n i j Sv)),
            ?(proj2 (partial_transpose_get v _ m n i j Sv));
    reflexivity.
Qed.

(** X2: in the canonical orientation ([dim_order="yx"]) every formula of
    the wind is the stated combination of the partial derivatives, x being
    the last axis and y the one before: the derivative along axis 1 is taken
    with [dx], the one along axis 0 with [dy]. *)
Theorem formulas_in_yx_order (u v dx dy : quantity F) :
  grid_wind u v dx dy ->
  returned (v_vorticity (uv_args u v dx dy) order_yx)
  = field_of (q_sub (partial v 1 dx) (partial u 0 dy))
  /\ returned (h_convergence (uv_args u v dx dy) order_yx)
     = field_of (q_add (partial u 1 dx) (partial v 0 dy))
  /\ returned (shearing_deformation (uv_args u v dx dy) order_yx)
     = field_of (q_add (partial v 1 dx) (partial u 0 dy))
  /\ returned (stretching_deformation (uv_args u v dx dy) order_yx)
     = field_of (q_sub (partial u 1 dx) (partial v 0 dy)).
Proof.
  intros G. exact (uv_formulas_yx u v dx dy G).
Qed.

(** X3: with [dim_order="xy"] the same formulas are computed with x along
    the leading axis of the caller's arrays: the derivative along axis 0 is
    taken with [dx], the one along axis 1 with [dy], and the result is
    returned on the caller's grid. *)
Theorem formulas_in_xy_order (u v dx dy : quantity F) (m n : nat) :
  grid_wind u v dx dy ->
  shape (magnitude u) = [m; n] ->
  shape (magnitude v) = [m; n] ->
  units u = units v ->
  units dx = units dy ->
  returns_field (returned (v_vorticity (uv_args u v dx dy) order_xy))
    [m; n] (dim_div (units u) (units dx))
    (fun idx => fsub (d_axis v 0 dx idx) (d_axis u 1 dy idx))
  /\ returns_field (returned (h_convergence (uv_args u v dx dy) order_xy))
       [m; n] (dim_div (units u) (units dx))
       (fun idx => fadd (d_axis u 0 dx idx) (d_axis v 1 dy idx))
  /\ returns_field (returned (shearing_deformation (uv_args u v dx dy) order_xy))
       [m; n] (dim_div (units u) (units dx))
       (fun idx => fadd (d_axis v 0 dx idx) (d_axis u 1 dy idx))
  /\ returns_field (returned (stretching_deformation (uv_args u v dx dy) order_xy))
       [m; n] (dim_div (units u) (units dx))
       (fun idx => fsub (d_axis u 0 dx idx) (d_axis v 1 dy idx)).
Proof.
  intros G Su Sv Uv Ud. exact (uv_formulas_xy u v dx dy m n G Su Sv Uv Ud).
Qed.

Lemma returns_field_ext (r : result (pyval F)) (s : list nat) (d : dimension)
    (f g : list nat -> F) :
  returns_field r s d f ->
  (forall idx, in_bounds s idx -> f idx = g idx) ->
  returns_field r s d g.
Proof.
  intros [q [E [S [U V]]]] X. exists q. repeat split; trivial.
  intros idx B. rewrite V by trivial. now apply X.
Qed.

Lemma additive_field (op : F -> F -> F) (a b : quantity F) (s : list nat) :
  shape (magnitude a) = s ->
  shape (magnitude b) = s ->
  dim_eqb (units a) (units b) = true ->
  returns_field (field_of (q_additive op a b)) s (units a)
                (fun idx => op (get (magnitude a) idx) (get (magnitude b) idx)).
Proof.
  intros Sa Sb D. unfold field_of, q_additive, nd_map2.
  rewrite D, Sa, Sb, broadcast_shapes_same. cbn -[bidx].
  eexists. split; [reflexivity|]. cbn -[bidx]. repeat split.
  intros idx B. now rewrite (bidx_in_bounds _ _ B).
Qed.

(** A call that leaves [dim_order] out returns what [dim_order="xy"]
    returns. *)
Lemma default_is_xy (func : pyfun F) (args : list (pyval F)) :
  returned (ensure_yx_order func args [])
  = returned (ensure_yx_order func args order_xy).
Proof. reflexivity. Qed.

End Formulas.

Lemma formulas_in_yx_order_witness :
  grid_wind (qfield ramp dim_speed) (qfield ramp dim_speed)
            (qdist 1 dim_meter) (qdist 1 dim_meter)
  /\ returned (v_vorticity (uv_args (qfield ramp dim_speed) (qfield ramp dim_speed)
                              (qdist 1 dim_meter) (qdist 1 dim_meter)) order_yx)
     = field_of (q_sub (partial (qfield ramp dim_speed) 1 (qdist 1 dim_meter))
                       (partial (qfield ramp dim_speed) 0 (qdist 1 dim_meter))).
Proof.
  assert (grid_wind (qfield ramp dim_speed) (qfield ramp dim_speed)
                    (qdist 1 dim_meter) (qdist 1 dim_meter)) as G.
  { repeat split; repeat constructor. }
  split; [exact G|].
  exact (proj1 (formulas_in_yx_order _ _ _ _ G)).
Defined.

Lemma formulas_in_xy_order_witness :
  grid_wind (qfield ramp dim_speed) (qfield ramp dim_speed)
            (qdist 1 dim_meter) (qdist 1 dim_meter)
  /\ shape (magnitude (qfield ramp dim_speed)) = [3; 3]
  /\ units (qdist 1 dim_meter) = units (qdist 1 dim_meter)
  /\ returns_field
       (returned (v_vorticity (uv_args (qfield ramp dim_speed) (qfield ramp dim_speed)
                                 (qdist 1 dim_meter) (qdist 1 dim_meter)) order_xy))
       [3; 3] (dim_div dim_speed dim_meter)
       (fun idx => fsub (d_axis (qfield ramp dim_speed) 0 (qdist 1 dim_meter) idx)
                        (d_axis (qfield ramp dim_speed) 1 (qdist 1 dim_meter) idx)).
Proof.
  assert (grid_wind (qfield ramp dim_speed) (qfield ramp dim_speed)
                    (qdist 1 dim_meter) (qdist 1 dim_meter)) as G.
  { repeat split; repeat constructor. }
  split; [exact G|]. split; [reflexivity|]. split; [reflexivity|].
  exact (proj1 (formulas_in_xy_order _ _ _ _ 3 3 G eq_refl eq_refl eq_refl eq_refl)).
Defined.

(** ** A uniform wind *)

Lemma d_axis_uniform (f d : quantity R) (m n : nat) (c : R) (k : nat) (idx : list nat) :
  shape (magnitude f) = [m; n] ->
  2 <= m -> 2 <= n ->
  uniform_field f c ->
  in_bounds [m; n] idx ->
  k < 2 ->
  d_axis f k d idx = 0%R.
Proof.
  intros S M N U B K.
  destruct (in_bounds_2 _ _ _ B) as [i [j [-> [Li Lj]]]].
  assert (forall a b, a < m -> b < n -> get (magnitude f) [a; b] = c) as V.
  { intros a b La Lb. apply U. rewrite S.
    constructor; [exact La|]. constructor; [exact Lb|]. constructor. }
  unfold d_axis, partial, grad_axis, stencil. cbn -[Nat.eqb Nat.sub Nat.add].
  rewrite S. destruct k as [|[|k]]; [| |lia]; cbn -[Nat.eqb Nat.sub Nat.add].
  - destruct (Nat.eqb_spec i 0); [|destruct (Nat.eqb_spec i (m - 1))];
      rewrite !V by lia; unfold Rdiv; ring.
  - destruct (Nat.eqb_spec j 0); [|destruct (Nat.eqb_spec j (n - 1))];
      rewrite !V by lia; unfold Rdiv; ring.
Qed.

Lemma samples_2 (a : ndarray R) (m n : nat) :
  shape a = [m; n] -> samples_everywhere a -> 2 <= m /\ 2 <= n.
Proof.
  intros S E. unfold samples_everywhere in E. rewrite S in E.
  inversion E as [|? ? M E']; subst. inversion E' as [|? ? N _]; subst. auto.
Qed.

(** X4: a wind that is uniform over the grid has no convergence and no
    vorticity: for any spacings, in either orientation and in the default
    one, [h_convergence] and [v_vorticity] return the field of zeros. *)
Theorem uniform_wind_gives_zero (u v dx dy : quantity R) (m n : nat) (cu cv : R)
    (kwargs : dict R) :
  grid_wind u v dx dy ->
  shape (magnitude u) = [m; n] ->
  shape (magnitude v) = [m; n] ->
  units u = units v ->
  units dx = units dy ->
  uniform_field u cu ->
  uniform_field v cv ->
  In kwargs [order_xy; order_yx; []] ->
  returns_field (returned (h_convergence (uv_args u v dx dy) kwargs))
                [m; n] (dim_div (units u) (units dx)) (fun _ => 0%R)
  /\ returns_field (returned (v_vorticity (uv_args u v dx dy) kwargs))
                   [m; n] (dim_div (units u) (units dx)) (fun _ => 0%R).
Proof.
  intros G Su Sv Uv Ud Cu Cv K.
  destruct (samples_2 _ m n Su (proj1 (proj2 (proj2 G)))) as [M N].
  assert (forall k d idx, in_bounds [m; n] idx -> k < 2 -> d_axis u k d idx = 0%R) as Zu
    by (intros; now apply (d_axis_uniform u d m n cu)).
  assert (forall k d idx, in_bounds [m; n] idx -> k < 2 -> d_axis v k d idx = 0%R) as Zv
    by (intros; now apply (d_axis_uniform v d m n cv)).
  assert (returns_field (returned (h_convergence (uv_args u v dx dy) order_xy))
                        [m; n] (dim_div (units u) (units dx)) (fun _ => 0%R)
          /\ returns_field (returned (v_vorticity (uv_args u v dx dy) order_xy))
                           [m; n] (dim_div (units u) (units dx)) (fun _ => 0%R)) as XY.
  { destruct (uv_formulas_xy u v dx dy m n G Su Sv Uv Ud) as [V [C _]]. split.
    - apply (returns_field_ext _ _ _ _ _ C). intros idx B. simpl.
      rewrite Zu, Zv by (trivial; lia). lra.
    - apply (returns_field_ext _ _ _ _ _ V). intros idx B. simpl.
      rewrite Zu, Zv by (trivial; lia). lra. }
  simpl in K. destruct K as [<-|[<-|[<-|[]]]]; trivial.
  destruct (uv_formulas_yx u v dx dy G) as [V [C _]]. rewrite V, C. split.
  - apply (returns_field_ext _ _ _
             (fun idx => fadd (get (magnitude (partial u 1 dx)) idx)
                              (get (magnitude (partial v 0 dy)) idx))).
    + apply (additive_field fadd (partial u 1 dx) (partial v 0 dy) [m; n]); trivial.
      simpl. rewrite Uv, Ud. apply dim_eqb_refl.
    + intros idx B. fold (d_axis u 1 dx idx). fold (d_axis v 0 dy idx).
      rewrite Zu, Zv by (trivial; lia). simpl. lra.
  - replace (dim_div (units u) (units dx)) with (units (partial v 1 dx))
      by (simpl; now rewrite Uv).
    apply (returns_field_ext _ _ _
             (fun idx => fsub (get (magnitude (partial v 1 dx)) idx)
                              (get (magnitude (partial u 0 dy)) idx))).
    + apply (additive_field fsub (partial v 1 dx) (partial u 0 dy) [m; n]); trivial.
      simpl. rewrite Uv, Ud. apply dim_eqb_refl.
    + intros idx B. fold (d_axis v 1 dx idx). fold (d_axis u 0 dy idx).
      rewrite Zu, Zv by (trivial; lia). simpl. lra.
Qed.

Lemma uniform_wind_gives_zero_witness :
  grid_wind (uniform_R 3 3 1 dim_speed) (uniform_R 3 3 1 dim_speed)
            (rdist 1 dim_meter) (rdist 2 dim_meter)
  /\ uniform_field (uniform_R 3 3 1 dim_speed) 1%R
  /\ In (order_xy : dict R) [order_xy; order_yx; []]
  /\ returns_field
       (returned (h_convergence
                    (uv_args (uniform_R 3 3 1 dim_speed) (uniform_R 3 3 1 dim_speed)
                             (rdist 1 dim_meter) (rdist 2 dim_meter)) order_xy))
       [3; 3] (dim_div dim_speed dim_meter) (fun _ => 0%R).
Proof.
  assert (grid_wind (uniform_R 3 3 1 dim_speed) (uniform_R 3 3 1 dim_speed)
                    (rdist 1 dim_meter) (rdist 2 dim_meter)) as G.
  { repeat split; repeat constructor. }
  assert (uniform_field (uniform_R 3 3 1 dim_speed) 1%R) as U by (intros idx _; reflexivity).
  assert (In (order_xy : dict R) [order_xy; order_yx; []]) as K by (left; reflexivity).
  split; [exact G|]. split; [exact U|]. split; [exact K|].
  exact (proj1 (uniform_wind_gives_zero _ _ _ _ 3 3 1%R 1%R order_xy
                  G eq_refl eq_refl eq_refl eq_refl U U K)).
Defined.

(** ** Advection on a 2-D grid *)

Lemma shape_eqb_refl (s : list nat) : shape_eqb s s = true.
Proof.
  unfold shape_eqb. rewrite Nat.eqb_refl. simpl.
  induction s as [|a s IH]; simpl; trivial. now rewrite Nat.eqb_refl.
Qed.

Section Advection2D.

Context {F : Type} `{Arith F}.

Lemma stack_pair (a b : quantity F) :
  shape (magnitude b) = shape (magnitude a) ->
  units b = units a ->
  stack_quantities [a; b]
  = Ok (mk_q (mk_nd (2 :: shape (magnitude a))
                    (fun idx => get (magnitude (nth (hd 0 idx) [a; b] a)) (tl idx)))
             (units a)).
Proof.
  intros S U. unfold stack_quantities. simpl.
  now rewrite U, S, dim_eqb_refl, shape_eqb_refl.
Qed.

(** The advection before the sum over the components: the stacked product
    [-grad * wind] of the two gradient components with the two wind
    components, the wind reversed so that [v] meets the derivative along
    axis 0 and [u] the derivative along axis 1. *)
Lemma advection_raw_elements (s u v dx dy : quantity F) (m n : nat) :
  scalar_on_grid s u v dx dy m n ->
  returns_field
    (advection_raw s (VSeq [VQ u; VQ v]) (VSeq [VQ dx; VQ dy]))
    [m; n] (dim_mul (dim_div (units s) (units dy)) (units u))
    (fun idx =>
       fadd (fadd (fofZ 0)
                  (fmul (fopp (d_axis s 0 dy idx)) (get (magnitude v) idx)))
            (fmul (fopp (d_axis s 1 dx idx)) (get (magnitude u) idx))).
Proof.
  intros [Ss [Su [Sv [M [N [Sx [Sy [Uv Ud]]]]]]]].
  unfold advection_raw, _stack. cbn [iterate mapM as_quantity bind].
  rewrite (stack_pair u v) by congruence. cbn [bind].
  assert (q_ndim s = 2) as Ns by (unfold q_ndim, ndim; now rewrite Ss).
  rewrite (_gradient_partials s [dy; dx]);
    [| rewrite Ns; simpl; lia
     | now repeat constructor
     | unfold samples_everywhere; rewrite Ss; now repeat constructor ].
  rewrite Ns. cbn [Nat.eqb]. unfold partials. rewrite Ns.
  cbn [seq map nth pyval_of_grad iterate mapM as_quantity bind].
  rewrite (stack_pair (partial s 0 dy) (partial s 1 dx));
    [| reflexivity | simpl; now rewrite Ud].
  cbn [bind]. unfold q_atleast_2d, q_mul, nd_map2, q_ndim, ndim.
  cbn -[bidx broadcast_shapes dim_mul dim_div Nat.ltb nd_atleast_2d].
  rewrite Su, Ss.
  cbn -[bidx broadcast_shapes dim_mul dim_div].
  rewrite broadcast_shapes_same.
  cbn -[bidx dim_mul dim_div].
  eexists. split; [reflexivity|]. cbn -[bidx dim_mul dim_div].
  split; [reflexivity|]. split; [reflexivity|].
  intros idx B.
  assert (forall k, k < 2 -> bidx [2; m; n] (k :: idx) = k :: idx) as X.
  { intros k K. apply bidx_in_bounds. constructor; trivial. }
  rewrite !X by lia. unfold d_axis, partial, grad_axis. simpl. rewrite Ss. reflexivity.
Qed.

End Advection2D.

(** X5: on a 2-D grid in the canonical orientation, with the wind given
    as [[u, v]] and the deltas as [(dx, dy)], [advection] returns
    [-(u ds/dx + v ds/dy)], x being the last axis, in the unit of the scalar
    per delta times the unit of the wind. *)
Theorem advection_in_yx_order (s u v dx dy : quantity R) (m n : nat) :
  scalar_on_grid s u v dx dy m n ->
  returns_field
    (returned (advection (advection_args s u v dx dy) order_yx))
    [m; n] (dim_mul (dim_div (units s) (units dy)) (units u))
    (fun idx => (- (d_axis s 1 dx idx * get (magnitude u) idx
                    + d_axis s 0 dy idx * get (magnitude v) idx))%R).
Proof.
  intros G.
  apply (returns_field_ext _ _ _ _ _ (advection_raw_elements s u v dx dy m n G)).
  intros idx B. simpl. ring.
Qed.

Lemma sample_scalar_on_grid :
  scalar_on_grid (rfield [[1; 2; 4]; [4; 8; 4]; [8; 6; 4]]%Z dim_kelvin)
                 (rfield [[0; 1; 2]; [3; 4; 5]; [6; 7; 8]]%Z dim_speed)
                 (rfield [[0; 2; 4]; [6; 8; 10]; [12; 14; 16]]%Z dim_speed)
                 (rdist 2 dim_meter) (rdist 1 dim_meter) 3 3.
Proof.
  unfold scalar_on_grid. repeat split; try reflexivity; repeat constructor.
Qed.

Lemma advection_in_yx_order_witness :
  scalar_on_grid (rfield [[1; 2; 4]; [4; 8; 4]; [8; 6; 4]]%Z dim_kelvin)
                 (rfield [[0; 1; 2]; [3; 4; 5]; [6; 7; 8]]%Z dim_speed)
                 (rfield [[0; 2; 4]; [6; 8; 10]; [12; 14; 16]]%Z dim_speed)
                 (rdist 2 dim_meter) (rdist 1 dim_meter) 3 3
  /\ exists q,
       returned (advection
                   (advection_args
                      (rfield [[1; 2; 4]; [4; 8; 4]; [8; 6; 4]]%Z dim_kelvin)
                      (rfield [[0; 1; 2]; [3; 4; 5]; [6; 7; 8]]%Z dim_speed)
                      (rfield [[0; 2; 4]; [6; 8; 10]; [12; 14; 16]]%Z dim_speed)
                      (rdist 2 dim_meter) (rdist 1 dim_meter)) order_yx)
       = Ok (VQ q)
       /\ shape (magnitude q) = [3; 3].
Proof.
  split; [exact sample_scalar_on_grid|].
  destruct (advection_in_yx_order _ _ _ _ _ 3 3 sample_scalar_on_grid)
    as [q [E [S _]]].
  exists q. split; [exact E | exact S].
Defined.

Section AdvectionXY.

Context {F : Type} `{Arith F}.

(** Flipping a returned 2-D field mirrors its indices. *)
Lemma flip_returns_field (r : result (pyval F)) (m n : nat) (d : dimension)
    (f : list nat -> F) :
  returns_field r [n; m] d f ->
  returns_field (fmap _check_and_flip r) [m; n] d (fun idx => f (rev idx)).
Proof.
  intros [q [-> [S [U V]]]]. cbn -[Nat.leb]. unfold q_ndim, ndim. rewrite S.
  cbn. eexists. split; [reflexivity|]. simpl. rewrite S. repeat split; trivial.
  intros idx B. apply V. now apply in_bounds_rev in B.
Qed.

Lemma scalar_on_grid_transpose (s u v dx dy : quantity F) (m n : nat) :
  scalar_on_grid s u v dx dy m n ->
  scalar_on_grid (q_transpose s) (q_transpose u) (q_transpose v) dx dy n m.
Proof.
  intros [Ss [Su [Sv [M [N [Sx [Sy [Uv Ud]]]]]]]]. unfold scalar_on_grid. simpl.
  rewrite Ss, Su, Sv. repeat split; trivial.
Qed.

Lemma advection_call_xy (s u v dx dy : quantity F) (m n : nat) :
  scalar_on_grid s u v dx dy m n ->
  returned (advection (advection_args s u v dx dy) order_xy)
  = fmap _check_and_flip
      (advection_raw (q_transpose s) (VSeq [VQ (q_transpose u); VQ (q_transpose v)])
                     (VSeq [VQ dx; VQ dy])).
Proof.
  intros [Ss [Su [Sv [M [N [Sx [Sy [Uv Ud]]]]]]]].
  unfold advection, advection_args, is_scalar, q_ndim, ndim in *.
  cbn -[Nat.leb advection_raw]. unfold q_ndim, ndim.
  rewrite Ss, Su, Sv, Sx, Sy. reflexivity.
Qed.

(** The advection with x along the leading axis, before the sum is
    simplified. *)
Lemma advection_xy_elements (s u v dx dy : quantity F) (m n : nat) :
  scalar_on_grid s u v dx dy m n ->
  returns_field
    (returned (advection (advection_args s u v dx dy) order_xy))
    [m; n] (dim_mul (dim_div (units s) (units dy)) (units u))
    (fun idx =>
       fadd (fadd (fofZ 0)
                  (fmul (fopp (d_axis s 1 dy idx)) (get (magnitude v) idx)))
            (fmul (fopp (d_axis s 0 dx idx)) (get (magnitude u) idx))).
Proof.
  intros G. rewrite (advection_call_xy s u v dx dy m n G).
  pose proof (flip_returns_field _ _ _ _ _
                (advection_raw_elements _ _ _ _ _ n m
                   (scalar_on_grid_transpose s u v dx dy m n G))) as R.
  simpl units in R.
  apply (returns_field_ext _ _ _ _ _ R).
  intros idx B. destruct (in_bounds_2 _ _ _ B) as [i [j [-> _]]].
  destruct G as [Ss _]. simpl rev.
  unfold d_axis at 1 2.
  rewrite (proj1 (partial_transpose_get s dx m n i j Ss)),
          (proj2 (partial_transpose_get s dy m n i j Ss)).
  reflexivity.
Qed.

End AdvectionXY.

(** X6: with [dim_order="xy"] (and by default) the arrays are indexed
    x first, as the docstring of [advection] says: the wind given as
    [[u, v]] with deltas [(dx, dy)] yields [-(u ds/dx + v ds/dy)] with x
    along the leading axis, on the caller's grid. *)
Theorem advection_in_xy_order (s u v dx dy : quantity R) (m n : nat) (kwargs : dict R) :
  scalar_on_grid s u v dx dy m n ->
  kwargs = order_xy \/ kwargs = [] ->
  returns_field
    (returned (advection (advection_args s u v dx dy) kwargs))
    [m; n] (dim_mul (dim_div (units s) (units dy)) (units u))
    (fun idx => (- (d_axis s 0 dx idx * get (magnitude u) idx
                    + d_axis s 1 dy idx * get (magnitude v) idx))%R).
Proof.
  intros G K.
  assert (returned (advection (advection_args s u v dx dy) kwargs)
          = returned (advection (advection_args s u v dx dy) order_xy)) as ->
    by (destruct K as [-> | ->]; reflexivity).
  apply (returns_field_ext _ _ _ _ _ (advection_xy_elements s u v dx dy m n G)).
  intros idx B. simpl. ring.
Qed.

Lemma advection_in_xy_order_witness :
  scalar_on_grid (rfield [[1; 2; 4]; [4; 8; 4]; [8; 6; 4]]%Z dim_kelvin)
                 (rfield [[0; 1; 2]; [3; 4; 5]; [6; 7; 8]]%Z dim_speed)
                 (rfield [[0; 2; 4]; [6; 8; 10]; [12; 14; 16]]%Z dim_speed)
                 (rdist 2 dim_meter) (rdist 1 dim_meter) 3 3
  /\ exists q,
       returned (advection
                   (advection_args
                      (rfield [[1; 2; 4]; [4; 8; 4]; [8; 6; 4]]%Z dim_kelvin)
                      (rfield [[0; 1; 2]; [3; 4; 5]; [6; 7; 8]]%Z dim_speed)
                      (rfield [[0; 2; 4]; [6; 8; 10]; [12; 14; 16]]%Z dim_speed)
                      (rdist 2 dim_meter) (rdist 1 dim_meter)) [])
       = Ok (VQ q)
       /\ shape (magnitude q) = [3; 3].
Proof.
  split; [exact sample_scalar_on_grid|].
  destruct (advection_in_xy_order _ _ _ _ _ 3 3 [] sample_scalar_on_grid
              (or_intror eq_refl))
    as [q [E [S _]]].
  exists q. split; [exact E | exact S].
Defined.

(** X7: the advection of a scalar field that is uniform over the grid is
    zero everywhere, whatever the wind, in either orientation and in the
    default one. *)
Theorem advection_of_uniform_scalar (s u v dx dy : quantity R) (m n : nat) (c : R)
    (kwargs : dict R) :
  scalar_on_grid s u v dx dy m n ->
  uniform_field s c ->
  In kwargs [order_xy; order_yx; []] ->
  returns_field
    (returned (advection (advection_args s u v dx dy) kwargs))
    [m; n] (dim_mul (dim_div (units s) (units dy)) (units u))
    (fun _ => 0%R).
Proof.
  intros G U K.
  assert (forall k d idx, in_bounds [m; n] idx -> k < 2 -> d_axis s k d idx = 0%R) as Z.
  { destruct G as [Ss [_ [_ [M [N _]]]]].
    intros. now apply (d_axis_uniform s d m n c). }
  simpl in K. destruct K as [<-|[<-|[<-|[]]]].
  - apply (returns_field_ext _ _ _ _ _ (advection_xy_elements s u v dx dy m n G)).
    intros idx B. rewrite !Z by (trivial; lia). simpl. ring.
  - apply (returns_field_ext _ _ _ _ _ (advection_raw_elements s u v dx dy m n G)).
    intros idx B. rewrite !Z by (trivial; lia). simpl. ring.
  - assert (returned (advection (advection_args s u v dx dy) [])
            = returned (advection (advection_args s u v dx dy) order_xy)) as ->
      by reflexivity.
    apply (returns_field_ext _ _ _ _ _ (advection_xy_elements s u v dx dy m n G)).
    intros idx B. rewrite !Z by (trivial; lia). simpl. ring.
Qed.

Lemma advection_of_uniform_scalar_witness :
  scalar_on_grid (uniform_R 3 3 1 dim_kelvin)
                 (rfield [[0; 1; 2]; [3; 4; 5]; [6; 7; 8]]%Z dim_speed)
                 (rfield [[0; 2; 4]; [6; 8; 10]; [12; 14; 16]]%Z dim_speed)
                 (rdist 2 dim_meter) (rdist 1 dim_meter) 3 3
  /\ uniform_field (uniform_R 3 3 1 dim_kelvin) 1%R
  /\ In (order_xy : dict R) [order_xy; order_yx; []]
  /\ returns_field
       (returned (advection
                    (advection_args (uniform_R 3 3 1 dim_kelvin)
                       (rfield [[0; 1; 2]; [3; 4; 5]; [6; 7; 8]]%Z dim_speed)
                       (rfield [[0; 2; 4]; [6; 8; 10]; [12; 14; 16]]%Z dim_speed)
                       (rdist 2 dim_meter) (rdist 1 dim_meter)) order_xy))
       [3; 3] (dim_mul (dim_div dim_kelvin dim_meter) dim_speed) (fun _ => 0%R).
Proof.
  assert (scalar_on_grid (uniform_R 3 3 1 dim_kelvin)
            (rfield [[0; 1; 2]; [3; 4; 5]; [6; 7; 8]]%Z dim_speed)
            (rfield [[0; 2; 4]; [6; 8; 10]; [12; 14; 16]]%Z dim_speed)
            (rdist 2 dim_meter) (rdist 1 dim_meter) 3 3) as G
    by (unfold scalar_on_grid; repeat split; try reflexivity; repeat constructor).
  assert (uniform_field (uniform_R 3 3 1 dim_kelvin) 1%R) as U
    by (intros idx _; reflexivity).
  assert (In (order_xy : dict R) [order_xy; order_yx; []]) as K by (left; reflexivity).
  split; [exact G|]. split; [exact U|]. split; [exact K|].
  exact (advection_of_uniform_scalar _ _ _ _ _ 3 3 1%R order_xy G U K).
Defined.

(** ** Fields of the wrong rank *)

Section WrongRank.

Context {F : Type} `{Arith F}.

Lemma _gradient_flat (f dy dx : quantity F) :
  q_ndim f <= 1 -> _gradient f [dy; dx] = Err GradientArguments.
Proof.
  intros N. unfold _gradient, pad_args, np_gradient. simpl length.
  assert ((2 <? q_ndim f) = false) as -> by (apply Nat.ltb_ge; lia).
  cbn [map length]. fold (q_ndim f).
  assert ((2 =? q_ndim f) = false) as -> by (apply Nat.eqb_neq; lia).
  reflexivity.
Qed.

Lemma _gradient_deep (f dy dx : quantity F) :
  3 <= q_ndim f -> samples_everywhere (magnitude f) ->
  is_scalar dx -> is_scalar dy ->
  exists g0 g1 g2 gs, _gradient f [dy; dx] = Ok (Many (g0 :: g1 :: g2 :: gs)).
Proof.
  intros N E Sx Sy.
  rewrite _gradient_partials; trivial; [|simpl; lia | now repeat constructor].
  assert ((q_ndim f =? 1) = false) as -> by (apply Nat.eqb_neq; lia).
  unfold partials.
  destruct (q_ndim f) as [|[|[|k]]]; try lia. simpl. eauto.
Qed.

Lemma wind_formulas_start body (u v dx dy : quantity F) (e : exn) :
  In body wind_formulas_raw ->
  _get_gradients u v dx dy = Err e ->
  body u v dx dy = Err e.
Proof.
  intros I E. simpl in I.
  destruct I as [<-|[<-|[<-|[<-|[<-|[<-|[]]]]]]];
    unfold v_vorticity_raw, h_convergence_raw, convergence_vorticity_raw,
      shearing_deformation_raw, stretching_deformation_raw,
      shearing_stretching_deformation_raw; now rewrite E.
Qed.

Lemma wind_formulas_calls formula :
  In formula wind_formulas ->
  exists body, In body wind_formulas_raw /\ formula = ensure_yx_order (call4 uvxy body).
Proof.
  intros I. simpl in I.
  destruct I as [<-|[<-|[<-|[<-|[<-|[<-|[]]]]]]]; eexists; (split; [|reflexivity]);
    simpl; tauto.
Qed.

Lemma flip_quantity (q : quantity F) :
  exists q', _check_and_flip (VQ q) = VQ q'
             /\ q_ndim q' = q_ndim q
             /\ (samples_everywhere (magnitude q) -> samples_everywhere (magnitude q')).
Proof.
  cbn [_check_and_flip]. destruct (2 <=? q_ndim q).
  - exists (q_transpose q). split; trivial. split.
    + unfold q_ndim, ndim. simpl. apply length_rev.
    + apply samples_everywhere_transpose.
  - exists q. auto.
Qed.

Lemma flip_scalar (q : quantity F) : is_scalar q -> _check_and_flip (VQ q) = VQ q.
Proof. unfold is_scalar. intros S. cbn [_check_and_flip]. now rewrite S. Qed.

(** X8: the formulas of the wind accept fields with exactly two axes.  In
    either orientation, a field [u] with fewer axes makes numpy's gradient
    refuse the two spacings (its TypeError for an invalid number of
    arguments), and a field with three or more axes, sampled at least twice
    along each and with scalar spacings, has its gradients computed and then
    fails the unpacking into two derivatives. *)
Theorem wind_formulas_need_two_axes formula (u v dx dy : quantity F) (kwargs : dict F) :
  In formula wind_formulas ->
  kwargs = order_xy \/ kwargs = order_yx ->
  (q_ndim u <= 1 ->
   returned (formula (uv_args u v dx dy) kwargs) = Err GradientArguments)
  /\ (3 <= q_ndim u -> samples_everywhere (magnitude u) ->
      is_scalar dx -> is_scalar dy ->
      returned (formula (uv_args u v dx dy) kwargs) = Err UnpackError).
Proof.
  intros I K. destruct (wind_formulas_calls formula I) as [body [Ib ->]].
  assert (forall u' v' dx' dy', q_ndim u' <= 1 -> body u' v' dx' dy' = Err GradientArguments)
    as Flat.
  { intros u' v' dx' dy' N. apply wind_formulas_start; trivial.
    unfold _get_gradients. now rewrite _gradient_flat. }
  assert (forall u' v' dx' dy', 3 <= q_ndim u' -> samples_everywhere (magnitude u') ->
            is_scalar dx' -> is_scalar dy' -> body u' v' dx' dy' = Err UnpackError)
    as Deep.
  { intros u' v' dx' dy' N E Sx Sy. apply wind_formulas_start; trivial.
    unfold _get_gradients.
    destruct (_gradient_deep u' dy' dx' N E Sx Sy) as [g0 [g1 [g2 [gs ->]]]].
    reflexivity. }
  destruct (flip_quantity u) as [u' [Fu [Nu Eu]]].
  destruct (flip_quantity v) as [v' [Fv _]].
  destruct (flip_quantity dx) as [dx' [Fx _]].
  destruct (flip_quantity dy) as [dy' [Fy _]].
  unfold uv_args. destruct K as [-> | ->].
  - assert (returned (ensure_yx_order (call4 uvxy body) [VQ u; VQ v; VQ dx; VQ dy] order_xy)
            = fmap _check_and_flip (body u' v' dx' dy')) as ->.
    { cbn -[_check_and_flip]. rewrite Fu, Fv, Fx, Fy. reflexivity. }
    split.
    + intros N. rewrite Flat by lia. reflexivity.
    + intros N E Sx Sy. rewrite (flip_scalar dx Sx) in Fx. rewrite (flip_scalar dy Sy) in Fy.
      injection Fx as <-. injection Fy as <-.
      assert (3 <= q_ndim u') as N' by (rewrite Nu; exact N).
      rewrite (Deep u' v' dx dy N' (Eu E) Sx Sy). reflexivity.
  - rewrite call_yx by reflexivity. split.
    + apply Flat.
    + apply Deep.
Qed.

End WrongRank.

Lemma wind_formulas_need_two_axes_witness :
  In (@v_vorticity Q _) wind_formulas
  /\ ((order_yx : dict Q) = order_xy \/ (order_yx : dict Q) = order_yx)
  /\ returned (v_vorticity
                 (uv_args (mk_q (of_list1 [1; 2; 3]%Q) dim_speed)
                          (mk_q (of_list1 [1; 2; 3]%Q) dim_speed)
                          (qdist 1 dim_meter) (qdist 1 dim_meter)) order_yx)
     = Err GradientArguments.
Proof.
  assert (In (@v_vorticity Q _) wind_formulas) as I by (left; reflexivity).
  assert ((order_yx : dict Q) = order_xy \/ (order_yx : dict Q) = order_yx) as K
    by (right; reflexivity).
  split; [exact I|]. split; [exact K|].
  apply (proj1 (wind_formulas_need_two_axes v_vorticity _ _ _ _ order_yx I K)).
  cbv. lia.
Defined.

(** ** The wrapper: orientation flags and the round trip of the flip *)

Section Wrapper.

Context {F : Type} `{Arith F}.

Lemma q_transpose_involutive (q : quantity F) : q_eq (q_transpose (q_transpose q)) q.
Proof.
  split; [|reflexivity]. split; simpl.
  - apply rev_involutive.
  - intros idx _. now rewrite rev_involutive.
Qed.

(** X9: flipping is its own inverse: what was transposed on the way in
    is, transposed again on the way out, element for element the original,
    also inside sequences; scalars and 1-D arrays are never touched. *)
Theorem flip_round_trip :
  forall v : pyval F, val_equiv (_check_and_flip (_check_and_flip v)) v.
Proof.
  fix IH 1. intros [q| | | | |l]; try apply equiv_same.
  - cbn [_check_and_flip]. destruct (2 <=? q_ndim q) eqn:E.
    + cbn [_check_and_flip].
      assert (q_ndim (q_transpose q) = q_ndim q) as ->
        by (unfold q_ndim, ndim; simpl; apply length_rev).
      rewrite E. apply equiv_quantity, q_transpose_involutive.
    + cbn [_check_and_flip]. rewrite E. apply equiv_same.
  - cbn [_check_and_flip]. apply equiv_sequence.
    induction l as [|a l IHl]; simpl; constructor; [apply IH | exact IHl].
Qed.

(** X10: leaving [dim_order] out, or passing [None], changes nothing but
    the warning: the call returns what [dim_order="xy"] returns and emits
    the one FutureWarning, while an explicit order emits none. *)
Theorem default_orientation (func : pyfun F) (args : list (pyval F)) (kwargs : dict F) :
  dict_find "dim_order" kwargs = None ->
  returned (ensure_yx_order func args kwargs)
  = returned (ensure_yx_order func args (("dim_order"%string, VStr "xy") :: kwargs))
  /\ ensure_yx_order func args (("dim_order"%string, VNone) :: kwargs)
     = ensure_yx_order func args kwargs
  /\ warnings (ensure_yx_order func args kwargs) = [FutureWarning]
  /\ forall s, warnings (ensure_yx_order func args (("dim_order"%string, VStr s) :: kwargs))
               = [].
Proof.
  intros A. unfold ensure_yx_order. rewrite !dict_pop_spec.
  cbn [dict_find dict_remove String.eqb Ascii.eqb Bool.eqb].
  rewrite A, (dict_remove_absent _ _ A). cbn.
  repeat split. intros s. destruct (String.eqb s "xy"); reflexivity.
Qed.

(** X11: the orientation is compared with ["xy"] and nothing else: any
    other string, misspelt or not, is taken for ["yx"] without an error or a
    warning, and the function is called on the arguments as they are. *)
Theorem unknown_orientation_is_yx (func : pyfun F) (args : list (pyval F))
    (kwargs : dict F) (s : string) :
  s <> "xy"%string ->
  ensure_yx_order func args (("dim_order"%string, VStr s) :: kwargs)
  = ensure_yx_order func args (("dim_order"%string, VStr "yx") :: kwargs)
  /\ returned (ensure_yx_order func args (("dim_order"%string, VStr s) :: kwargs))
     = func args (dict_remove "dim_order" kwargs)
  /\ warnings (ensure_yx_order func args (("dim_order"%string, VStr s) :: kwargs)) = [].
Proof.
  intros N. apply String.eqb_neq in N.
  unfold ensure_yx_order. rewrite !dict_pop_spec.
  cbn [dict_find dict_remove String.eqb Ascii.eqb Bool.eqb _is_x_first_dim].
  rewrite N. cbn. repeat split.
Qed.

End Wrapper.

Lemma default_orientation_witness :
  dict_find "dim_order" ([] : dict Q) = None
  /\ returned (v_vorticity ramp_args [])
     = returned (v_vorticity ramp_args [("dim_order"%string, VStr "xy")])
  /\ warnings (v_vorticity ramp_args []) = [FutureWarning].
Proof.
  split; [reflexivity|].
  destruct (default_orientation (call4 uvxy v_vorticity_raw) ramp_args [] eq_refl)
    as [R [_ [W _]]].
  split; [exact R | exact W].
Defined.

Lemma unknown_orientation_is_yx_witness :
  "XY"%string <> "xy"%string
  /\ v_vorticity ramp_args [("dim_order"%string, VStr "XY")]
     = v_vorticity ramp_args [("dim_order"%string, VStr "yx")].
Proof.
  assert ("XY"%string <> "xy"%string) as N by discriminate.
  split; [exact N|].
  exact (proj1 (unknown_orientation_is_yx (call4 uvxy v_vorticity_raw) ramp_args [] "XY" N)).
Defined.

(** ** More on storm-relative helicity *)

Lemma Rsum_positive_parts (l : list R) : (0 <= Rsum (map positive_part l))%R.
Proof.
  induction l as [|x l IH]; simpl; [lra|].
  unfold positive_part at 1. destruct (Rlt_dec 0 x); lra.
Qed.

Lemma Rsum_negative_parts (l : list R) : (Rsum (map negative_part l) <= 0)%R.
Proof.
  induction l as [|x l IH]; simpl; [lra|].
  unfold negative_part at 1. destruct (Rlt_dec x 0); lra.
Qed.

Lemma Rsum_parts (l : list R) :
  (Rsum (map positive_part l) + Rsum (map negative_part l))%R = Rsum l.
Proof.
  induction l as [|x l IH]; simpl; [lra|].
  unfold positive_part at 1, negative_part at 1.
  destruct (Rlt_dec 0 x), (Rlt_dec x 0); lra.
Qed.

Lemma srh_returns_layers (fill : R) (u v p top hgt : pyval R)
    (bottom storm_u storm_v dp exact : option (pyval R)) (r : pyval R) :
  storm_relative_helicity fill u v p top hgt bottom storm_u storm_v dp exact = Ok r ->
  exists layers, r = helicity_of_layers layers.
Proof.
  intros E. unfold storm_relative_helicity in E.
  repeat (apply bind_ok in E; destruct E as [? [_ E]]).
  match type of E with (match ?x with _ => _ end) = _ => destruct x end.
  unfold integrate_helicity in E.
  apply bind_ok in E. destruct E as [layers [_ E]].
  injection E as <-. now exists layers.
Qed.

(** X12: whenever [storm_relative_helicity] returns, the positive
    helicity is non-negative, the negative helicity is non-positive, and the
    total, their sum, lies between the two. *)
Theorem helicity_signs (fill : R) (u v p top hgt : pyval R)
    (bottom storm_u storm_v dp exact : option (pyval R)) (r : pyval R) :
  storm_relative_helicity fill u v p top hgt bottom storm_u storm_v dp exact = Ok r ->
  exists p_srh n_srh,
    r = helicity_triple p_srh n_srh (p_srh + n_srh)%R
    /\ (0 <= p_srh)%R /\ (n_srh <= 0)%R
    /\ (n_srh <= p_srh + n_srh <= p_srh)%R.
Proof.
  intros E. destruct (srh_returns_layers _ _ _ _ _ _ _ _ _ _ _ _ E) as [layers ->].
  exists (Rsum (map positive_part layers)), (Rsum (map negative_part layers)).
  pose proof (Rsum_positive_parts layers). pose proof (Rsum_negative_parts layers).
  split; [apply helicity_of_cross_terms|]. repeat split; lra.
Qed.

Lemma helicity_signs_witness :
  exists r,
    srh_call 0%R sample_u sample_v sample_p sample_hgt 3000%R None false = Ok r
    /\ exists p_srh n_srh,
         r = helicity_triple p_srh n_srh (p_srh + n_srh)%R
         /\ (0 <= p_srh)%R /\ (n_srh <= 0)%R.
Proof.
  destruct sample_call_returns as [r E].
  exists r. split; [exact E|].
  destruct (helicity_signs _ _ _ _ _ _ _ _ _ _ _ _ E) as [p [n [R [P [N _]]]]].
  exists p, n. auto.
Defined.

(** X13: on winds of one length the total helicity is the sum of all the
    cross terms of neighbouring levels of the sub-profile that the function
    builds for the layer, minus the storm motion: the signed area swept by
    the hodograph. *)
Theorem total_helicity_is_signed_area (fill : R) (u v p hgt : list R) (top : R)
    (bottom : option R) (storm_u storm_v dp : R) (exact : bool)
    (u_int v_int : list R) :
  length u = length v ->
  layer_profile fill u v p hgt top (effective_bottom bottom) dp exact = Ok (u_int, v_int) ->
  let cross := cross_terms (map (fun x => (x - storm_u)%R) u_int)
                           (map (fun x => (x - storm_v)%R) v_int) in
  srh_full_call fill u v p hgt top bottom storm_u storm_v dp exact
  = Ok (helicity_triple (Rsum (map positive_part cross))
                        (Rsum (map negative_part cross))
                        (Rsum cross)).
Proof.
  intros L W. cbv zeta.
  destruct (srh_full_call_profile fill u v p hgt top bottom storm_u storm_v dp exact
              u_int v_int L W) as [_ ->].
  unfold helicity_of_profile. cbv zeta. now rewrite Rsum_parts.
Qed.

Lemma total_helicity_is_signed_area_witness :
  exists u_int v_int,
    length sample_u = length sample_v
    /\ layer_profile 0%R sample_u sample_v sample_p sample_hgt 3000%R
                     (effective_bottom None) (-1)%R false
       = Ok (u_int, v_int)
    /\ let cross := cross_terms (map (fun x => (x - 1)%R) u_int)
                                (map (fun x => (x - 2)%R) v_int) in
       srh_full_call 0%R sample_u sample_v sample_p sample_hgt 3000%R None
                     1%R 2%R (-1)%R false
       = Ok (helicity_triple (Rsum (map positive_part cross))
                             (Rsum (map negative_part cross))
                             (Rsum cross)).
Proof.
  destruct sample_layer_profile as [u_int [v_int W]].
  exists u_int, v_int. split; [reflexivity|]. split; [exact W|].
  exact (total_helicity_is_signed_area 0%R sample_u sample_v sample_p sample_hgt 3000%R
           None 1%R 2%R (-1)%R false u_int v_int eq_refl W).
Defined.

Lemma layer_pressures_raise (c : R) (p hgt : list R) (top : R) (bottom : option R) :
  layer_pressures p (raise_heights c hgt) top bottom = layer_pressures p hgt top bottom.
Proof.
  destruct hgt as [|h0 hgt]; [reflexivity|].
  unfold layer_pressures, raise_heights. cbn [map bind].
  assert (map (fun h => fsub h (h0 + c)%R) (map (fun h => (h + c)%R) hgt)
          = map (fun h => fsub h h0) hgt) as Hm.
  { rewrite map_map. apply map_ext. intros h. cbn. lra. }
  assert (fsub (h0 + c)%R (h0 + c)%R = fsub h0 h0) as H0 by (cbn; lra).
  now rewrite Hm, H0.
Qed.

(** X14: only the heights above the first level enter
    [storm_relative_helicity] ([hgt - hgt[0]]): a sounding whose heights
    are all raised by the same amount gives the same result, and the same
    exception where it raises. *)
Theorem helicity_ignores_height_datum (fill c : R) (u v p hgt : list R) (top : R)
    (bottom : option R) (exact : bool) :
  srh_call fill u v p (raise_heights c hgt) top bottom exact
  = srh_call fill u v p hgt top bottom exact.
Proof.
  rewrite !srh_call_layers. unfold layer_profile.
  now rewrite layer_pressures_raise.
Qed.

(** X15: a sounding without levels raises [IndexError] (at [hgt[0]]),
    and one whose heights and pressures differ in number raises the error
    of [np.interp] at the first interpolation. *)
Theorem malformed_sounding_raises (fill : R) (u v p hgt : list R) (top : R)
    (bottom : option R) (exact : bool) :
  hgt = [] \/ length hgt <> length p ->
  srh_call fill u v p hgt top bottom exact
  = Err (match hgt with [] => IndexError | _ :: _ => InterpError end).
Proof.
  intros M. rewrite srh_call_layers. unfold layer_profile, layer_pressures.
  destruct hgt as [|h0 hgt]; [reflexivity|].
  destruct M as [M|M]; [discriminate|].
  cbn [bind map]. unfold np_interp at 1.
  destruct p as [|p0 p]; [reflexivity|]. cbn [map].
  assert ((length (fsub h0 h0 :: map (fun h => fsub h h0) hgt)
           =? length (fln p0 :: map fln p)) = false) as ->.
  { apply Nat.eqb_neq. cbn [length]. rewrite !length_map. exact M. }
  reflexivity.
Qed.

Lemma malformed_sounding_raises_witness :
  srh_call 0%R sample_u sample_v sample_p [0%R] 3000%R None true = Err InterpError
  /\ srh_call 0%R sample_u sample_v sample_p [] 3000%R None true = Err IndexError.
Proof.
  split.
  - apply (malformed_sounding_raises 0%R sample_u sample_v sample_p [0%R] 3000%R None true).
    right. simpl. lia.
  - apply (malformed_sounding_raises 0%R sample_u sample_v sample_p [] 3000%R None true).
    left. reflexivity.
Defined.

(** *** the mirrored hodograph *)

Lemma combine_flip (op : R -> R -> R) (a b : list R) :
  map (fun p => op (fst p) (snd p)) (combine a b)
  = map (fun p => op (snd p) (fst p)) (combine b a).
Proof.
  revert b. induction a as [|x a IH]; intros [|y b]; simpl; trivial.
  now rewrite IH.
Qed.

Lemma zip_with_flip (op : R -> R -> R) (a b : list R) :
  zip_with op a b = zip_with (fun x y => op y x) b a.
Proof.
  unfold zip_with. rewrite (Nat.eqb_sym (length b)).
  destruct (length a =? length b) eqn:E.
  - now rewrite combine_flip.
  - destruct a as [|x [|x' a]], b as [|y [|y' b]]; trivial; discriminate.
Qed.

Lemma zip_with_ext (op op' : R -> R -> R) (a b : list R) :
  (forall x y, op x y = op' x y) -> zip_with op a b = zip_with op' a b.
Proof.
  intros X. unfold zip_with. destruct (length a =? length b).
  - f_equal. apply map_ext. intros [x y]. apply X.
  - destruct a as [|x [|x' a]], b as [|y [|y' b]]; trivial; f_equal;
      apply map_ext; intros; apply X.
Qed.

Lemma zip_with_opp (op : R -> R -> R) (a b : list R) :
  zip_with (fun x y => (- op x y)%R) a b = fmap (map Ropp) (zip_with op a b).
Proof.
  unfold zip_with. destruct (length a =? length b).
  - cbn [fmap bind]. now rewrite map_map.
  - destruct a as [|x [|x' a]], b as [|y [|y' b]]; trivial; cbn [fmap bind];
      now rewrite map_map.
Qed.

Lemma int_layers_mirror (su sv l : list R) :
  int_layers su sv = Ok l -> int_layers sv su = Ok (map Ropp l).
Proof.
  unfold int_layers. intros E.
  apply bind_ok in E. destruct E as [a [A E]].
  apply bind_ok in E. destruct E as [b [B E]].
  rewrite (zip_with_flip fmul (tl sv)),
          (zip_with_ext _ fmul (removelast su) (tl sv)), B
    by (intros; cbn; lra).
  cbn [bind].
  rewrite (zip_with_flip fmul (removelast sv)),
          (zip_with_ext _ fmul (tl su) (removelast sv)), A
    by (intros; cbn; lra).
  cbn [bind].
  rewrite (zip_with_flip fsub b a),
          (zip_with_ext _ (fun x y => (- fsub x y)%R) a b)
    by (intros; cbn; lra).
  now rewrite zip_with_opp, E.
Qed.

Lemma Rsum_positive_mirror (l : list R) :
  Rsum (map positive_part (map Ropp l)) = (- Rsum (map negative_part l))%R.
Proof.
  induction l as [|x l IH]; [simpl; lra|].
  cbn [map Rsum fold_right]. fold (Rsum (map positive_part (map Ropp l))).
  fold (Rsum (map negative_part l)). rewrite IH.
  unfold positive_part, negative_part.
  destruct (Rlt_dec 0 (- x)), (Rlt_dec x 0); lra.
Qed.

Lemma Rsum_negative_mirror (l : list R) :
  Rsum (map negative_part (map Ropp l)) = (- Rsum (map positive_part l))%R.
Proof.
  induction l as [|x l IH]; [simpl; lra|].
  cbn [map Rsum fold_right]. fold (Rsum (map negative_part (map Ropp l))).
  fold (Rsum (map positive_part l)). rewrite IH.
  unfold positive_part, negative_part.
  destruct (Rlt_dec (- x) 0), (Rlt_dec 0 x); lra.
Qed.

Lemma layer_winds_mirror (fill : R) (u v p : list R) (pb pt dp : R) (exact : bool) :
  layer_winds fill v u p pb pt dp exact
  = fmap (fun w => (snd w, fst w)) (layer_winds fill u v p pb pt dp exact).
Proof.
  unfold layer_winds. destruct exact; [|reflexivity].
  destruct (np_min _); [|reflexivity]. cbn [bind fmap].
  destruct (np_max _); reflexivity.
Qed.

(** X16: exchanging the two wind components mirrors the hodograph:
    the positive and the negative helicity change places and all three
    values change sign. *)
Theorem helicity_of_mirrored_wind (fill : R) (u v p hgt : list R) (top : R)
    (bottom : option R) (exact : bool) (r : pyval R) :
  srh_call fill u v p hgt top bottom exact = Ok r ->
  exists p_srh n_srh,
    r = helicity_triple p_srh n_srh (p_srh + n_srh)%R
    /\ srh_call fill v u p hgt top bottom exact
       = Ok (helicity_triple (- n_srh)%R (- p_srh)%R (- n_srh + - p_srh)%R).
Proof.
  rewrite !srh_call_layers. unfold layer_profile. intros E.
  apply bind_ok in E. destruct E as [[ui vi] [W E]].
  apply bind_ok in W. destruct W as [[pb pt] [P W]]. rewrite P. cbn [bind].
  rewrite layer_winds_mirror, W. cbn [bind fmap fst snd].
  unfold integrate_helicity in *.
  apply bind_ok in E. destruct E as [l [L E]]. injection E as <-.
  rewrite (int_layers_mirror _ _ _ L). cbn [bind].
  exists (Rsum (map positive_part l)), (Rsum (map negative_part l)).
  split; [apply helicity_of_cross_terms|].
  rewrite helicity_of_cross_terms.
  now rewrite Rsum_positive_mirror, Rsum_negative_mirror.
Qed.

Lemma helicity_of_mirrored_wind_witness :
  exists p_srh n_srh,
    srh_call 0%R sample_u sample_v sample_p sample_hgt 3000%R None false
    = Ok (helicity_triple p_srh n_srh (p_srh + n_srh)%R)
    /\ srh_call 0%R sample_v sample_u sample_p sample_hgt 3000%R None false
       = Ok (helicity_triple (- n_srh)%R (- p_srh)%R (- n_srh + - p_srh)%R).
Proof.
  destruct sample_call_returns as [r E].
  destruct (helicity_of_mirrored_wind _ _ _ _ _ _ _ _ _ E) as [p [n [R M]]].
  exists p, n. split; [|exact M]. now rewrite E, R.
Defined.

(** ** Wind components of different dimensions *)

Lemma dim_eqb_quotients (a b c d : dimension) :
  dim_eqb (dim_div a c) (dim_div b d) = true ->
  dim_eqb c d = true ->
  dim_eqb a b = true.
Proof.
  unfold dim_eqb, dim_div, dim_zip. cbn [d_length d_time d_mass d_angle d_temperature].
  rewrite !andb_true_iff, !Qeq_bool_iff, !Qred_correct.
  intros [[[[A1 A2] A3] A4] A5] [[[[C1 C2] C3] C4] C5].
  repeat split.
  - rewrite C1 in A1. now apply (Qplus_inj_r _ _ (- d_length d)).
  - rewrite C2 in A2. now apply (Qplus_inj_r _ _ (- d_time d)).
  - rewrite C3 in A3. now apply (Qplus_inj_r _ _ (- d_mass d)).
  - rewrite C4 in A4. now apply (Qplus_inj_r _ _ (- d_angle d)).
  - rewrite C5 in A5. now apply (Qplus_inj_r _ _ (- d_temperature d)).
Qed.

Lemma dim_eqb_sym (a b : dimension) : dim_eqb a b = dim_eqb b a.
Proof.
  unfold dim_eqb.
  assert (forall x y, Qeq_bool x y = Qeq_bool y x) as S.
  { intros x y. destruct (Qeq_bool x y) eqn:E, (Qeq_bool y x) eqn:E'; trivial.
    - apply Qeq_bool_iff in E. symmetry in E. apply Qeq_bool_iff in E. congruence.
    - apply Qeq_bool_iff in E'. symmetry in E'. apply Qeq_bool_iff in E'. congruence. }
  now rewrite (S (d_length a)), (S (d_time a)), (S (d_mass a)), (S (d_angle a)),
    (S (d_temperature a)).
Qed.

Section MixedDimensions.

Context {F : Type} `{Arith F}.

Lemma q_additive_mixed (op : F -> F -> F) (f f' : quantity F) (k k' : nat)
    (d d' : quantity F) :
  dim_eqb (units f) (units f') = false ->
  dim_eqb (units d) (units d') = true ->
  q_additive op (partial f k d) (partial f' k' d') = Err DimensionalityError.
Proof.
  intros M D. unfold q_additive. cbn [units partial].
  destruct (dim_eqb (dim_div (units f) (units d)) (dim_div (units f') (units d'))) eqn:E;
    [|reflexivity].
  rewrite (dim_eqb_quotients _ _ _ _ E D) in M. discriminate.
Qed.

Lemma wind_formulas_mixed body (u v dx dy : quantity F) :
  In body wind_formulas_raw ->
  grid_wind u v dx dy ->
  dim_eqb (units u) (units v) = false ->
  dim_eqb (units dx) (units dy) = true ->
  body u v dx dy = Err DimensionalityError.
Proof.
  intros I G M D.
  assert (dim_eqb (units v) (units u) = false) as M' by (now rewrite dim_eqb_sym).
  pose proof (_get_gradients_partials u v dx dy G) as E.
  simpl in I.
  destruct I as [<-|[<-|[<-|[<-|[<-|[<-|[]]]]]]];
    unfold v_vorticity_raw, h_convergence_raw, convergence_vorticity_raw,
      shearing_deformation_raw, stretching_deformation_raw,
      shearing_stretching_deformation_raw, q_add, q_sub;
    rewrite E; cbn [bind];
    rewrite q_additive_mixed by assumption; reflexivity.
Qed.

(** X17: the formulas of the wind never combine components of different
    dimensions silently.  On a 2-D grid whose two spacings have one
    dimension, wind components of different dimensions make each of the six
    formulas raise pint's DimensionalityError, in either orientation. *)
Theorem mixed_dimensions_raise formula (u v dx dy : quantity F) (kwargs : dict F) :
  In formula wind_formulas ->
  kwargs = order_xy \/ kwargs = order_yx ->
  grid_wind u v dx dy ->
  dim_eqb (units u) (units v) = false ->
  dim_eqb (units dx) (units dy) = true ->
  returned (formula (uv_args u v dx dy) kwargs) = Err DimensionalityError.
Proof.
  intros I K G M D. destruct (wind_formulas_calls formula I) as [body [Ib ->]].
  unfold uv_args. destruct K as [-> | ->].
  - destruct G as [Nu [Nv [Eu [Ev [Sx Sy]]]]].
    rewrite call_xy; trivial.
    rewrite (wind_formulas_mixed body (q_transpose u) (q_transpose v) dx dy); trivial.
    apply grid_wind_transpose. repeat split; trivial.
  - rewrite call_yx by reflexivity. now apply wind_formulas_mixed.
Qed.

End MixedDimensions.

Lemma mixed_dimensions_raise_witness :
  returned (h_convergence
              (uv_args (qfield ramp dim_speed) (qfield ramp dim_kelvin)
                       (qdist 1 dim_meter) (qdist 1 dim_meter)) order_yx)
  = Err DimensionalityError.
Proof.
  apply (mixed_dimensions_raise h_convergence (qfield ramp dim_speed)
           (qfield ramp dim_kelvin) (qdist 1 dim_meter) (qdist 1 dim_meter) order_yx).
  - right. left. reflexivity.
  - right. reflexivity.
  - repeat split; try reflexivity; repeat constructor.
  - reflexivity.
  - reflexivity.
Defined.

(** ** Stacking an array, and advection along a line *)

Section StackArray.

Context {F : Type} `{Arith F}.

Lemma forallb_map_const {A B} (f : A -> B) (P : B -> bool) (l : list A) :
  (forall a, P (f a) = true) -> forallb P (map f l) = true.
Proof. intros X. induction l as [|a l IH]; simpl; trivial. now rewrite X, IH. Qed.

(** Iterating an array along its leading axis and stacking the pieces
    gives the array back. *)
Lemma stack_array (q : quantity F) (n : nat) (rest : list nat) :
  shape (magnitude q) = S n :: rest ->
  exists q', _stack (VQ q) = Ok q'
             /\ shape (magnitude q') = S n :: rest
             /\ units q' = units q
             /\ forall k idx, k < S n ->
                  get (magnitude q') (k :: idx) = get (magnitude q) (k :: idx).
Proof.
  intros S. unfold _stack. cbn [iterate]. rewrite S. cbn [bind].
  set (piece := fun k => mk_q (subarray (magnitude q) k) (units q)).
  change (seq 0 (Datatypes.S n)) with (0 :: seq 1 n). cbn [map stack_quantities].
  rewrite !forallb_map_const;
    [| intros; apply shape_eqb_refl | intros; apply dim_eqb_refl ].
  cbn [negb]. eexists. split; [reflexivity|].
  cbn [magnitude shape units piece subarray length tl]. rewrite S, length_map, length_seq.
  split; [reflexivity|]. split; [reflexivity|].
  intros k idx K. cbn [get hd tl].
  change (piece 0 :: map piece (seq 1 n)) with (map piece (seq 0 (Datatypes.S n))).
  rewrite (map_nth piece (seq 0 (Datatypes.S n)) 0 k), seq_nth by trivial. reflexivity.
Qed.

(** X18: [_stack] of an array is that array: iterated along its leading
    axis and joined again it has the same shape, the same unit and the same
    elements.  An array without elements along its leading axis leaves
    nothing to concatenate, and a 0-d array cannot be iterated. *)
Theorem stack_of_array (q : quantity F) :
  match shape (magnitude q) with
  | [] => _stack (VQ q) = Err NotIterable
  | 0 :: _ => _stack (VQ q) = Err EmptySequence
  | S n :: rest =>
      exists q', _stack (VQ q) = Ok q'
                 /\ shape (magnitude q') = S n :: rest
                 /\ units q' = units q
                 /\ forall k idx, k < S n ->
                      get (magnitude q') (k :: idx) = get (magnitude q) (k :: idx)
  end.
Proof.
  destruct (shape (magnitude q)) as [|[|n] rest] eqn:S.
  - unfold _stack. cbn [iterate]. now rewrite S.
  - unfold _stack. cbn [iterate]. now rewrite S.
  - now apply stack_array.
Qed.

End StackArray.

(** A scalar and a wind component along one line of [n] points. *)
Lemma advection_raw_line (s u dx : quantity R) (n : nat) (wind : pyval R) :
  shape (magnitude s) = [n] ->
  shape (magnitude u) = [n] ->
  2 <= n ->
  is_scalar dx ->
  wind = VQ u \/ wind = VSeq [VQ u] ->
  returns_field (advection_raw s wind (VSeq [VQ dx]))
    [n] (dim_mul (dim_div (units s) (units dx)) (units u))
    (fun idx => (- (d_axis s 0 dx idx * get (magnitude u) idx))%R).
Proof.
  intros Ss Su N Sx W.
  assert (q_ndim s = 1) as Ns by (unfold q_ndim, ndim; now rewrite Ss).
  destruct n as [|n]; [lia|].
  (* the derivative, stacked *)
  assert (_gradient s [dx] = Ok (One (partial s 0 dx))) as G.
  { rewrite _gradient_partials;
      [ now rewrite Ns
      | rewrite Ns; simpl; lia
      | constructor; [exact Sx | constructor]
      | unfold samples_everywhere; rewrite Ss; constructor; [lia | constructor] ]. }
  destruct (stack_array (partial s 0 dx) n []) as [g [Eg [Sg [Ug Vg]]]];
    [simpl; now rewrite Ss|].
  (* the wind, stacked, reversed where it was given as a list *)
  assert (exists w,
            (w0 <- _stack wind ;;
             Ok (if q_ndim s <? q_ndim w0
                 then mk_q (reverse_axis0 (magnitude w0)) (units w0) else w0)) = Ok w
            /\ units w = units u
            /\ shape (magnitude (q_atleast_2d w)) = [1; S n]
            /\ forall k, k < S n ->
                 get (magnitude (q_atleast_2d w)) [0; k] = get (magnitude u) [k]) as Hw.
  { destruct W as [-> | ->].
    - destruct (stack_array u n [] Su) as [w [Ew [Sw [Uw Vw]]]].
      exists w. rewrite Ew. cbn [bind]. rewrite Ns. unfold q_ndim, ndim. rewrite Sw.
      cbn [length Nat.ltb Nat.leb]. split; [reflexivity|]. split; [exact Uw|].
      unfold q_atleast_2d, nd_atleast_2d. rewrite Sw. cbn [magnitude shape get tl].
      split; [reflexivity|]. intros k K. now apply Vw.
    - unfold _stack. cbn [iterate mapM as_quantity bind stack_quantities forallb negb].
      match goal with
      | |- context [q_ndim s <? ?x] =>
          assert ((q_ndim s <? x) = true) as ->
            by (rewrite Ns; unfold q_ndim, ndim; simpl; now rewrite Su)
      end.
      eexists. split; [reflexivity|]. split; [reflexivity|].
      unfold q_atleast_2d, nd_atleast_2d, reverse_axis0.
      cbn [magnitude shape get tl hd nth length Nat.sub units]. rewrite Su.
      split; [reflexivity|]. intros k K. reflexivity. }
  destruct Hw as [w [Ew [Uw [Sw Vw]]]].
  unfold advection_raw.
  apply bind_ok in Ew. destruct Ew as [w0 [Ew0 Ew]]. rewrite Ew0. cbn [bind].
  injection Ew as ->.
  cbn [iterate mapM as_quantity bind rev app]. rewrite G. cbn [bind pyval_of_grad].
  rewrite Eg. cbn [bind].
  unfold q_mul, nd_map2.
  assert (shape (magnitude (q_neg (q_atleast_2d g))) = [1; S n]) as Sg2.
  { unfold q_neg, q_atleast_2d, nd_atleast_2d, nd_map. cbn [magnitude shape].
    rewrite Sg. reflexivity. }
  rewrite Sg2, Sw, broadcast_shapes_same. cbn [bind sum_axis0 shape magnitude].
  eexists. split; [reflexivity|]. cbn [magnitude shape units].
  split; [reflexivity|]. split.
  { unfold q_neg, q_atleast_2d. cbn [units]. now rewrite Ug, Uw. }
  intros idx B. inversion B as [|k m idx' s' K B' E1 E2]; subst.
  inversion B'; subst. cbn [get seq fold_left].
  rewrite !(bidx_in_bounds [1; S n] [0; k])
    by (constructor; [lia|]; constructor; [exact K|]; constructor).
  rewrite Vw by exact K.
  unfold q_neg, q_atleast_2d, nd_atleast_2d, nd_map. cbn [magnitude shape get].
  rewrite Sg. cbn [get tl]. rewrite Vg by exact K.
  unfold d_axis. cbn. ring.
Qed.

Lemma flip_line (r : result (pyval R)) (n : nat) (d : dimension) (f : list nat -> R) :
  returns_field r [n] d f -> returns_field (fmap _check_and_flip r) [n] d f.
Proof.
  intros [q [-> [S [U V]]]]. cbn -[Nat.leb]. unfold q_ndim, ndim. rewrite S.
  cbn. exists q. auto.
Qed.

(** X19: along a line (a 1-D scalar and one wind component, given as an
    array or as a list of one array, with one spacing) [advection] returns
    [-u ds/dx], in the unit of the scalar per spacing times the unit of the
    wind; [dim_order] makes no difference, since 1-D arrays are never
    flipped. *)
Theorem advection_along_a_line (s u dx : quantity R) (n : nat) (wind : pyval R)
    (kwargs : dict R) :
  shape (magnitude s) = [n] ->
  shape (magnitude u) = [n] ->
  2 <= n ->
  is_scalar dx ->
  wind = VQ u \/ wind = VSeq [VQ u] ->
  kwargs = order_xy \/ kwargs = order_yx \/ kwargs = [] ->
  returns_field (returned (advection [VQ s; wind; VSeq [VQ dx]] kwargs))
    [n] (dim_mul (dim_div (units s) (units dx)) (units u))
    (fun idx => (- (d_axis s 0 dx idx * get (magnitude u) idx))%R).
Proof.
  intros Ss Su N Sx W K.
  pose proof (advection_raw_line s u dx n wind Ss Su N Sx W) as R.
  assert (_check_and_flip (VQ s) = VQ s) as Fs
    by (cbn [_check_and_flip]; unfold q_ndim, ndim; now rewrite Ss).
  assert (_check_and_flip (VQ u) = VQ u) as Fu
    by (cbn [_check_and_flip]; unfold q_ndim, ndim; now rewrite Su).
  assert (_check_and_flip (VQ dx) = VQ dx) as Fx by (now apply flip_scalar).
  assert (_check_and_flip wind = wind) as Fw.
  { destruct W as [-> | ->]; [exact Fu|].
    cbn -[Nat.leb]. unfold q_ndim, ndim. now rewrite Su. }
  assert (_check_and_flip (VSeq [VQ dx]) = VSeq [VQ dx]) as Fd
    by (cbn -[Nat.leb]; unfold is_scalar in Sx; now rewrite Sx).
  assert (returned (advection [VQ s; wind; VSeq [VQ dx]] order_yx)
          = advection_raw s wind (VSeq [VQ dx])) as Eyx by reflexivity.
  assert (returned (advection [VQ s; wind; VSeq [VQ dx]] order_xy)
          = fmap _check_and_flip (advection_raw s wind (VSeq [VQ dx]))) as Exy.
  { unfold advection. cbn -[_check_and_flip advection_raw].
    rewrite Fs, Fw, Fd. reflexivity. }
  destruct K as [-> | [-> | ->]].
  - rewrite Exy. now apply flip_line.
  - now rewrite Eyx.
  - change (returned (advection [VQ s; wind; VSeq [VQ dx]] []))
      with (returned (advection [VQ s; wind; VSeq [VQ dx]] order_xy)).
    rewrite Exy. now apply flip_line.
Qed.

Lemma advection_along_a_line_witness :
  returns_field
    (returned (advection [VQ (mk_q (of_list1 [1; 2; 3]%R) dim_pressure);
                          VQ (mk_q (of_list1 [1; 2; 3]%R) dim_speed);
                          VSeq [VQ (rdist 1 dim_meter)]] order_xy))
    [3] (dim_mul (dim_div dim_pressure dim_meter) dim_speed)
    (fun idx => (- (d_axis (mk_q (of_list1 [1; 2; 3]%R) dim_pressure) 0
                           (rdist 1 dim_meter) idx
                    * get (of_list1 [1; 2; 3]%R) idx))%R).
Proof.
  apply (advection_along_a_line (mk_q (of_list1 [1; 2; 3]%R) dim_pressure)
           (mk_q (of_list1 [1; 2; 3]%R) dim_speed) (rdist 1 dim_meter) 3 _ order_xy).
  - reflexivity.
  - reflexivity.
  - lia.
  - reflexivity.
  - left. reflexivity.
  - left. reflexivity.
Defined.

(** ** Geostrophic wind from heights and from geopotential *)

Lemma broadcast_shapes_nil_l (s : list nat) : broadcast_shapes [] s = Some s.
Proof.
  unfold broadcast_shapes. cbn [rev].
  destruct (rev s) eqn:E; cbn [broadcast_rev option_map];
    rewrite <- E; now rewrite rev_involutive.
Qed.

Lemma clamp_ones_idem (s idx : list nat) :
  clamp_ones s (clamp_ones s idx) = clamp_ones s idx.
Proof.
  revert idx. induction s as [|n s IH]; intros [|i idx]; cbn [clamp_ones]; trivial.
  rewrite IH. now destruct (n =? 1).
Qed.

Lemma clamp_ones_length (s idx : list nat) :
  length (clamp_ones s idx) <= length s.
Proof.
  revert idx. induction s as [|n s IH]; intros [|i idx]; cbn [clamp_ones length]; try lia.
  specialize (IH idx). lia.
Qed.

Lemma bidx_idem (s idx : list nat) : bidx s (bidx s idx) = bidx s idx.
Proof.
  unfold bidx at 1.
  assert (length (bidx s idx) - length s = 0) as ->
    by (unfold bidx; pose proof (clamp_ones_length s (skipn (length idx - length s) idx)); lia).
  cbn [skipn]. unfold bidx. apply clamp_ones_idem.
Qed.

Lemma stencil_scale (g0 : R) (line : nat -> R) (n i : nat) (h : R) :
  stencil (fun k => (g0 * line k)%R) n i h = (g0 * stencil line n i h)%R.
Proof.
  unfold stencil. destruct (i =? 0); [|destruct (i =? n - 1)]; cbn; unfold Rdiv; ring.
Qed.

Lemma geopotential_units (uf ud : dimension) :
  dim_mul (dim_div dimensionless uf) (dim_div dim_geopotential ud)
  = dim_mul (dim_div dim_acceleration uf) (dim_div dim_meter ud).
Proof.
  unfold dim_mul, dim_div, dim_zip.
  cbn [d_length d_time d_mass d_angle d_temperature dimensionless dim_geopotential
       dim_acceleration dim_meter].
  f_equal; apply Qred_complete; rewrite !Qred_correct; ring.
Qed.

(** The product of a normalisation with a derivative, when the field is
    scaled by [g0] and the normalisation by its inverse. *)
Lemma q_mul_scaled (g0 : R) (n1 n2 p1 p2 : quantity R) :
  shape (magnitude n1) = shape (magnitude n2) ->
  shape (magnitude p1) = shape (magnitude p2) ->
  (forall idx, get (magnitude n2) (bidx (shape (magnitude n2)) idx)
               = (g0 * get (magnitude n1) (bidx (shape (magnitude n1)) idx))%R) ->
  (forall idx, get (magnitude p1) idx = (g0 * get (magnitude p2) idx)%R) ->
  dim_mul (units n1) (units p1) = dim_mul (units n2) (units p2) ->
  match q_mul n1 p1, q_mul n2 p2 with
  | Ok a, Ok b => q_eq a b
  | Err e1, Err e2 => e1 = e2
  | _, _ => False
  end.
Proof.
  intros Sn Sp N P U. unfold q_mul, nd_map2. rewrite Sn, Sp.
  destruct (broadcast_shapes (shape (magnitude n2)) (shape (magnitude p2))) as [s|];
    cbn [bind]; [|reflexivity].
  split; [split|]; cbn [magnitude shape get units]; trivial.
  intros idx B. rewrite N, P. rewrite <- Sn. cbn. ring.
Qed.

Lemma partial_geopotential (g0 : R) (z d : quantity R) (k : nat) (idx : list nat) :
  get (magnitude (partial (geopotential_of g0 z) k d)) idx
  = (g0 * get (magnitude (partial z k d)) idx)%R.
Proof.
  unfold partial, geopotential_of, grad_axis. cbn [magnitude shape get nd_map].
  apply stencil_scale.
Qed.

Lemma geostrophic_components_geopotential (g0 : R) (z f dx dy : quantity R) :
  units z = dim_meter ->
  res_equiv
    (geostrophic_components (rdist g0 dim_acceleration) (geopotential_of g0 z) f dx dy)
    (geostrophic_components (rdist g0 dim_acceleration) z f dx dy).
Proof.
  intros U. unfold geostrophic_components, normalization. rewrite U.
  change (q_ndim (geopotential_of g0 z)) with (q_ndim z).
  change (dim_eqb (units (geopotential_of g0 z)) dim_geopotential) with true.
  change (dim_eqb dim_meter dim_geopotential) with false.
  cbn iota. unfold q_div at 1, nd_map2 at 1.
  cbn [rdist magnitude shape scalar]. rewrite broadcast_shapes_nil_l. cbn [bind].
  set (n2 := mk_q _ (dim_div (units (rdist g0 dim_acceleration)) (units f))).
  assert (forall idx, get (magnitude n2) (bidx (shape (magnitude n2)) idx)
                      = (g0 * get (magnitude (q_recip f))
                                  (bidx (shape (magnitude (q_recip f))) idx))%R) as N.
  { intros idx. unfold n2, q_recip. cbn [magnitude shape get nd_map units].
    rewrite bidx_idem. change (bidx [] _) with (@nil nat). cbn. unfold Rdiv. ring. }
  assert (forall d : quantity R,
            dim_mul (units (q_recip f)) (dim_div dim_geopotential (units d))
            = dim_mul (units n2) (dim_div dim_meter (units d))) as Un
    by (intros d; apply geopotential_units).
  pose proof (q_mul_scaled g0 (q_neg (q_recip f)) (q_neg n2)
                (partial (geopotential_of g0 z) (q_ndim z - 2) dy)
                (partial z (q_ndim z - 2) dy)) as Hu.
  pose proof (q_mul_scaled g0 (q_recip f) n2
                (partial (geopotential_of g0 z) (q_ndim z - 1) dx)
                (partial z (q_ndim z - 1) dx)) as Hv.
  destruct (q_mul (q_neg (q_recip f)) _) as [ug|e];
    destruct (q_mul (q_neg n2) _) as [ug'|e'].
  - cbn [bind].
    destruct (q_mul (q_recip f) _) as [vg|e];
      destruct (q_mul n2 _) as [vg'|e']; cbn [bind res_equiv].
    + apply equiv_sequence. constructor; [|constructor; [|constructor]];
        apply equiv_quantity.
      * apply Hu; trivial.
        -- intros idx. cbn [q_neg magnitude shape nd_map get]. rewrite N. cbn. ring.
        -- apply partial_geopotential.
        -- cbn [q_neg units partial]. rewrite U. apply Un.
      * apply Hv; trivial.
        -- apply partial_geopotential.
        -- cbn [units partial]. rewrite U. apply Un.
    + exfalso. apply Hv; trivial.
      * apply partial_geopotential.
      * cbn [units partial]. rewrite U. apply Un.
    + exfalso. apply Hv; trivial.
      * apply partial_geopotential.
      * cbn [units partial]. rewrite U. apply Un.
    + apply Hv; trivial.
      * apply partial_geopotential.
      * cbn [units partial]. rewrite U. apply Un.
  - exfalso. apply Hu; trivial.
    + intros idx. cbn [q_neg magnitude shape nd_map get]. rewrite N. cbn. ring.
    + apply partial_geopotential.
    + cbn [q_neg units partial]. rewrite U. apply Un.
  - exfalso. apply Hu; trivial.
    + intros idx. cbn [q_neg magnitude shape nd_map get]. rewrite N. cbn. ring.
    + apply partial_geopotential.
    + cbn [q_neg units partial]. rewrite U. apply Un.
  - cbn [bind res_equiv]. apply Hu; trivial.
    + intros idx. cbn [q_neg magnitude shape nd_map get]. rewrite N. cbn. ring.
    + apply partial_geopotential.
    + cbn [q_neg units partial]. rewrite U. apply Un.
Qed.

Lemma q_eq_transpose (a b : quantity R) :
  q_eq a b -> q_eq (q_transpose a) (q_transpose b).
Proof.
  intros [[S V] U]. split; [split|]; cbn [q_transpose magnitude transpose shape get units].
  - now rewrite S.
  - intros idx B. apply V. rewrite <- (rev_involutive (shape (magnitude a))).
    now apply in_bounds_rev.
  - exact U.
Qed.

Lemma val_equiv_flip :
  forall a b : pyval R, val_equiv a b -> val_equiv (_check_and_flip a) (_check_and_flip b).
Proof.
  fix IH 3. intros a b [p q Q | l l' Fl | v].
  - cbn [_check_and_flip].
    assert (q_ndim p = q_ndim q) as -> by (unfold q_ndim, ndim; now rewrite (proj1 (proj1 Q))).
    destruct (2 <=? q_ndim q); apply equiv_quantity; [now apply q_eq_transpose | exact Q].
  - cbn [_check_and_flip]. apply equiv_sequence.
    induction Fl as [|x y l l' E Fl IHl]; simpl; constructor; [now apply IH | exact IHl].
  - apply equiv_same.
Qed.

Lemma res_equiv_flip (r1 r2 : result (pyval R)) :
  res_equiv r1 r2 -> res_equiv (fmap _check_and_flip r1) (fmap _check_and_flip r2).
Proof.
  destruct r1, r2; cbn; trivial. apply val_equiv_flip.
Qed.

Lemma geostrophic_raw_geopotential (g0 : R) (z f dx dy : quantity R) :
  2 <= q_ndim z ->
  samples_everywhere (magnitude z) ->
  is_scalar dx -> is_scalar dy ->
  units z = dim_meter ->
  res_equiv
    (geostrophic_wind_raw (rdist g0 dim_acceleration) (geopotential_of g0 z) f dx dy)
    (geostrophic_wind_raw (rdist g0 dim_acceleration) z f dx dy).
Proof.
  intros N E Sx Sy U.
  rewrite !geostrophic_wind_raw_components; trivial.
  - now apply geostrophic_components_geopotential.
  - now right.
  - now left.
Qed.

(** X20: the two ways of passing the field agree.  For a height field
    [z] in metres and gravity [g0], [geostrophic_wind] on the geopotential
    [g0 * z] (normalised by [1/f]) returns, element for element and in the
    same unit, what it returns on [z] itself (normalised by [g/f]), for a
    Coriolis parameter of any shape and in either orientation; where one
    call raises, the other raises the same exception. *)
Theorem geopotential_or_height (g0 : R) (z f dx dy : quantity R) (kwargs : dict R) :
  2 <= q_ndim z ->
  samples_everywhere (magnitude z) ->
  is_scalar dx -> is_scalar dy ->
  units z = dim_meter ->
  kwargs = order_xy \/ kwargs = order_yx ->
  res_equiv
    (returned (geostrophic_wind (rdist g0 dim_acceleration)
                 [VQ (geopotential_of g0 z); VQ f; VQ dx; VQ dy] kwargs))
    (returned (geostrophic_wind (rdist g0 dim_acceleration)
                 [VQ z; VQ f; VQ dx; VQ dy] kwargs)).
Proof.
  intros N E Sx Sy U [-> | ->].
  - destruct (flip_quantity f) as [f' [Ff _]].
    assert (forall h : quantity R, q_ndim h = q_ndim z ->
              returned (geostrophic_wind (rdist g0 dim_acceleration)
                          [VQ h; VQ f; VQ dx; VQ dy] order_xy)
              = fmap _check_and_flip
                  (geostrophic_wind_raw (rdist g0 dim_acceleration)
                     (q_transpose h) f' dx dy)) as C.
    { intros h Nh. unfold geostrophic_wind.
      cbn -[_check_and_flip geostrophic_wind_raw].
      rewrite Ff, (flip_scalar dx Sx), (flip_scalar dy Sy).
      assert (_check_and_flip (VQ h) = VQ (q_transpose h)) as ->.
      { cbn [_check_and_flip]. rewrite Nh.
        assert ((2 <=? q_ndim z) = true) as -> by (now apply Nat.leb_le). reflexivity. }
      reflexivity. }
    rewrite (C (geopotential_of g0 z)), (C z) by reflexivity.
    apply res_equiv_flip.
    change (q_transpose (geopotential_of g0 z)) with (geopotential_of g0 (q_transpose z)).
    apply geostrophic_raw_geopotential; trivial.
    + unfold q_ndim, ndim in *. cbn [q_transpose magnitude transpose shape].
      now rewrite length_rev.
    + now apply samples_everywhere_transpose.
  - unfold geostrophic_wind. rewrite !call_yx by reflexivity.
    now apply geostrophic_raw_geopotential.
Qed.

Lemma geopotential_or_height_witness :
  is_ok (returned (geostrophic_wind (rdist 10 dim_acceleration)
                     [VQ height_field_R; VQ coriolis_R;
                      VQ hundred_meters_R; VQ hundred_meters_R] order_yx)) = true
  /\ res_equiv
       (returned (geostrophic_wind (rdist 10 dim_acceleration)
                    [VQ (geopotential_of 10 height_field_R); VQ coriolis_R;
                     VQ hundred_meters_R; VQ hundred_meters_R] order_yx))
       (returned (geostrophic_wind (rdist 10 dim_acceleration)
                    [VQ height_field_R; VQ coriolis_R;
                     VQ hundred_meters_R; VQ hundred_meters_R] order_yx)).
Proof.
  split; [reflexivity|].
  apply (geopotential_or_height 10 height_field_R coriolis_R hundred_meters_R
           hundred_meters_R order_yx).
  - cbv. lia.
  - repeat constructor.
  - reflexivity.
  - reflexivity.
  - reflexivity.
  - right. reflexivity.
Defined.

(** ** Geostrophic wind of a field with levels *)

Section Levels.

Context {F : Type} `{Arith F}.

Lemma scalar_shape (q : quantity F) : is_scalar q -> shape (magnitude q) = [].
Proof. unfold is_scalar, q_ndim, ndim. apply length_zero_iff_nil. Qed.

Lemma normalization_scalar (g heights f : quantity F) :
  is_scalar g -> is_scalar f ->
  exists norm, normalization g heights f = Ok norm /\ shape (magnitude norm) = [].
Proof.
  intros Sg Sf. apply scalar_shape in Sg, Sf. unfold normalization.
  destruct (dim_eqb (units heights) dim_geopotential).
  - eexists. split; [reflexivity|]. exact Sf.
  - unfold q_div, nd_map2. rewrite Sg, Sf. cbn. eexists. split; reflexivity.
Qed.

Lemma q_mul_by_scalar (c p : quantity F) :
  shape (magnitude c) = [] ->
  exists r, q_mul c p = Ok r
            /\ shape (magnitude r) = shape (magnitude p)
            /\ units r = dim_mul (units c) (units p)
            /\ forall idx, in_bounds (shape (magnitude p)) idx ->
                 get (magnitude r) idx
                 = fmul (get (magnitude c) []) (get (magnitude p) idx).
Proof.
  intros S. unfold q_mul, nd_map2. rewrite S, broadcast_shapes_nil_l. cbn [bind].
  eexists. split; [reflexivity|]. cbn [magnitude shape units get].
  repeat split. intros idx B. rewrite (bidx_in_bounds _ _ B). reflexivity.
Qed.

Lemma partial_of_level (h d : quantity F) (l m n k i j a : nat) :
  shape (magnitude h) = [l; m; n] ->
  a < 2 ->
  get (magnitude (partial h (S a) d)) [k; i; j]
  = get (magnitude (partial (level h k) a d)) [i; j].
Proof.
  intros S A. unfold partial, level, grad_axis, subarray.
  cbn [magnitude shape get units]. rewrite S.
  destruct a as [|[|a]]; [reflexivity | reflexivity | lia].
Qed.

(** X21: the dummy spacings keep the levels apart.  For a 3-D field
    whose leading axis counts the levels (at least two of them), with a
    scalar Coriolis parameter, what [geostrophic_wind] returns at level [k]
    is what it returns for the 2-D field of that level alone. *)
Theorem geostrophic_wind_by_level (g h f dx dy : quantity F) (l m n k : nat) :
  shape (magnitude h) = [l; m; n] ->
  2 <= l -> 2 <= m -> 2 <= n -> k < l ->
  is_scalar g -> is_scalar f -> is_scalar dx -> is_scalar dy ->
  units h = dim_geopotential \/ units h = dim_meter ->
  exists ug vg ug_k vg_k,
    returned (geostrophic_wind g [VQ h; VQ f; VQ dx; VQ dy] order_yx)
    = Ok (VSeq [VQ ug; VQ vg])
    /\ returned (geostrophic_wind g [VQ (level h k); VQ f; VQ dx; VQ dy] order_yx)
       = Ok (VSeq [VQ ug_k; VQ vg_k])
    /\ q_eq (level ug k) ug_k
    /\ q_eq (level vg k) vg_k.
Proof.
  intros S L M N K Sg Sf Sx Sy U.
  unfold geostrophic_wind. rewrite !call_yx by reflexivity.
  rewrite !geostrophic_wind_raw_components; trivial;
    try (unfold q_ndim, ndim; cbn [level magnitude subarray shape]; rewrite S; simpl; lia);
    try (unfold samples_everywhere; cbn [level magnitude subarray shape]; rewrite S;
         cbn [tl]; repeat (constructor; [lia|]); constructor).
  unfold geostrophic_components.
  assert (q_ndim h = 3) as -> by (unfold q_ndim, ndim; now rewrite S).
  assert (q_ndim (level h k) = 2) as ->
    by (unfold q_ndim, ndim; cbn [level magnitude subarray shape]; now rewrite S).
  change (normalization g (level h k) f) with (normalization g h f).
  destruct (normalization_scalar g h f Sg Sf) as [norm [-> Sn]]. cbn [bind Nat.sub].
  assert (shape (magnitude (q_neg norm)) = []) as Sn' by exact Sn.
  destruct (q_mul_by_scalar (q_neg norm) (partial h 1 dy) Sn') as [ug [-> [Su [Uu Vu]]]].
  destruct (q_mul_by_scalar norm (partial h 2 dx) Sn) as [vg [-> [Sv [Uv Vv]]]].
  destruct (q_mul_by_scalar (q_neg norm) (partial (level h k) 0 dy) Sn')
    as [ug_k [-> [Suk [Uuk Vuk]]]].
  destruct (q_mul_by_scalar norm (partial (level h k) 1 dx) Sn)
    as [vg_k [-> [Svk [Uvk Vvk]]]].
  cbn [bind]. exists ug, vg, ug_k, vg_k. split; [reflexivity|]. split; [reflexivity|].
  cbn [partial magnitude grad_axis shape level subarray units] in Su, Sv, Suk, Svk, Uuk, Uvk.
  rewrite S in *. cbn [tl] in *.
  assert (forall idx, in_bounds [m; n] idx -> in_bounds [l; m; n] (k :: idx)) as B3
    by (intros idx B; constructor; trivial).
  split.
  - split; [split|].
    + cbn [level magnitude subarray shape]. now rewrite Su, Suk.
    + cbn [level magnitude subarray shape get]. rewrite Su. cbn [tl]. intros idx B.
      rewrite Vu, Vuk; trivial;
        try (cbn [partial magnitude grad_axis shape level subarray]; rewrite S; auto).
      destruct (in_bounds_2 _ _ _ B) as [i [j [-> _]]].
      now rewrite (partial_of_level h dy l m n k i j 0 S) by lia.
    + cbn [level units]. now rewrite Uu, Uuk.
  - split; [split|].
    + cbn [level magnitude subarray shape]. now rewrite Sv, Svk.
    + cbn [level magnitude subarray shape get]. rewrite Sv. cbn [tl]. intros idx B.
      rewrite Vv, Vvk; trivial;
        try (cbn [partial magnitude grad_axis shape level subarray]; rewrite S; auto).
      destruct (in_bounds_2 _ _ _ B) as [i [j [-> _]]].
      now rewrite (partial_of_level h dx l m n k i j 1 S) by lia.
    + cbn [level units]. now rewrite Uv, Uvk.
Qed.

End Levels.

Lemma geostrophic_wind_by_level_witness :
  exists ug vg ug_k vg_k,
    returned (geostrophic_wind gravity
                [VQ two_levels; VQ coriolis; VQ hundred_meters; VQ hundred_meters]
                order_yx)
    = Ok (VSeq [VQ ug; VQ vg])
    /\ returned (geostrophic_wind gravity
                   [VQ (level two_levels 1); VQ coriolis; VQ hundred_meters;
                    VQ hundred_meters] order_yx)
       = Ok (VSeq [VQ ug_k; VQ vg_k])
    /\ q_eq (level ug 1) ug_k
    /\ q_eq (level vg 1) vg_k.
Proof.
  apply (geostrophic_wind_by_level gravity two_levels coriolis hundred_meters
           hundred_meters 2 2 2 1); try reflexivity; try lia.
  right. reflexivity.
Defined.

Section SingleLevel.

Context {F : Type} `{Arith F}.

(** X22: the derivative along the leading axis is computed before it is
    thrown away.  A 3-D field with fewer than two levels makes
    [geostrophic_wind] raise numpy's error for an array too small for a
    gradient, although the field of each level alone would be accepted. *)
Theorem geostrophic_wind_needs_two_levels (g h f dx dy : quantity F) (l m n : nat) :
  shape (magnitude h) = [l; m; n] ->
  l < 2 ->
  is_scalar g -> is_scalar f -> is_scalar dx -> is_scalar dy ->
  returned (geostrophic_wind g [VQ h; VQ f; VQ dx; VQ dy] order_yx)
  = Err GradientTooSmall.
Proof.
  intros S L Sg Sf Sx Sy.
  unfold geostrophic_wind. rewrite call_yx by reflexivity.
  unfold geostrophic_wind_raw.
  assert (exists norm,
            (if Qeq_bool (d_length (units h)) 2 then Ok (q_recip f) else q_div g f)
            = Ok norm) as [norm ->].
  { destruct (Qeq_bool (d_length (units h)) 2); [eexists; reflexivity|].
    unfold q_div, nd_map2. rewrite (scalar_shape g Sg), (scalar_shape f Sf).
    cbn. eexists. reflexivity. }
  cbn [bind].
  assert (q_ndim h = 3) as -> by (unfold q_ndim, ndim; now rewrite S).
  cbn [Nat.ltb Nat.leb Nat.sub repeat app].
  unfold _gradient, pad_args.
  assert (q_ndim h = 3) as -> by (unfold q_ndim, ndim; now rewrite S).
  cbn [length Nat.ltb Nat.leb map]. unfold np_gradient.
  assert (ndim (magnitude h) = 3) as -> by (unfold ndim; now rewrite S).
  cbn [length Nat.eqb mapM]. unfold spacing_value.
  unfold is_scalar, q_ndim in Sx, Sy. rewrite Sx, Sy.
  cbn [one_meter magnitude ndim scalar shape length Nat.eqb bind seq combine mapM].
  unfold grad_one_axis at 1. cbn [fst snd]. rewrite S. cbn [nth].
  assert ((l <? 2) = true) as -> by (now apply Nat.ltb_lt).
  reflexivity.
Qed.

End SingleLevel.

Lemma geostrophic_wind_needs_two_levels_witness :
  returned (geostrophic_wind gravity
              [VQ one_level; VQ coriolis; VQ hundred_meters; VQ hundred_meters] order_yx)
  = Err GradientTooSmall
  /\ is_ok (returned (geostrophic_wind gravity
                        [VQ (level one_level 0); VQ coriolis; VQ hundred_meters;
                         VQ hundred_meters] order_yx)) = true.
Proof.
  split; [|reflexivity].
  apply (geostrophic_wind_needs_two_levels gravity one_level coriolis hundred_meters
           hundred_meters 1 2 2); try reflexivity. lia.
Defined.
